(** * Datasheet analyzer: store, rasterizer, analysis pipeline

    A shallow embedding of [database.py] (class [DatasheetDatabase]) and of
    the pipeline part of [main.py] ([pdf_to_base64_images],
    [DataAnalyzerTab.on_analysis_timer], [analyze_datasheet],
    [on_reanalyze], [load_datasheets]), followed by the properties proved
    about them.

    Conventions.
    - A Python [str] is a list of code points ([N]).
    - SQLite tables are lists of rows in rowid order; every store method is
      one transaction, so it maps a store to a new store and a result.
    - [CURRENT_TIMESTAMP] is an argument ([now], seconds).
    - Floats are outside the development: the JSON reader reports a document
      that holds a float literal separately ([LoadsFloat]), and what the
      program then stores is left open.
    - What [json.loads] takes from the interpreter (the room left for
      recursion and the limit on the digits of an integer) is an argument
      ([interpreter]).
    - What the program prints is left out: the standard output is taken
      to accept every string. *)

From Stdlib Require Import List ZArith NArith Lia Bool Ascii String.
From Stdlib Require Import DecimalN DecimalPos DecimalFacts.
From Stdlib Require Import Sorting.Permutation Sorting.Sorted.
Import ListNotations.

Set Implicit Arguments.
Unset Strict Implicit.

(* ===================================================================== *)
(** * Python strings *)
(* ===================================================================== *)

Module PyStr.

Local Open Scope N_scope.

Definition char := N.
Definition str := list char.

(** An ASCII literal as a [str]. *)
Fixpoint lit (s : string) : str :=
  match s with
  | EmptyString => []
  | String a r => N_of_ascii a :: lit r
  end.

Definition char_eqb (a b : char) : bool := N.eqb a b.

Fixpoint str_eqb (a b : str) : bool :=
  match a, b with
  | [], [] => true
  | x :: a', y :: b' => char_eqb x y && str_eqb a' b'
  | _, _ => false
  end.

Definition DQUOTE : char := 34.
Definition SQUOTE : char := 39.
Definition BACKSLASH : char := 92.
Definition BACKTICK : char := 96.
Definition NEWLINE : char := 10.

(** [str.isspace] on one code point, which is also the class [\s] of [re]
    for [str] patterns. *)
Definition isspace (c : char) : bool :=
  ((9 <=? c) && (c <=? 13)) || ((28 <=? c) && (c <=? 32))
  || (c =? 133) || (c =? 160) || (c =? 5760)
  || ((8192 <=? c) && (c <=? 8202))
  || (c =? 8232) || (c =? 8233) || (c =? 8239) || (c =? 8287)
  || (c =? 12288).

Fixpoint lstrip (s : str) : str :=
  match s with
  | c :: r => if isspace c then lstrip r else s
  | [] => []
  end.

Definition rstrip (s : str) : str := rev (lstrip (rev s)).

(** [s.strip()] *)
Definition strip (s : str) : str := rstrip (lstrip s).

(** [s.replace(old, new)] for one-character [old] and [new]. *)
Definition replace_char (old new : char) (s : str) : str :=
  map (fun c => if char_eqb c old then new else c) s.

(** A Unicode scalar value: a code point that is not a surrogate.  UTF-8
    encodes the strings made of them and no other. *)
Definition scalar_char (c : char) : bool :=
  (c <? 55296) || ((57344 <=? c) && (c <? 1114112)).

Definition valid_str (s : str) : bool := forallb scalar_char s.

(** [s.startswith(p)], returning what follows the prefix. *)
Fixpoint strip_prefix (p s : str) : option str :=
  match p, s with
  | [], _ => Some s
  | a :: p', b :: s' => if char_eqb a b then strip_prefix p' s' else None
  | _ :: _, [] => None
  end.

Definition startswith (p s : str) : bool :=
  match strip_prefix p s with Some _ => true | None => false end.

End PyStr.
Import PyStr.

(* ===================================================================== *)
(** * The fenced-block pattern of [analyze_datasheet]

    [re.search(r'```(?:json)?\s*\n?(.*?)\n?```', text, re.DOTALL)], written
    as the backtracking search the pattern denotes: each function tries the
    alternatives of one pattern element in the order of [re], and yields
    group 1 of the first complete match. *)
(* ===================================================================== *)

Module Fence.

Definition FENCE : str := [BACKTICK; BACKTICK; BACKTICK].
Definition JSON_TAG : str := lit "json".

(** [\n?```] at the head of [s] (nothing of the pattern follows it). *)
Definition closes (s : str) : bool :=
  match s with
  | c :: r =>
      (char_eqb c NEWLINE && startswith FENCE r) || startswith FENCE s
  | [] => false
  end.

(** [(.*?)\n?```]: the lazy group grows one character at a time. *)
Fixpoint lazy_group (s : str) : option str :=
  if closes s then Some []
  else match s with
       | c :: r => option_map (cons c) (lazy_group r)
       | [] => None
       end.

(** [\n?(.*?)\n?```]: the optional newline is taken first. *)
Definition opt_newline (s : str) : option str :=
  match s with
  | c :: r =>
      if char_eqb c NEWLINE then
        match lazy_group r with
        | Some g => Some g
        | None => lazy_group s
        end
      else lazy_group s
  | [] => lazy_group s
  end.

(** [\s*\n?(.*?)\n?```]: the greedy star takes a space before it gives up. *)
Fixpoint spaces (s : str) : option str :=
  match s with
  | c :: r =>
      if isspace c then
        match spaces r with
        | Some g => Some g
        | None => opt_newline s
        end
      else opt_newline s
  | [] => opt_newline s
  end.

(** [(?:json)?\s*\n?(.*?)\n?```] *)
Definition opt_json (s : str) : option str :=
  match strip_prefix JSON_TAG s with
  | Some r =>
      match spaces r with
      | Some g => Some g
      | None => spaces s
      end
  | None => spaces s
  end.

(** The whole pattern anchored at the head of [s]. *)
Definition match_here (s : str) : option str :=
  match strip_prefix FENCE s with
  | Some r => opt_json r
  | None => None
  end.

(** [re.search]: the leftmost position with a match; group 1. *)
Fixpoint search (s : str) : option str :=
  match match_here s with
  | Some g => Some g
  | None => match s with
            | _ :: r => search r
            | [] => None
            end
  end.

(** Lines 1034-1038 and 1080-1084 of [main.py]: the candidate payload. *)
Definition candidate (raw : str) : str :=
  match search raw with
  | Some g => strip g
  | None => strip raw
  end.

End Fence.

(* ===================================================================== *)
(** * Python values and the [json] module *)
(* ===================================================================== *)

Module Py.

Local Open Scope N_scope.

(** The values [json.loads] builds, floats left out: [None], [bool], [int],
    [str], [list], and [dict] with [str] keys in insertion order. *)
#[local] Unset Elimination Schemes.
Inductive pyval :=
| PNone
| PBool (b : bool)
| PInt (z : Z)
| PStr (s : str)
| PList (l : list pyval)
| PDict (d : list (str * pyval)).
#[local] Set Elimination Schemes.

(** [isinstance(v, list)], [isinstance(v, dict)] *)
Definition is_list (v : pyval) : bool :=
  match v with PList _ => true | _ => false end.
Definition is_dict (v : pyval) : bool :=
  match v with PDict _ => true | _ => false end.

(** ** [dict] with [str] keys *)

(** [d.get(k)] / [k in d] *)
Fixpoint dict_get (A : Type) (d : list (str * A)) (k : str) : option A :=
  match d with
  | [] => None
  | (k', v) :: r => if str_eqb k' k then Some v else dict_get r k
  end.

(** [d[k] = v]: an existing key keeps its place, a new one goes last. *)
Fixpoint dict_set (A : Type) (d : list (str * A)) (k : str) (v : A)
  : list (str * A) :=
  match d with
  | [] => [(k, v)]
  | (k', v') :: r =>
      if str_eqb k' k then (k', v) :: r else (k', v') :: dict_set r k v
  end.

(** ** Decimal text of integers: [str(n)], [int(text)] *)

Fixpoint uint_digits (u : Decimal.uint) : str :=
  match u with
  | Decimal.Nil => []
  | Decimal.D0 r => 48 :: uint_digits r
  | Decimal.D1 r => 49 :: uint_digits r
  | Decimal.D2 r => 50 :: uint_digits r
  | Decimal.D3 r => 51 :: uint_digits r
  | Decimal.D4 r => 52 :: uint_digits r
  | Decimal.D5 r => 53 :: uint_digits r
  | Decimal.D6 r => 54 :: uint_digits r
  | Decimal.D7 r => 55 :: uint_digits r
  | Decimal.D8 r => 56 :: uint_digits r
  | Decimal.D9 r => 57 :: uint_digits r
  end.

Definition isdigit (c : char) : bool := (48 <=? c) && (c <=? 57).

(** The digits of [s] as a number; [s] holds digits only. *)
Fixpoint digits_uint (s : str) : Decimal.uint :=
  match s with
  | [] => Decimal.Nil
  | c :: r =>
      let u := digits_uint r in
      match c - 48 with
      | 0 => Decimal.D0 u | 1 => Decimal.D1 u | 2 => Decimal.D2 u
      | 3 => Decimal.D3 u | 4 => Decimal.D4 u | 5 => Decimal.D5 u
      | 6 => Decimal.D6 u | 7 => Decimal.D7 u | 8 => Decimal.D8 u
      | _ => Decimal.D9 u
      end
  end.

(** [str(z)] for an [int] *)
Definition str_of_Z (z : Z) : str :=
  match z with
  | Z0 => [48]
  | Zpos p => uint_digits (Pos.to_uint p)
  | Zneg p => 45 :: uint_digits (Pos.to_uint p)
  end.

(** ** [json.dumps(v)] with the default options
    ([ensure_ascii=True], separators [", "] and [": "]) *)

Definition hexdigit (n : N) : char :=
  if n <? 10 then 48 + n else 87 + n.

(** [\uXXXX] for [c < 0x10000] *)
Definition u_escape (c : N) : str :=
  [92; 117; hexdigit (c / 4096); hexdigit ((c / 256) mod 16);
   hexdigit ((c / 16) mod 16); hexdigit (c mod 16)].

Definition escape_char (c : char) : str :=
  if c =? 34 then [92; 34]
  else if c =? 92 then [92; 92]
  else if c =? 10 then [92; 110]
  else if c =? 13 then [92; 114]
  else if c =? 9 then [92; 116]
  else if c =? 8 then [92; 98]
  else if c =? 12 then [92; 102]
  else if (32 <=? c) && (c <=? 126) then [c]
  else if c <? 65536 then u_escape c
  else u_escape (55296 + (c - 65536) / 1024)
         ++ u_escape (56320 + (c - 65536) mod 1024).

(** [encode_basestring_ascii] *)
Definition encode_str (s : str) : str :=
  34 :: flat_map escape_char s ++ [34].

(** [", ".join(parts)] *)
Fixpoint join_comma (parts : list str) : str :=
  match parts with
  | [] => []
  | [p] => p
  | p :: r => p ++ 44 :: 32 :: join_comma r
  end.

Fixpoint json_dumps (v : pyval) : str :=
  match v with
  | PNone => lit "null"
  | PBool true => lit "true"
  | PBool false => lit "false"
  | PInt z => str_of_Z z
  | PStr s => encode_str s
  | PList l => 91 :: join_comma (map json_dumps l) ++ [93]
  | PDict d =>
      123 :: join_comma
               (map (fun kv : str * pyval => let (k, x) := kv in
                               encode_str k ++ 58 :: 32 :: json_dumps x) d)
          ++ [125]
  end.

(** ** [str(v)] for the scalars written by the store *)

(** [str(v)] when [v] is not a [list] or [dict]; [repr] of containers is
    not described here and [None] stands for it. *)
Definition py_str (v : pyval) : option str :=
  match v with
  | PNone => Some (lit "None")
  | PBool true => Some (lit "True")
  | PBool false => Some (lit "False")
  | PInt z => Some (str_of_Z z)
  | PStr s => Some s
  | PList _ | PDict _ => None
  end.


(** ** [json.loads(text)] with the default options ([strict=True])

    The recursive descent of [json.scanner] and [json.decoder]: [None] or
    [Invalid] is [JSONDecodeError].  [fuel] bounds the calls; [json_loads]
    gives enough of it ([Exhausted] is never reached, see [loads_fuel]). *)

Definition is_json_ws (c : char) : bool :=
  (c =? 32) || (c =? 9) || (c =? 10) || (c =? 13).

Fixpoint skip_ws (s : str) : str :=
  match s with
  | c :: r => if is_json_ws c then skip_ws r else s
  | [] => []
  end.

Definition hexval (c : char) : option N :=
  if (48 <=? c) && (c <=? 57) then Some (c - 48)
  else if (97 <=? c) && (c <=? 102) then Some (c - 87)
  else if (65 <=? c) && (c <=? 70) then Some (c - 55)
  else None.

Definition hex4 (a b c d : char) : option N :=
  match hexval a, hexval b, hexval c, hexval d with
  | Some x, Some y, Some z, Some w => Some (x * 4096 + y * 256 + z * 16 + w)
  | _, _, _, _ => None
  end.

Definition is_high_surrogate (c : N) : bool := (55296 <=? c) && (c <=? 56319).
Definition is_low_surrogate (c : N) : bool := (56320 <=? c) && (c <=? 57343).
Definition join_surrogates (hi lo : N) : N :=
  65536 + (hi - 55296) * 1024 + (lo - 56320).

(** The character a backslash escape other than [\u] stands for. *)
Definition simple_escape (e : char) : option char :=
  if e =? 34 then Some 34
  else if e =? 92 then Some 92
  else if e =? 47 then Some 47
  else if e =? 98 then Some 8
  else if e =? 102 then Some 12
  else if e =? 110 then Some 10
  else if e =? 114 then Some 13
  else if e =? 116 then Some 9
  else None.

Definition cons_fst (c : char) (r : option (str * str)) : option (str * str) :=
  match r with
  | Some (x, rest) => Some (c :: x, rest)
  | None => None
  end.

(** [scanstring]: [s] starts after the opening quote; the decoded string
    and what follows the closing quote. *)
Fixpoint scanstring (s : str) : option (str * str) :=
  match s with
  | [] => None
  | c :: r =>
      if c =? 34 then Some ([], r)
      else if c =? 92 then
        match r with
        | [] => None
        | e :: r1 =>
            if e =? 117 then
              match r1 with
              | h1 :: h2 :: h3 :: h4 :: r2 =>
                  match hex4 h1 h2 h3 h4 with
                  | None => None
                  | Some u =>
                      if is_high_surrogate u then
                        match r2 with
                        | b :: v :: g1 :: g2 :: g3 :: g4 :: r3 =>
                            if (b =? 92) && (v =? 117) then
                              match hex4 g1 g2 g3 g4 with
                              | None => None
                              | Some u2 =>
                                  if is_low_surrogate u2
                                  then cons_fst (join_surrogates u u2)
                                         (scanstring r3)
                                  else cons_fst u (scanstring r2)
                              end
                            else cons_fst u (scanstring r2)
                        | _ => cons_fst u (scanstring r2)
                        end
                      else cons_fst u (scanstring r2)
                  end
              | _ => None
              end
            else
              match simple_escape e with
              | Some x => cons_fst x (scanstring r1)
              | None => None
              end
        end
      else if c <=? 31 then None
      else cons_fst c (scanstring r)
  end.

(** Leading digits of [s] and the rest. *)
Fixpoint span_digits (s : str) : str * str :=
  match s with
  | c :: r =>
      if isdigit c then let (ds, rest) := span_digits r in (c :: ds, rest)
      else ([], s)
  | [] => ([], [])
  end.

(** A number is read as an [int] or is a float literal. *)
Inductive number := NumInt (z : Z) | NumFloat.

Definition int_of_digits (neg : bool) (ds : str) : Z :=
  let n := Z.of_N (N.of_uint (digits_uint ds)) in
  if neg then Z.opp n else n.

(** [_match_number]: an optional minus, then [0] or a digit run that does
    not start with [0]; a dot with digits or an exponent with digits, when
    present, make the literal a float. *)
Definition match_number (s : str) : option (number * str) :=
  let (neg, s1) :=
    match s with
    | c :: r => if c =? 45 then (true, r) else (false, s)
    | [] => (false, s)
    end in
  match s1 with
  | [] => None
  | d :: r =>
      let int_part :=
        if (49 <=? d) && (d <=? 57) then
          let (ds, rest) := span_digits r in Some (d :: ds, rest)
        else if d =? 48 then Some ([d], r)
        else None in
      match int_part with
      | None => None
      | Some (ds, s2) =>
          let (has_frac, s3) :=
            match s2 with
            | p :: f :: r3 =>
                if (p =? 46) && isdigit f
                then (true, snd (span_digits r3))
                else (false, s2)
            | _ => (false, s2)
            end in
          let (has_exp, s4) :=
            match s3 with
            | e :: r4 =>
                if (e =? 101) || (e =? 69) then
                  let r5 :=
                    match r4 with
                    | sg :: r6 =>
                        if (sg =? 45) || (sg =? 43) then r6 else r4
                    | [] => r4
                    end in
                  match span_digits r5 with
                  | ([], _) => (false, s3)
                  | (_ :: _, rest) => (true, rest)
                  end
                else (false, s3)
            | [] => (false, s3)
            end in
          if has_frac || has_exp then Some (NumFloat, s4)
          else Some (NumInt (int_of_digits neg ds), s4)
      end
  end.

(** What [json.loads] takes from the interpreter.  [max_nesting]: how
    many arrays and objects the reader may have open at once; one more
    raises [RecursionError] (the scanner of CPython, [_json], enters a
    recursive call for each; the number follows from
    [sys.getrecursionlimit()] and from the depth of the stack at the
    call).  [int_max_str_digits]:
    [sys.get_int_max_str_digits()], 4300 unless it is set, 0 when integers
    are not limited, as in the interpreters older than the limit. *)
Record interpreter := {
  max_nesting : nat;
  int_max_str_digits : nat
}.

(** The exceptions of [json.loads] that are no [JSONDecodeError]. *)
Inductive loads_exception :=
| RecursionError
| IntDigitsError.   (* [ValueError: Exceeds the limit (... digits) for
                       integer string conversion] *)

(** The digits of an integer literal: it has no leading zero, so they are
    those of [str(abs(z))]. *)
Definition int_digits (z : Z) : nat := List.length (str_of_Z (Z.abs z)).

(** [int(literal)] raises. *)
Definition exceeds_digits (interp : interpreter) (z : Z) : bool :=
  ((0 <? int_max_str_digits interp)
   && (int_max_str_digits interp <? int_digits z))%nat.

Inductive scan (A : Type) :=
| Scanned (a : A) (rest : str)
| Invalid
| Raised (e : loads_exception)
| Exhausted.
Arguments Invalid {A}.
Arguments Raised {A}.
Arguments Exhausted {A}.

(** [scan_once], [JSONArray] and [JSONObject].  The [bool] beside a value
    tells that a float literal was read inside it (the value then holds
    [PNone] in its place and is not used).  [room] is the number of arrays
    and objects that may still be opened: the reader checks it where it
    meets the bracket that opens one, before it reads on. *)
Fixpoint scan_once (interp : interpreter) (fuel room : nat) (s : str)
  {struct fuel} : scan (pyval * bool) :=
  match fuel with
  | O => Exhausted
  | S f =>
      match s with
      | [] => Invalid
      | c :: r =>
          if c =? 34 then
            match scanstring r with
            | Some (x, rest) => Scanned (PStr x, false) rest
            | None => Invalid
            end
          else if c =? 123 then
            match room with
            | O => Raised RecursionError
            | S inner =>
                match skip_ws r with
                | c1 :: r1 =>
                    if c1 =? 125 then Scanned (PDict [], false) r1
                    else parse_members interp f inner (c1 :: r1) [] false
                | [] => Invalid
                end
            end
          else if c =? 91 then
            match room with
            | O => Raised RecursionError
            | S inner =>
                match skip_ws r with
                | c1 :: r1 =>
                    if c1 =? 93 then Scanned (PList [], false) r1
                    else parse_elems interp f inner (c1 :: r1) [] false
                | [] => Invalid
                end
            end
          else
            match strip_prefix (lit "null") s,
                  strip_prefix (lit "true") s,
                  strip_prefix (lit "false") s with
            | Some rest, _, _ => Scanned (PNone, false) rest
            | _, Some rest, _ => Scanned (PBool true, false) rest
            | _, _, Some rest => Scanned (PBool false, false) rest
            | None, None, None =>
                match strip_prefix (lit "NaN") s,
                      strip_prefix (lit "Infinity") s,
                      strip_prefix (lit "-Infinity") s with
                | Some rest, _, _ | _, Some rest, _ | _, _, Some rest =>
                    Scanned (PNone, true) rest
                | None, None, None =>
                    match match_number s with
                    | Some (NumInt z, rest) =>
                        if exceeds_digits interp z
                        then Raised IntDigitsError
                        else Scanned (PInt z, false) rest
                    | Some (NumFloat, rest) => Scanned (PNone, true) rest
                    | None => Invalid
                    end
                end
            end
      end
  end

(** The elements of an array from the head of one element on; [acc] holds
    the elements read so far, latest first. *)
with parse_elems (interp : interpreter) (fuel room : nat) (s : str)
  (acc : list pyval) (fl : bool) {struct fuel} : scan (pyval * bool) :=
  match fuel with
  | O => Exhausted
  | S f =>
      match scan_once interp f room s with
      | Scanned (v, fl1) rest =>
          match skip_ws rest with
          | c :: r =>
              if c =? 93 then Scanned (PList (rev (v :: acc)), fl || fl1) r
              else if c =? 44
              then parse_elems interp f room (skip_ws r) (v :: acc)
                     (fl || fl1)
              else Invalid
          | [] => Invalid
          end
      | Invalid => Invalid
      | Raised e => Raised e
      | Exhausted => Exhausted
      end
  end

(** The members of an object from the head of one key on; [acc] is the
    [dict] built so far. *)
with parse_members (interp : interpreter) (fuel room : nat) (s : str)
  (acc : list (str * pyval)) (fl : bool) {struct fuel}
  : scan (pyval * bool) :=
  match fuel with
  | O => Exhausted
  | S f =>
      match s with
      | [] => Invalid
      | q :: r0 =>
          if q =? 34 then
            match scanstring r0 with
            | None => Invalid
            | Some (k, r1) =>
                match skip_ws r1 with
                | [] => Invalid
                | c2 :: r2 =>
                    if c2 =? 58 then
                      match scan_once interp f room (skip_ws r2) with
                      | Scanned (v, fl1) r3 =>
                          match skip_ws r3 with
                          | c4 :: r4 =>
                              if c4 =? 125
                              then Scanned (PDict (dict_set acc k v),
                                            fl || fl1) r4
                              else if c4 =? 44
                              then parse_members interp f room (skip_ws r4)
                                     (dict_set acc k v) (fl || fl1)
                              else Invalid
                          | [] => Invalid
                          end
                      | Invalid => Invalid
                      | Raised e => Raised e
                      | Exhausted => Exhausted
                      end
                    else Invalid
                end
            end
          else Invalid
      end
  end.

(** [LoadsFloat shape]: the document is valid and holds a float literal;
    [shape] is the value read with [PNone] where its floats are.
    [LoadsRaises e]: the reader raises [e], which is no
    [JSONDecodeError], at the place where it meets the bracket or the
    integer that is too much; what comes after that place is not read. *)
Inductive loads_result :=
| Loaded (v : pyval)
| JSONDecodeError
| LoadsFloat (shape : pyval)
| LoadsRaises (e : loads_exception).

(** [json.loads(s)] *)
Definition json_loads (interp : interpreter) (s : str) : loads_result :=
  match scan_once interp (2 * List.length s + 1) (max_nesting interp)
          (skip_ws s) with
  | Scanned (v, fl) rest =>
      match skip_ws rest with
      | [] => if fl then LoadsFloat v else Loaded v
      | _ :: _ => JSONDecodeError
      end
  | Invalid => JSONDecodeError
  | Raised e => LoadsRaises e
  | Exhausted => JSONDecodeError
  end.

End Py.
Import Py.

(* ===================================================================== *)
(** * [database.py]: the store *)
(* ===================================================================== *)

Module Db.

Local Open Scope Z_scope.

(** ** Tables (lines 38-117) *)

Record analysis_row := {
  a_id : Z;
  filename : str;                (* TEXT NOT NULL *)
  vendor_code : option str;      (* TEXT *)
  analysis_result : str;         (* TEXT NOT NULL *)
  file_hash : option str;        (* TEXT *)
  status : str;                  (* TEXT DEFAULT 'Finish' *)
  created_at : Z;
  updated_at : Z
}.

Record metadata_row := {
  m_id : Z;
  m_datasheet_id : Z;            (* INTEGER NOT NULL *)
  m_key : str;                   (* TEXT NOT NULL *)
  m_value : option str           (* TEXT *)
}.

Record checkpoint_row := {
  c_id : Z;
  c_datasheet_id : Z;            (* INTEGER NOT NULL *)
  c_text : str;                  (* TEXT NOT NULL *)
  c_python_code : str;           (* TEXT NOT NULL *)
  c_created_at : Z
}.

(** The three tables in rowid order, each with the largest rowid it ever
    held ([sqlite_sequence], kept for [AUTOINCREMENT]). *)
Record store := {
  analysis : list analysis_row;
  analysis_seq : Z;
  metadata : list metadata_row;
  metadata_seq : Z;
  checkpoints : list checkpoint_row;
  checkpoint_seq : Z
}.

Definition empty_store : store :=
  {| analysis := []; analysis_seq := 0;
     metadata := []; metadata_seq := 0;
     checkpoints := []; checkpoint_seq := 0 |}.

(** The rowid [AUTOINCREMENT] gives a new row: one more than the largest
    rowid the table holds or ever held. *)
Definition next_id (seq : Z) (ids : list Z) : Z :=
  fold_right Z.max seq ids + 1.

Definition opt_str_eqb (a b : option str) : bool :=
  match a, b with
  | Some x, Some y => str_eqb x y
  | None, None => true
  | _, _ => false
  end.

(** [UNIQUE(filename, file_hash)]: a [NULL] hash differs from every hash,
    [NULL] included. *)
Definition analysis_conflict (fn : str) (h : option str) (r : analysis_row)
  : bool :=
  match h, file_hash r with
  | Some x, Some y => str_eqb (filename r) fn && str_eqb x y
  | _, _ => false
  end.

(** [UNIQUE(datasheet_id, key)] *)
Definition metadata_conflict (did : Z) (k : str) (r : metadata_row) : bool :=
  (m_datasheet_id r =? did) && str_eqb (m_key r) k.

(** What the store methods raise. *)
Inductive error :=
| ValueError       (* raised by [insert_analysis] on [sqlite3.IntegrityError] *)
| OverflowError    (* an [int] parameter that is no 64-bit integer *)
| UnicodeEncodeError.   (* a [str] parameter with a surrogate code point *)

Inductive result (A : Type) :=
| Ok (a : A)
| Raise (e : error).
Arguments Raise {A}.

(** An [int] that SQLite takes as [INTEGER]. *)
Definition in_int64 (z : Z) : bool :=
  (- 9223372036854775808 <=? z) && (z <=? 9223372036854775807).

(** [json.dumps(value) if isinstance(value, (dict, list)) else str(value)] *)
Definition value_text (v : pyval) : str :=
  match py_str v with
  | Some s => s
  | None => json_dumps v
  end.

(** ** [insert_analysis] (lines 133-181) *)

(** [INSERT INTO analysis_metadata (datasheet_id, key, value)] inside the
    open transaction; [None] is [sqlite3.IntegrityError]. *)
Definition insert_metadata_row (txn : store) (did : Z) (k : str) (text : str)
  : option store :=
  if existsb (metadata_conflict did k) (metadata txn) then None
  else
    let mid := next_id (metadata_seq txn) (map m_id (metadata txn)) in
    Some {| analysis := analysis txn; analysis_seq := analysis_seq txn;
            metadata := metadata txn ++
              [{| m_id := mid; m_datasheet_id := did;
                  m_key := k; m_value := Some text |}];
            metadata_seq := mid;
            checkpoints := checkpoints txn;
            checkpoint_seq := checkpoint_seq txn |}.

(** [for key, value in metadata.items(): cursor.execute(INSERT ...)] *)
Fixpoint insert_metadata_rows (txn : store) (did : Z)
  (items : list (str * pyval)) : option store :=
  match items with
  | [] => Some txn
  | (k, v) :: rest =>
      match insert_metadata_row txn did k (value_text v) with
      | Some txn' => insert_metadata_rows txn' did rest
      | None => None
      end
  end.

(** [INSERT INTO datasheet_analysis (filename, vendor_code,
    analysis_result, file_hash)] inside the open transaction. *)
Definition insert_analysis_row (txn : store) (now : Z) (fn text : str)
  (vc h : option str) : option (store * Z) :=
  if existsb (analysis_conflict fn h) (analysis txn) then None
  else
    let id := next_id (analysis_seq txn) (map a_id (analysis txn)) in
    Some ({| analysis := analysis txn ++
               [{| a_id := id; filename := fn; vendor_code := vc;
                   analysis_result := text; file_hash := h;
                   status := lit "Finish";
                   created_at := now; updated_at := now |}];
             analysis_seq := id;
             metadata := metadata txn; metadata_seq := metadata_seq txn;
             checkpoints := checkpoints txn;
             checkpoint_seq := checkpoint_seq txn |}, id).

(** The store after the call and what the call returns.  On
    [IntegrityError] the transaction is rolled back: the store is the one
    the call started from. *)
Definition insert_analysis (st : store) (now : Z) (fn text : str)
  (vc h : option str) (md : option (list (str * pyval)))
  : store * result Z :=
  match insert_analysis_row st now fn text vc h with
  | None => (st, Raise ValueError)
  | Some (txn, datasheet_id) =>
      let items := match md with Some d => d | None => [] end in
      match insert_metadata_rows txn datasheet_id items with
      | Some txn' => (txn', Ok datasheet_id)
      | None => (st, Raise ValueError)
      end
  end.

(** ** [update_analysis] (lines 183-235) *)

Definition update_row (now : Z) (text vc : option str) (r : analysis_row)
  : analysis_row :=
  {| a_id := a_id r;
     filename := filename r;
     vendor_code := match vc with Some c => Some c | None => vendor_code r end;
     analysis_result :=
       match text with Some t => t | None => analysis_result r end;
     file_hash := file_hash r;
     status := status r;
     created_at := created_at r;
     updated_at := now |}.

(** [INSERT OR REPLACE INTO analysis_metadata]: the row holding the key is
    deleted and a new row is appended. *)
Definition replace_metadata_row (txn : store) (did : Z) (k : str) (text : str)
  : store :=
  let kept := filter (fun r => negb (metadata_conflict did k r))
                (metadata txn) in
  let mid := next_id (metadata_seq txn) (map m_id (metadata txn)) in
  {| analysis := analysis txn; analysis_seq := analysis_seq txn;
     metadata := kept ++
       [{| m_id := mid; m_datasheet_id := did;
           m_key := k; m_value := Some text |}];
     metadata_seq := mid;
     checkpoints := checkpoints txn;
     checkpoint_seq := checkpoint_seq txn |}.

Definition replace_metadata_rows (txn : store) (did : Z)
  (items : list (str * pyval)) : store :=
  fold_left (fun t kv => replace_metadata_row t did (fst kv)
                           (value_text (snd kv))) items txn.

Definition update_analysis (st : store) (now : Z) (analysis_id : Z)
  (text vc : option str) (md : option (list (str * pyval))) : store :=
  let txn :=
    {| analysis :=
         map (fun r => if a_id r =? analysis_id
                       then update_row now text vc r else r) (analysis st);
       analysis_seq := analysis_seq st;
       metadata := metadata st; metadata_seq := metadata_seq st;
       checkpoints := checkpoints st;
       checkpoint_seq := checkpoint_seq st |} in
  replace_metadata_rows txn analysis_id
    (match md with Some d => d | None => [] end).

(** ** Queries *)

(** [get_analysis_by_id] *)
Definition get_analysis_by_id (st : store) (analysis_id : Z)
  : option analysis_row :=
  find (fun r => a_id r =? analysis_id) (analysis st).

(** [ORDER BY created_at DESC LIMIT 1] over [rows]: the largest
    [created_at]; among equal ones the row met first is kept. *)
Fixpoint latest (rows : list analysis_row) : option analysis_row :=
  match rows with
  | [] => None
  | r :: rest =>
      match latest rest with
      | Some r' => if created_at r <? created_at r' then Some r' else Some r
      | None => Some r
      end
  end.

(** [get_analysis_by_filename] (lines 253-270) *)
Definition get_analysis_by_filename (st : store) (fn : str)
  : option analysis_row :=
  latest (filter (fun r => str_eqb (filename r) fn) (analysis st)).

(** What [get_metadata] holds for a key: a value, or a float. *)
Inductive fetched :=
| Value (v : pyval)
| AFloat.

(** The body of the loop of [get_metadata] (lines 335-339):
    [json.loads(value)], the raw value on [JSONDecodeError] or [TypeError]
    (a [NULL] value); an exception of [json.loads] that is neither is not
    caught. *)
Inductive decoded :=
| Decoded (f : fetched)
| DecodeRaises (e : loads_exception).

Definition decode_value (interp : interpreter) (value : option str)
  : decoded :=
  match value with
  | None => Decoded (Value PNone)
  | Some text =>
      match json_loads interp text with
      | Loaded v => Decoded (Value v)
      | JSONDecodeError => Decoded (Value (PStr text))
      | LoadsFloat _ => Decoded AFloat
      | LoadsRaises e => DecodeRaises e
      end
  end.

(** [for row in rows: ...]: the mapping, or [None] when a value makes
    [json.loads] raise an exception that is not caught. *)
Fixpoint decode_rows (interp : interpreter) (rows : list metadata_row)
  (metadata : list (str * fetched)) : option (list (str * fetched)) :=
  match rows with
  | [] => Some metadata
  | row :: rest =>
      match decode_value interp (m_value row) with
      | Decoded f => decode_rows interp rest (dict_set metadata (m_key row) f)
      | DecodeRaises _ => None
      end
  end.

(** [get_metadata] (lines 317-341); [None]: the call raises, with
    [OverflowError] when the id is no 64-bit integer and [cursor.execute]
    cannot bind it, with the exception of [json.loads] otherwise. *)
Definition get_metadata (interp : interpreter) (st : store)
  (datasheet_id : Z) : option (list (str * fetched)) :=
  if in_int64 datasheet_id
  then decode_rows interp
         (filter (fun r => m_datasheet_id r =? datasheet_id) (metadata st))
         []
  else None.

(** ** [delete_analysis] (lines 305-315)

    [get_connection] never sets [PRAGMA foreign_keys], so the
    [ON DELETE CASCADE] clauses are not enforced: only the analysis row
    goes. *)
Definition delete_analysis (st : store) (analysis_id : Z) : store :=
  {| analysis := filter (fun r => negb (a_id r =? analysis_id)) (analysis st);
     analysis_seq := analysis_seq st;
     metadata := metadata st; metadata_seq := metadata_seq st;
     checkpoints := checkpoints st; checkpoint_seq := checkpoint_seq st |}.

(** ** [insert_checkpoint] (lines 382-413)

    [cursor.execute] binds the three parameters in order before it runs
    the statement: an [int] that is no 64-bit integer raises
    [OverflowError] and a [str] that UTF-8 does not encode raises
    [UnicodeEncodeError].  The method has no handler ([finally] closes the
    connection): the exception goes to the caller and nothing is
    written. *)
Definition insert_checkpoint (st : store) (now : Z) (datasheet_id : Z)
  (text python_code : str) : store * result Z :=
  if negb (in_int64 datasheet_id) then (st, Raise OverflowError)
  else if negb (valid_str text && valid_str python_code)
  then (st, Raise UnicodeEncodeError)
  else
    let cid := next_id (checkpoint_seq st) (map c_id (checkpoints st)) in
    ({| analysis := analysis st; analysis_seq := analysis_seq st;
        metadata := metadata st; metadata_seq := metadata_seq st;
        checkpoints := checkpoints st ++
          [{| c_id := cid; c_datasheet_id := datasheet_id;
              c_text := text; c_python_code := python_code;
              c_created_at := now |}];
        checkpoint_seq := cid |}, Ok cid).

End Db.

(* ===================================================================== *)
(** * [main.py]: the rasterizer *)
(* ===================================================================== *)

Module Raster.

Local Open Scope N_scope.

Definition b64char (n : N) : char :=
  if n <? 26 then 65 + n
  else if n <? 52 then 71 + n
  else if n <? 62 then n - 4
  else if n =? 62 then 43
  else 47.

Definition b64quad (n : N) : list char :=
  [b64char (n / 262144); b64char ((n / 4096) mod 64);
   b64char ((n / 64) mod 64); b64char (n mod 64)].

(** [base64.b64encode(data).decode('utf-8')] *)
Fixpoint b64encode (data : list Byte.byte) : str :=
  match data with
  | [] => []
  | [a] =>
      firstn 2 (b64quad (Byte.to_N a * 65536)) ++ [61; 61]
  | [a; b] =>
      firstn 3 (b64quad (Byte.to_N a * 65536 + Byte.to_N b * 256)) ++ [61]
  | a :: b :: c :: rest =>
      b64quad (Byte.to_N a * 65536 + Byte.to_N b * 256 + Byte.to_N c)
        ++ b64encode rest
  end.

Definition PNG_PREFIX : str := lit "data:image/png;base64,".

Section Rasterizer.

(** A document of [fitz] is the list of its pages; [render page dpi] is
    [page.get_pixmap(dpi=dpi).tobytes("png")], [None] when it raises. *)
Variable page : Type.
Variable render : page -> Z -> option (list Byte.byte).

(** The body of the [for] loop over the pages taken. *)
Fixpoint render_pages (pages : list page) (dpi : Z) : option (list str) :=
  match pages with
  | [] => Some []
  | p :: rest =>
      match render p dpi with
      | None => None
      | Some img_bytes =>
          match render_pages rest dpi with
          | None => None
          | Some images => Some ((PNG_PREFIX ++ b64encode img_bytes) :: images)
          end
      end
  end.

(** [pdf_to_base64_images] (lines 101-121).  [doc] is what [fitz.open]
    gives, [None] when it raises; the result is [None] when the function
    raises. *)
Definition pdf_to_base64_images (doc : option (list page))
  (max_pages dpi : Z) : option (list str) :=
  match doc with
  | None => None
  | Some pages =>
      render_pages
        (firstn (Z.to_nat (Z.min (Z.of_nat (List.length pages)) max_pages))
           pages) dpi
  end.

End Rasterizer.

End Raster.

(* ===================================================================== *)
(** * [main.py]: descriptors, scheduler and analysis pipeline *)
(* ===================================================================== *)

Module Pipeline.

Import Db.
Local Open Scope Z_scope.

(** ** Data model (lines 43-70) *)

Inductive CreatingResultFileStatus := READY | PROCESSING | FINISH.


Record DataSheetInfo := {
  datasheet_filename : str;
  folder_path : str;
  status : CreatingResultFileStatus
}.

(** [DataSheetInfo(filename, folder)] *)
Definition new_datasheet (fn folder : str) : DataSheetInfo :=
  {| datasheet_filename := fn; folder_path := folder; status := READY |}.


(** ** Python [dict] with any hashable key *)

Definition hashable (k : pyval) : bool :=
  match k with
  | PList _ | PDict _ => false
  | _ => true
  end.

(** [a == b] between hashable values ([True == 1], [False == 0]). *)
Definition key_eqb (a b : pyval) : bool :=
  match a, b with
  | PNone, PNone => true
  | PStr x, PStr y => str_eqb x y
  | PInt x, PInt y => x =? y
  | PBool x, PBool y => Bool.eqb x y
  | PBool x, PInt y | PInt y, PBool x => (if x then 1 else 0) =? y
  | _, _ => false
  end.

Fixpoint setitem_at (d : list (pyval * pyval)) (k v : pyval)
  : list (pyval * pyval) :=
  match d with
  | [] => [(k, v)]
  | (k', v') :: r =>
      if key_eqb k' k then (k', v) :: r else (k', v') :: setitem_at r k v
  end.

(** [d[k] = v]; [None] is [TypeError: unhashable type]. *)
Definition setitem (d : list (pyval * pyval)) (k v : pyval)
  : option (list (pyval * pyval)) :=
  if hashable k then Some (setitem_at d k v) else None.

(** ** Tag extraction (lines 1031-1061) *)

Definition NAME : str := lit "Name".
Definition DESCRIPTION : str := lit "Description".
Definition TAGS_RAW : str := lit "tags_raw".

(** The loop over [tags_array]; [None] is the [TypeError] of
    [metadata[tag['Name']] = ...]. *)
Fixpoint fold_tags (tags_array : list pyval) (metadata : list (pyval * pyval))
  : option (list (pyval * pyval)) :=
  match tags_array with
  | [] => Some metadata
  | tag :: rest =>
      match tag with
      | PDict d =>
          match dict_get d NAME, dict_get d DESCRIPTION with
          | Some name, Some description =>
              match setitem metadata name description with
              | Some metadata' => fold_tags rest metadata'
              | None => None
              end
          | _, _ => fold_tags rest metadata
          end
      | _ => fold_tags rest metadata
      end
  end.

(** [TagTypeError] and [TagRaises] are the exceptions the handler at line
    1057, which is for [json.JSONDecodeError], does not catch. *)
Inductive tag_result :=
| TagMetadata (metadata : list (pyval * pyval))
| TagTypeError        (* [TypeError] of the loop over [tags_array] *)
| TagRaises (e : loads_exception)   (* raised by [json.loads] *)
| TagFloat.           (* a [metadata] built from a document with floats *)

Definition tag_step (interp : interpreter) (tags_raw : str) : tag_result :=
  let tags_json := Fence.candidate tags_raw in
  match json_loads interp (replace_char SQUOTE DQUOTE tags_json) with
  | Loaded (PList tags_array) =>
      match fold_tags tags_array [] with
      | Some metadata => TagMetadata metadata
      | None => TagTypeError
      end
  | Loaded _ => TagMetadata []
  | JSONDecodeError => TagMetadata [(PStr TAGS_RAW, PStr tags_json)]
  | LoadsFloat (PList tags_array) =>
      match fold_tags tags_array [] with
      | Some _ => TagFloat
      | None => TagTypeError
      end
  | LoadsFloat _ => TagMetadata []
  | LoadsRaises e => TagRaises e
  end.

(** ** Checklist extraction (lines 1079-1101) *)

(** [ChecklistRaises]: [json.loads] raises an exception the handler at
    line 1099, which is for [json.JSONDecodeError], does not catch. *)
Inductive checklist_result :=
| Checklist (checkpoints_list : list str)
| ChecklistRaises (e : loads_exception)
| ChecklistFloat.     (* a list read from a document with floats *)

Section Checklist.

(** [repr] of a [list] or [dict], which [str(item)] is for such an item. *)
Variable container_repr : pyval -> str.

Definition item_str (item : pyval) : str :=
  match py_str item with
  | Some s => s
  | None => container_repr item
  end.

Definition checklist_step (interp : interpreter) (checkpoints_raw : str)
  : checklist_result :=
  let checkpoints_json := Fence.candidate checkpoints_raw in
  match json_loads interp (replace_char SQUOTE DQUOTE checkpoints_json) with
  | Loaded (PList checkpoints_array) =>
      Checklist (map item_str checkpoints_array)
  | Loaded _ => Checklist []
  | JSONDecodeError => Checklist []
  | LoadsFloat (PList _) => ChecklistFloat
  | LoadsFloat _ => Checklist []
  | LoadsRaises e => ChecklistRaises e
  end.

(** ** Code synthesis and checkpoint storage (lines 1116-1174) *)

(** The file [checkpoint.py] as the code finds it after the tool ran. *)
Inductive output_file :=
| Missing                 (* [os.path.exists] is false *)
| Text (python_code : str)
| Unreadable.             (* [open] or [read] raises *)

(** What one invocation of the tool does. *)
Inductive synth_event :=
| RunRaises               (* [subprocess.run] raises, e.g. [TimeoutExpired] *)
| RunExits (returncode : Z) (out : output_file).

(** Lines 1121-1155: the generated code, or [None] when an exception is
    raised before the checkpoint is stored. *)
Definition synthesize (ev : synth_event) : option str :=
  match ev with
  | RunRaises => None
  | RunExits returncode out =>
      if negb (returncode =? 0) then None
      else match out with
           | Text python_code => Some python_code
           | Missing | Unreadable => None
           end
  end.

(** One iteration of the loop over [checkpoints_list]: the checkpoint is
    stored with the code; when that, or the synthesis before it, raises,
    it is stored with the empty string, and when that raises too the item
    is passed over ([except: pass]). *)
Definition store_checkpoint (st : store) (now : Z) (datasheet_id : Z)
  (checkpoint_text : str) (ev : synth_event) : store :=
  let on_error (s : store) : store :=
    match insert_checkpoint s now datasheet_id checkpoint_text [] with
    | (s', Ok _) => s'
    | (s', Raise _) => s'
    end in
  match synthesize ev with
  | Some python_code =>
      match insert_checkpoint st now datasheet_id checkpoint_text
              python_code with
      | (st', Ok _) => st'
      | (st', Raise _) => on_error st'
      end
  | None => on_error st
  end.

(** What surrounds one run: the answers of the completion service, the
    rasterizer, the file hash, the tool, the clock, and the interpreter
    as [json.loads] finds it in the worker. *)
Record run_env := {
  interp : interpreter;
  images : option (list str);         (* [None]: rasterization raises *)
  vendor_response : option str;       (* [None]: the call raises *)
  analysis_response : option str;
  tag_response : option str;
  checkpoint_response : option str;
  file_hash_of : option str;          (* [None]: [calculate_file_hash] raises *)
  insert_time : Z;
  synth : nat -> synth_event;         (* by position in the checklist *)
  checkpoint_time : nat -> Z
}.

Fixpoint store_checkpoints (env : run_env) (st : store) (datasheet_id : Z)
  (idx : nat) (checkpoints_list : list str) : store :=
  match checkpoints_list with
  | [] => st
  | checkpoint_text :: rest =>
      store_checkpoints env
        (store_checkpoint st (checkpoint_time env idx) datasheet_id
           checkpoint_text (synth env idx))
        datasheet_id (S idx) rest
  end.

(** ** Saving the record (lines 1103-1181) *)

(** The text a [dict] key is stored as in the [TEXT NOT NULL] column
    [key]; [None] when binding it raises or violates [NOT NULL]. *)
Definition sqlite_key (k : pyval) : option str :=
  match k with
  | PStr s => Some s
  | PInt z => if in_int64 z then Some (str_of_Z z) else None
  | PBool b => Some (if b then lit "1" else lit "0")
  | PNone | PList _ | PDict _ => None
  end.

Fixpoint sqlite_keys (metadata : list (pyval * pyval))
  : option (list (str * pyval)) :=
  match metadata with
  | [] => Some []
  | (k, v) :: rest =>
      match sqlite_key k, sqlite_keys rest with
      | Some s, Some items => Some ((s, v) :: items)
      | _, _ => None
      end
  end.

(** The store after a run: known, or left open because floats were read. *)
Inductive saved :=
| StoreIs (st : store)
| StoreOpen.

(** The save is reached with [tags] and [checklist] that did not raise. *)
Definition save_record (env : run_env) (st : store) (fn : str)
  (vendor_code analysis_result : str) (tags : tag_result)
  (checklist : checklist_result) : saved :=
  match file_hash_of env with
  | None => StoreIs st
  | Some file_hash =>
      match tags with
      | TagTypeError | TagRaises _ => StoreIs st
      | TagFloat => StoreOpen
      | TagMetadata metadata =>
          match sqlite_keys metadata with
          | None => StoreIs st
          | Some items =>
              match insert_analysis st (insert_time env) fn analysis_result
                      (Some vendor_code) (Some file_hash) (Some items) with
              | (st', Raise _) => StoreIs st'
              | (st', Ok datasheet_id) =>
                  match checklist with
                  | ChecklistFloat => StoreOpen
                  | ChecklistRaises _ => StoreIs st
                  | Checklist checkpoints_list =>
                      StoreIs (store_checkpoints env st' datasheet_id 0
                                 checkpoints_list)
                  end
              end
          end
      end
  end.

(** ** [analyze_datasheet] (lines 957-1197) *)

Inductive stage := Vendor | Analysis | Tags | Checkpoints.

Record run_result := {
  calls : list stage;                          (* completions requested *)
  writes : list CreatingResultFileStatus;      (* values given to [status] *)
  after : saved
}.

(** The outer [except Exception] handler. *)
Definition failed (calls : list stage) (st : store) : run_result :=
  {| calls := calls; writes := [PROCESSING; READY]; after := StoreIs st |}.

Definition analyze_datasheet (env : run_env) (st : store)
  (datasheet : DataSheetInfo) : run_result :=
  match images env with
  | None => failed [] st
  | Some _ =>
  match vendor_response env with
  | None => failed [Vendor] st
  | Some vendor_content =>
  let vendor_code := strip vendor_content in
  match analysis_response env with
  | None => failed [Vendor; Analysis] st
  | Some analysis_result =>
  match tag_response env with
  | None => failed [Vendor; Analysis; Tags] st
  | Some tags_raw =>
  match tag_step (interp env) tags_raw with
  | TagTypeError | TagRaises _ => failed [Vendor; Analysis; Tags] st
  | tags =>
  match checkpoint_response env with
  | None => failed [Vendor; Analysis; Tags; Checkpoints] st
  | Some checkpoints_raw =>
  match checklist_step (interp env) checkpoints_raw with
  | ChecklistRaises _ => failed [Vendor; Analysis; Tags; Checkpoints] st
  | checklist =>
      {| calls := [Vendor; Analysis; Tags; Checkpoints];
         writes := [PROCESSING; FINISH];
         after := save_record env st (datasheet_filename datasheet)
                    vendor_code analysis_result tags checklist |}
  end end end end end end end.

End Checklist.


(** ** Scheduler and manual reset *)







End Pipeline.

(* ===================================================================== *)
(** * Vocabulary of the properties *)
(* ===================================================================== *)

Module Props.

Import Db Pipeline.
Local Open Scope Z_scope.

(** Rows of [filename] whose hash is [h]. *)
Definition rows_of (fn : str) (h : option str) (st : store)
  : list analysis_row :=
  filter (fun r => str_eqb (filename r) fn && opt_str_eqb (file_hash r) h)
    (analysis st).

(** At most one record for a filename and a hash that is not [NULL]. *)
Definition unique_hashes (st : store) : Prop :=
  forall fn h, (List.length (rows_of fn (Some h) st) <= 1)%nat.


(** *** Values that [json.dumps] writes and [json.loads] reads back *)

Fixpoint distinct (keys : list str) : bool :=
  match keys with
  | [] => true
  | k :: rest => negb (existsb (str_eqb k) rest) && distinct rest
  end.

(** Strings of scalar values throughout, and no key twice in a [dict]. *)
Fixpoint wf_val (v : pyval) : bool :=
  match v with
  | PNone | PBool _ | PInt _ => true
  | PStr s => valid_str s
  | PList l => forallb wf_val l
  | PDict d =>
      forallb (fun kv : str * pyval =>
                 let (k, x) := kv in valid_str k && wf_val x) d
      && distinct (map fst d)
  end.

(** A value [json.loads] builds with [room] arrays and objects left to
    open: none of its integers has too many digits and it is nested no
    deeper than [room]. *)
Fixpoint within (interp : interpreter) (room : nat) (v : pyval) {struct v}
  : bool :=
  match v with
  | PNone | PBool _ | PStr _ => true
  | PInt z => negb (exceeds_digits interp z)
  | PList l =>
      match room with
      | O => false
      | S inner => forallb (within interp inner) l
      end
  | PDict d =>
      match room with
      | O => false
      | S inner =>
          forallb (fun kv : str * pyval => within interp inner (snd kv)) d
      end
  end.

(** A value the interpreter reads back whole. *)
Definition readable (interp : interpreter) (v : pyval) : bool :=
  within interp (max_nesting interp) v.

(** The calls of the reader a value takes. *)
Fixpoint nodes (v : pyval) : nat :=
  match v with
  | PNone | PBool _ | PInt _ | PStr _ => 1
  | PList l => S (fold_right (fun x n => S (nodes x + n)) O l)
  | PDict d =>
      S (fold_right (fun (kv : str * pyval) n =>
                       let (_, x) := kv in S (nodes x + n)) O d)
  end.

(** What may follow a value in a document: nothing, a comma or a closing
    bracket. *)
Definition delimited (rest : str) : bool :=
  match rest with
  | [] => true
  | c :: _ => ((c =? 44) || (c =? 93) || (c =? 125))%N
  end.

(** The text written for one member of a [dict]. *)
Definition member_text (kv : str * pyval) : str :=
  let (k, x) := kv in (encode_str k ++ 58 :: 32 :: json_dumps x)%N.

(** The calls of the reader the elements of a list, and the members of a
    dict, take. *)
Definition elems_cost (l : list pyval) : nat :=
  fold_right (fun x n => S (nodes x + n)) O l.

Definition members_cost (d : list (str * pyval)) : nat :=
  fold_right (fun (kv : str * pyval) n => let (_, x) := kv in S (nodes x + n))
    O d.

(** What is written for a value starts with a character that is neither
    white space nor a closing bracket. *)
Definition opens (s : str) : Prop :=
  exists c t, s = c :: t /\ is_json_ws c = false
              /\ (c =? 93)%N = false /\ (c =? 125)%N = false.

(** *** The fenced block in the words of the specification *)

(** The text before the first fence of [s] and the text after it. *)
Fixpoint split_fence (s : str) : option (str * str) :=
  match strip_prefix Fence.FENCE s with
  | Some r => Some ([], r)
  | None =>
      match s with
      | [] => None
      | c :: t =>
          match split_fence t with
          | Some (b, r) => Some (c :: b, r)
          | None => None
          end
      end
  end.

(** The text after the tag [json], or [r] when it does not start with the
    tag. *)
Definition after_tag (r : str) : str :=
  match strip_prefix Fence.JSON_TAG r with Some a => a | None => r end.

(** The body of the first fenced block: what lies between the first fence,
    with the tag [json] when it follows at once, and the next fence. *)
Definition fenced_block (raw : str) : option str :=
  match split_fence raw with
  | None => None
  | Some (_, r) =>
      match split_fence (after_tag r) with
      | Some (body, _) => Some body
      | None => None
      end
  end.

(** The first fenced block trimmed, or the whole answer trimmed. *)
Definition candidate_spec (raw : str) : str :=
  match fenced_block raw with
  | Some body => strip body
  | None => strip raw
  end.

(** *** The mapping the tag step builds *)

(** The [Name] and [Description] of an entry that is an object with
    both. *)
Definition tag_entry (tag : pyval) : option (pyval * pyval) :=
  match tag with
  | PDict d =>
      match dict_get d NAME, dict_get d DESCRIPTION with
      | Some name, Some description => Some (name, description)
      | _, _ => None
      end
  | _ => None
  end.

(** The entries of an array that are such objects, in order. *)
Definition tag_entries (tags_array : list pyval) : list (pyval * pyval) :=
  flat_map (fun tag => match tag_entry tag with
                       | Some e => [e]
                       | None => []
                       end) tags_array.

(** [d.get(k)] for a [dict] with any hashable key. *)
Fixpoint getitem (d : list (pyval * pyval)) (k : pyval) : option pyval :=
  match d with
  | [] => None
  | (k', v) :: r => if key_eqb k' k then Some v else getitem r k
  end.

(** What both extraction steps parse. *)
Definition payload (interp : interpreter) (raw : str) : loads_result :=
  json_loads interp (replace_char SQUOTE DQUOTE (Fence.candidate raw)).

(** [env] with another answer to the checklist request. *)
Definition with_checkpoints (env : run_env) (checkpoints_raw : str)
  : run_env :=
  {| interp := interp env;
     images := images env;
     vendor_response := vendor_response env;
     analysis_response := analysis_response env;
     tag_response := tag_response env;
     checkpoint_response := Some checkpoints_raw;
     file_hash_of := file_hash_of env;
     insert_time := insert_time env;
     synth := synth env;
     checkpoint_time := checkpoint_time env |}.


(** What the loop of [get_metadata] makes of the value held for a key of
    a record: what it puts in the mapping, or the exception it lets
    through. *)
Definition fetch (interp : interpreter) (st : store) (did : Z) (k : str)
  : option decoded :=
  dict_get
    (fold_left (fun d r => dict_set d (m_key r)
                             (decode_value interp (m_value r)))
       (filter (fun r => m_datasheet_id r =? did) (metadata st)) [])
    k.

(** An entry of the mapping [get_metadata] returns, as its loop made
    it. *)
Definition lift (kv : str * fetched) : str * decoded :=
  (fst kv, Decoded (snd kv)).

(** A value of the record makes [get_metadata] raise. *)
Definition decode_raises (interp : interpreter) (st : store) (did : Z)
  : Prop :=
  exists r e, In r (metadata st) /\ m_datasheet_id r = did
              /\ decode_value interp (m_value r) = DecodeRaises e.

(** A scalar string stored as metadata reads back as the same string. *)
Definition scalar_reads_back : Prop :=
  forall interp st now fn text vc h items st' id k s,
    insert_analysis st now fn text vc h (Some items) = (st', Ok id) ->
    In (k, PStr s) items ->
    exists d, get_metadata interp st' id = Some d
              /\ dict_get d k = Some (Value (PStr s)).

(** Reading by filename after a successful insert gives the text that was
    inserted. *)
Definition insert_then_get_returns_text : Prop :=
  forall st now fn text vc h md st' id,
    insert_analysis st now fn text vc h md = (st', Ok id) ->
    exists r, get_analysis_by_filename st' fn = Some r
              /\ analysis_result r = text.

(** The code stored with a checklist item: what the tool wrote when the
    store takes it, and else the empty string. *)
Definition stored_code (ev : synth_event) : str :=
  match synthesize ev with
  | Some python_code => if valid_str python_code then python_code else []
  | None => []
  end.

(** The number of items before position [i] that the store takes: the
    place, among the rows of a run, of the row of item [i]. *)
Definition rank (texts : list str) (i : nat) : nat :=
  List.length (filter valid_str (firstn i texts)).

(** The tool exits with a code other than zero, leaves no output file, or
    does not return (timeout). *)
Definition synthesis_fails (ev : synth_event) : Prop :=
  match ev with
  | RunRaises => True
  | RunExits returncode out => returncode <> 0 \/ out = Missing
  end.

(** Every item whose synthesis fails is stored, with the empty string as
    code. *)
Definition failed_items_persisted : Prop :=
  forall env st did idx texts i text,
    in_int64 did = true ->
    nth_error texts i = Some text ->
    synthesis_fails (synth env (idx + i)) ->
    exists row,
      In row (checkpoints (store_checkpoints env st did idx texts))
      /\ c_text row = text /\ c_python_code row = [].

(** [env] with other answers of the tool. *)
Definition with_synth (env : run_env) (f : nat -> synth_event) : run_env :=
  {| interp := interp env;
     images := images env;
     vendor_response := vendor_response env;
     analysis_response := analysis_response env;
     tag_response := tag_response env;
     checkpoint_response := checkpoint_response env;
     file_hash_of := file_hash_of env;
     insert_time := insert_time env;
     synth := f;
     checkpoint_time := checkpoint_time env |}.

(** [env] with another answer to the tag request. *)
Definition with_tags (env : run_env) (tags_raw : str) : run_env :=
  {| interp := interp env;
     images := images env;
     vendor_response := vendor_response env;
     analysis_response := analysis_response env;
     tag_response := Some tags_raw;
     checkpoint_response := checkpoint_response env;
     file_hash_of := file_hash_of env;
     insert_time := insert_time env;
     synth := synth env;
     checkpoint_time := checkpoint_time env |}.

(** An exception reaches the outer handler of [analyze_datasheet]:
    rasterization or one of the four completions raises, [json.loads]
    raises on the tag answer or on the checklist answer an exception that
    is no [JSONDecodeError], or the tag loop raises. *)
Definition run_raises (env : run_env) : Prop :=
  images env = None \/ vendor_response env = None
  \/ analysis_response env = None \/ tag_response env = None
  \/ (exists raw, tag_response env = Some raw
        /\ ((exists e, payload (interp env) raw = LoadsRaises e)
            \/ tag_step (interp env) raw = TagTypeError))
  \/ checkpoint_response env = None
  \/ (exists raw e, checkpoint_response env = Some raw
        /\ payload (interp env) raw = LoadsRaises e).



(** The characters of the base64 alphabet, padding included. *)
Definition is_b64char (c : char) : bool :=
  ((65 <=? c) && (c <=? 90))%N || ((97 <=? c) && (c <=? 122))%N
  || ((48 <=? c) && (c <=? 57))%N || (c =? 43)%N || (c =? 47)%N
  || (c =? 61)%N.

(** ** Stores and inputs the properties are tried on *)

(** An interpreter with the limits CPython starts with: recursion limit
    1000, all of it taken as room, and 4300 digits. *)
Definition cpython : interpreter :=
  {| max_nesting := 1000; int_max_str_digits := 4300 |}.

Definition a_pdf : str := lit "a.pdf".

(** The empty store after [insert_analysis("a.pdf", "first", None, "abc")]
    at time 100. *)
Definition store_one : store :=
  fst (insert_analysis empty_store 100 a_pdf (lit "first") None
         (Some (lit "abc")) None).


(** A run in which every service answers; the tool fails on the second of
    three checklist items. *)
Definition env_ok : run_env :=
  {| interp := cpython;
     images := Some [lit "data:image/png;base64,AAAA"];
     vendor_response := Some (lit " LM317 ");
     analysis_response := Some (lit "report");
     tag_response := Some (lit "[{'Name': 'VIN', 'Description': 'input'}]");
     checkpoint_response := Some (lit "['check VIN', 'check VOUT', 'check ADJ']");
     file_hash_of := Some (lit "abc");
     insert_time := 100;
     synth := fun i => match i with
                       | 1%nat => RunExits 1 Missing
                       | _ => RunExits 0 (Text (lit "print(1)"))
                       end;
     checkpoint_time := fun _ => 101 |}.

(** A checklist answer of 2000 opening brackets, and one that is a
    bracket and an integer of 4301 digits. *)
Definition deep_answer : str := repeat 91%N 2000.
Definition long_integer_answer : str := 91%N :: repeat 49%N 4301.

(** A tag answer whose entry has a list as [Name]. *)
Definition tags_unhashable : str :=
  lit "```json
[{'Name': ['VIN'], 'Description': 'input pin'}]
```".

Definition finished_pdf : DataSheetInfo :=
  {| datasheet_filename := a_pdf; folder_path := lit "C:/datasheets";
     status := FINISH |}.

(** A document of three pages, a page being its PNG bytes; the second
    function fails on empty pages. *)
Definition three_pages : list (list Byte.byte) :=
  [[Byte.x89; Byte.x50]; [Byte.x4e]; [Byte.x47; Byte.x0d; Byte.x0a]].

Definition render_bytes (p : list Byte.byte) (dpi : Z)
  : option (list Byte.byte) :=
  match p with [] => None | _ => Some p end.

(** A nested metadata value. *)
Definition pins : pyval :=
  PDict [(lit "VIN", PList [PInt 3; PInt 40]);
         (lit "modes", PList [PStr (lit "buck"); PNone; PBool true])].

(** Two inserts for one filename within the same second. *)
Definition store_old : store :=
  fst (insert_analysis empty_store 100 a_pdf (lit "old") None None None).

End Props.

(* ===================================================================== *)
(** * [database.py]: listings, statistics and checkpoints *)
(* ===================================================================== *)

Module Queries.

Import Db.
Local Open Scope Z_scope.

(** ** [ORDER BY]

    The rows in the order asked for; rows the order does not tell apart
    stay in rowid order.  SQL leaves their order open, and no property
    below depends on it. *)
Section OrderBy.

Variable A : Type.
Variable before : A -> A -> bool.

Fixpoint insert_row (x : A) (l : list A) : list A :=
  match l with
  | [] => [x]
  | y :: r => if before x y then x :: l else y :: insert_row x r
  end.

Fixpoint order_by (l : list A) : list A :=
  match l with
  | [] => []
  | x :: r => insert_row x (order_by r)
  end.

End OrderBy.

(** [ORDER BY created_at DESC] *)
Definition newest_first (a b : analysis_row) : bool :=
  created_at b <=? created_at a.

(** [LIMIT ? OFFSET ?]: a negative limit is no limit, a negative offset is
    no offset. *)
Definition limit_offset (A : Type) (limit offset : Z) (l : list A) : list A :=
  let rest := skipn (Z.to_nat offset) l in
  if limit <? 0 then rest else firstn (Z.to_nat limit) rest.

(** ** [get_all_analysis] (lines 289-303); [None] is the [OverflowError] of
    a parameter that is no 64-bit integer. *)
Definition get_all_analysis (st : store) (limit offset : Z)
  : option (list analysis_row) :=
  if in_int64 limit && in_int64 offset
  then Some (limit_offset limit offset (order_by newest_first (analysis st)))
  else None.

(** ** [search_by_vendor] (lines 272-286) *)

Definition PERCENT : char := 37%N.
Definition UNDERSCORE : char := 95%N.

(** The text SQLite's [LIKE] sees: up to the first NUL. *)
Fixpoint c_str (s : str) : str :=
  match s with
  | [] => []
  | c :: r => if (c =? 0)%N then [] else c :: c_str r
  end.

Definition tolower (c : char) : char :=
  if ((65 <=? c) && (c <=? 90))%N then (c + 32)%N else c.

(** A character of the pattern that is no wildcard against a character of
    the text: equal, or equal ASCII letters up to case. *)
Definition like_char (p c : char) : bool :=
  ((p =? c) || ((p <? 128) && (c <? 128) && (tolower p =? tolower c)))%N.

(** [text LIKE pattern]: [%] stands for any run of characters, [_] for any
    one character. *)
Fixpoint like (pattern : str) : str -> bool :=
  match pattern with
  | [] => fun text => match text with [] => true | _ :: _ => false end
  | p :: rest =>
      if (p =? PERCENT)%N then
        fix any (text : str) : bool :=
          like rest text
          || match text with
             | [] => false
             | _ :: text' => any text'
             end
      else
        fun text =>
          match text with
          | [] => false
          | c :: text' =>
              ((p =? UNDERSCORE)%N || like_char p c) && like rest text'
          end
  end.

Definition utf8_length (c : char) : Z :=
  if (c <? 128)%N then 1
  else if (c <? 2048)%N then 2
  else if (c <? 65536)%N then 3
  else 4.

Definition utf8_bytes (s : str) : Z :=
  fold_right (fun c n => utf8_length c + n) 0 s.

(** The longest [LIKE] pattern SQLite takes, in bytes. *)
Definition MAX_LIKE_PATTERN_LENGTH : Z := 50000.

(** [f'%{vendor_code}%'] *)
Definition vendor_pattern (vendor_code : str) : str :=
  PERCENT :: vendor_code ++ [PERCENT].

Definition vendor_matches (vendor_code : str) (r : analysis_row) : bool :=
  match Db.vendor_code r with
  | Some v => like (c_str (vendor_pattern vendor_code)) (c_str v)
  | None => false
  end.

(** [None]: the pattern is longer than SQLite takes, which is left out. *)
Definition search_by_vendor (st : store) (vendor_code : str)
  : option (list analysis_row) :=
  if MAX_LIKE_PATTERN_LENGTH <? utf8_bytes (vendor_pattern vendor_code)
  then None
  else Some (order_by newest_first
               (filter (vendor_matches vendor_code) (analysis st))).

(** ** [get_statistics] (lines 343-376) *)

Record statistics := {
  total_analysis : Z;
  vendor_stats : list (str * Z);
  latest_analysis : option Z
}.

(** One more row for vendor [v]. *)
Fixpoint count_row (v : str) (groups : list (str * Z)) : list (str * Z) :=
  match groups with
  | [] => [(v, 1)]
  | (w, n) :: g => if str_eqb w v then (w, n + 1) :: g
                   else (w, n) :: count_row v g
  end.

(** [SELECT vendor_code, COUNT( * ) ... WHERE vendor_code IS NOT NULL
    GROUP BY vendor_code] *)
Definition vendor_groups (rows : list analysis_row) : list (str * Z) :=
  fold_left (fun groups r =>
               match Db.vendor_code r with
               | Some v => count_row v groups
               | None => groups
               end) rows [].

(** [ORDER BY count DESC] *)
Definition most_first (a b : str * Z) : bool := snd b <=? snd a.

(** [SELECT MAX(created_at)]: [NULL] for an empty table. *)
Definition max_created_at (rows : list analysis_row) : option Z :=
  match rows with
  | [] => None
  | r :: rest => Some (fold_left Z.max (map created_at rest) (created_at r))
  end.

Definition get_statistics (st : store) : statistics :=
  {| total_analysis := Z.of_nat (List.length (analysis st));
     vendor_stats :=
       firstn 10 (order_by most_first (vendor_groups (analysis st)));
     latest_analysis := max_created_at (analysis st) |}.

(** ** Checkpoints (lines 415-537) *)

(** [ORDER BY created_at ASC] *)
Definition oldest_first (a b : checkpoint_row) : bool :=
  c_created_at a <=? c_created_at b.

Definition get_checkpoints_by_datasheet (st : store) (datasheet_id : Z)
  : list checkpoint_row :=
  order_by oldest_first
    (filter (fun c => c_datasheet_id c =? datasheet_id) (checkpoints st)).

Definition get_checkpoint_by_id (st : store) (checkpoint_id : Z)
  : option checkpoint_row :=
  find (fun c => c_id c =? checkpoint_id) (checkpoints st).

Definition update_checkpoint_row (text python_code : option str)
  (c : checkpoint_row) : checkpoint_row :=
  {| c_id := c_id c;
     c_datasheet_id := c_datasheet_id c;
     c_text := match text with Some t => t | None => c_text c end;
     c_python_code :=
       match python_code with Some p => p | None => c_python_code c end;
     c_created_at := c_created_at c |}.

Definition with_checkpoints_table (st : store) (rows : list checkpoint_row)
  : store :=
  {| analysis := analysis st; analysis_seq := analysis_seq st;
     metadata := metadata st; metadata_seq := metadata_seq st;
     checkpoints := rows; checkpoint_seq := checkpoint_seq st |}.

(** [update_checkpoint]: nothing is executed when no field is given. *)
Definition update_checkpoint (st : store) (checkpoint_id : Z)
  (text python_code : option str) : store :=
  match text, python_code with
  | None, None => st
  | _, _ =>
      with_checkpoints_table st
        (map (fun c => if c_id c =? checkpoint_id
                       then update_checkpoint_row text python_code c
                       else c) (checkpoints st))
  end.

Definition delete_checkpoint (st : store) (checkpoint_id : Z) : store :=
  with_checkpoints_table st
    (filter (fun c => negb (c_id c =? checkpoint_id)) (checkpoints st)).

Definition delete_checkpoints_by_datasheet (st : store) (datasheet_id : Z)
  : store :=
  with_checkpoints_table st
    (filter (fun c => negb (c_datasheet_id c =? datasheet_id))
       (checkpoints st)).

End Queries.

(** ** What the tables keep *)

Module Invariant.

Import Db Props Queries.
Local Open Scope Z_scope.

(** Rowids grow along the table and none is above the counter kept for
    [AUTOINCREMENT]. *)
Fixpoint increasing (ids : list Z) : Prop :=
  match ids with
  | [] => True
  | i :: rest => Forall (Z.lt i) rest /\ increasing rest
  end.

Definition rowids_ok (seq : Z) (ids : list Z) : Prop :=
  increasing ids /\ Forall (fun i => i <= seq) ids.

(** [UNIQUE(datasheet_id, key)] *)
Definition unique_keys (st : store) : Prop :=
  forall did k,
    (List.length (filter (metadata_conflict did k) (metadata st)) <= 1)%nat.

Definition constraints_hold (st : store) : Prop :=
  rowids_ok (analysis_seq st) (map a_id (analysis st))
  /\ rowids_ok (metadata_seq st) (map m_id (metadata st))
  /\ rowids_ok (checkpoint_seq st) (map c_id (checkpoints st))
  /\ unique_hashes st
  /\ unique_keys st.

(** The counters of a store are not above those of a later one. *)
Definition counters_le (st st' : store) : Prop :=
  analysis_seq st <= analysis_seq st'
  /\ metadata_seq st <= metadata_seq st'
  /\ checkpoint_seq st <= checkpoint_seq st'.

(** One call of a method that writes. *)
Inductive call : store -> store -> Prop :=
| call_insert_analysis st now fn text vc h md :
    call st (fst (insert_analysis st now fn text vc h md))
| call_update_analysis st now id text vc md :
    call st (update_analysis st now id text vc md)
| call_delete_analysis st id :
    call st (delete_analysis st id)
| call_insert_checkpoint st now did text code :
    call st (fst (insert_checkpoint st now did text code))
| call_update_checkpoint st cid text code :
    call st (update_checkpoint st cid text code)
| call_delete_checkpoint st cid :
    call st (delete_checkpoint st cid)
| call_delete_checkpoints_by_datasheet st did :
    call st (delete_checkpoints_by_datasheet st did).

(** Any number of calls. *)
Inductive calls_from (st : store) : store -> Prop :=
| calls_none : calls_from st st
| calls_more st' st'' :
    calls_from st st' -> call st' st'' -> calls_from st st''.

End Invariant.

(** ** Vocabulary of the listings *)

Module QueryVocabulary.

Import Db Queries.
Local Open Scope Z_scope.

(** A query without wildcard and without NUL. *)
Definition plain (q : str) : bool :=
  forallb (fun c => negb (c =? 0)%N && negb (c =? PERCENT)%N
                    && negb (c =? UNDERSCORE)%N) q.



(** The records of a vendor. *)
Definition vendor_count (v : str) (rows : list analysis_row) : Z :=
  Z.of_nat (List.length
              (filter (fun r => opt_str_eqb (Db.vendor_code r) (Some v))
                 rows)).

(** The rows counted for [v] in a list of groups, and for all vendors. *)
Fixpoint counted (v : str) (groups : list (str * Z)) : Z :=
  match groups with
  | [] => 0
  | (w, n) :: g => (if str_eqb w v then n else 0) + counted v g
  end.

Definition counted_all (groups : list (str * Z)) : Z :=
  fold_right (fun e n => snd e + n) 0 groups.

(** Three records: two of one vendor in either case of the letters, one
    without vendor code. *)
Definition store_vendors : store :=
  fst (insert_analysis
         (fst (insert_analysis
                 (fst (insert_analysis empty_store 100 (lit "a.pdf")
                         (lit "first") (Some (lit "LM317")) None None))
                 101 (lit "b.pdf") (lit "second") (Some (lit "lm317t")) None
                 None))
         102 (lit "c.pdf") (lit "third") None None None).

End QueryVocabulary.

(** ** Vocabulary of the runs *)

Module RunVocabulary.

Import Db Pipeline Props.
Local Open Scope Z_scope.

(** [env] with the checkpoint of position [i] stored at time [200 + i]. *)
Definition with_times (env : run_env) : run_env :=
  {| interp := interp env;
     images := images env;
     vendor_response := vendor_response env;
     analysis_response := analysis_response env;
     tag_response := tag_response env;
     checkpoint_response := checkpoint_response env;
     file_hash_of := file_hash_of env;
     insert_time := insert_time env;
     synth := synth env;
     checkpoint_time := fun i => 200 + Z.of_nat i |}.

(** The store the run of [env_ok] on the empty store leaves. *)
Definition store_after_run : store :=
  match after (analyze_datasheet (fun _ => []) env_ok empty_store
                 finished_pdf) with
  | StoreIs st => st
  | StoreOpen => empty_store
  end.

End RunVocabulary.

(* ===================================================================== *)
(** * [main.py]: the file list and its table *)
(* ===================================================================== *)

Module Files.

Import Db Pipeline.
Local Open Scope N_scope.

Definition DOT : char := 46.
Definition LOW_LINE : char := 95.

(** [DataSheetInfo.result_filename] (lines 58-61) *)
Definition result_filename (d : DataSheetInfo) : str :=
  replace_char DOT LOW_LINE (datasheet_filename d) ++ lit ".mounterlib".

(** [needle in s] *)
Fixpoint contains (needle s : str) : bool :=
  startswith needle s
  || match s with
     | [] => false
     | _ :: r => contains needle r
     end.

(** [s.rfind(c)] for the characters [f] holds of: the last position, from
    position [i] on. *)
Fixpoint rfind_from (f : char -> bool) (s : str) (i : nat) : option nat :=
  match s with
  | [] => None
  | c :: r =>
      match rfind_from f r (S i) with
      | Some j => Some j
      | None => if f c then Some i else None
      end
  end.

Definition rfind (f : char -> bool) (s : str) : option nat :=
  rfind_from f s 0.

Definition ascii_lower (c : char) : char :=
  if (65 <=? c) && (c <=? 90) then c + 32 else c.

(** The extensions of a datasheet (lines 665 and 876). *)
Definition EXTENSIONS : list str :=
  [lit ".pdf"; lit ".png"; lit ".jpg"; lit ".jpeg"; lit ".bmp"; lit ".gif";
   lit ".tiff"].

Section Platform.

(** The separators of paths: [/], and on Windows the backslash too. *)
Variable is_sep : char -> bool.

(** [os.path.basename] *)
Variable basename : str -> str.

(** [str.lower] of a string that holds a character outside ASCII. *)
Variable unicode_lower : str -> str.

(** [os.path.splitext] ([genericpath._splitext]): the extension starts at
    the last dot, when that dot comes after the last separator and after a
    character of the name that is no dot. *)
Definition splitext (p : str) : str * str :=
  let start := match rfind is_sep p with
               | Some sepIndex => S sepIndex
               | None => O
               end in
  match rfind (N.eqb DOT) p with
  | Some dotIndex =>
      if (start <=? dotIndex)%nat
         && existsb (fun c => negb (c =? DOT))
              (firstn (dotIndex - start) (skipn start p))
      then (firstn dotIndex p, skipn dotIndex p)
      else (p, [])
  | None => (p, [])
  end.

(** [s.lower()] *)
Definition lower (s : str) : str :=
  if forallb (fun c => c <? 128) s then map ascii_lower s
  else unicode_lower s.

(** [os.path.splitext(filename)[1].lower() in ['.pdf', ...]] *)
Definition is_datasheet (filename : str) : bool :=
  existsb (str_eqb (lower (snd (splitext filename)))) EXTENSIONS.


(** ** [on_file_changed] (lines 865-907) *)

(** The loop of the [renamed] branch: the first descriptor of the old
    name takes the new one. *)
Fixpoint rename_first (old_filename new_filename : str)
  (datasheets : list DataSheetInfo) : list DataSheetInfo :=
  match datasheets with
  | [] => []
  | d :: rest =>
      if str_eqb (datasheet_filename d) old_filename
      then {| datasheet_filename := new_filename;
              folder_path := folder_path d;
              Pipeline.status := Pipeline.status d |} :: rest
      else d :: rename_first old_filename new_filename rest
  end.

Definition on_file_changed (datasheets : list DataSheetInfo) (folder : str)
  (event_type src_path : str) (dest_path : option str)
  : list DataSheetInfo :=
  let is_results_folder := contains (lit "results") src_path in
  if str_eqb event_type (lit "created") then
    if negb is_results_folder then
      let filename := basename src_path in
      if is_datasheet filename
      then datasheets ++ [new_datasheet filename folder]
      else datasheets
    else datasheets
  else if str_eqb event_type (lit "deleted") then
    if negb is_results_folder then
      let filename := basename src_path in
      filter (fun d => negb (str_eqb (datasheet_filename d) filename))
        datasheets
    else datasheets
  else if str_eqb event_type (lit "renamed") then
    match dest_path with
    | Some ((_ :: _) as dest) =>
        if negb is_results_folder
        then rename_first (basename src_path) (basename dest) datasheets
        else datasheets
    | Some [] | None => datasheets
    end
  else datasheets.

End Platform.

End Files.

Module Table.

Import Db Pipeline.
Local Open Scope Z_scope.

(** A row of the table: the checkbox (missing when the cell has no item),
    the file name, the status and whether the store has a result. *)
Record table_row := {
  checkbox : option bool;
  name : str;
  status_text : str;
  has_result : str
}.


Definition BALLOT_BOX_CHECKED : str := [9745%N].
Definition BALLOT_BOX : str := [9744%N].


Definition is_checked (r : table_row) : bool :=
  match checkbox r with
  | Some true => true
  | _ => false
  end.

Definition set_check_state (new_state : bool) (r : table_row) : table_row :=
  {| checkbox := match checkbox r with
                 | Some _ => Some new_state
                 | None => None
                 end;
     name := name r;
     status_text := status_text r;
     has_result := has_result r |}.

(** [on_header_clicked] (lines 820-842): the table after the click and
    the text given to the header, when one is given. *)
Definition on_header_clicked (table : list table_row) (logical_index : Z)
  : list table_row * option str :=
  if logical_index =? 0 then
    let checked_count := List.length (filter is_checked table) in
    let new_state := negb (0 <? checked_count)%nat in
    (map (set_check_state new_state) table,
     Some (if new_state then BALLOT_BOX_CHECKED else BALLOT_BOX))
  else (table, None).

(** The rows whose box is checked (lines 596-600). *)
Fixpoint checked_rows_from (i : nat) (table : list table_row) : list nat :=
  match table with
  | [] => []
  | r :: rest =>
      if is_checked r then i :: checked_rows_from (S i) rest
      else checked_rows_from (S i) rest
  end.



End Table.

(** ** The images of a run (lines 966-976) *)

Module Images.

Import Raster Files.
Local Open Scope Z_scope.

Section Reader.

Variable page : Type.
Variable render : page -> Z -> option (list Byte.byte).
Variable is_sep : char -> bool.
Variable unicode_lower : str -> str.

(** The images sent with the requests of a run.  [doc] is what
    [fitz.open] gives for the file and [content] what reading it gives,
    each [None] when it raises; the result is [None] when an exception
    reaches the handler of the run. *)
Definition datasheet_images (filename : str) (doc : option (list page))
  (content : option (list Byte.byte)) : option (list str) :=
  let ext := lower unicode_lower (snd (splitext is_sep filename)) in
  if str_eqb ext (lit ".pdf")
  then pdf_to_base64_images render doc 5 150
  else
    match content with
    | None => None
    | Some img_bytes =>
        Some [lit "data:image/" ++ skipn 1 ext ++ lit ";base64,"
              ++ b64encode img_bytes]
    end.

End Reader.

End Images.

(* ===================================================================== *)
(** * Properties *)
(* ===================================================================== *)

(** ** Strings *)

Lemma str_eqb_refl (s : str) : str_eqb s s = true.
Proof.
  induction s as [|c s IH]; simpl; trivial.
  unfold char_eqb. now rewrite N.eqb_refl.
Qed.

Lemma str_eqb_eq (a b : str) : str_eqb a b = true <-> a = b.
Proof.
  split.
  - revert b. induction a as [|x a IH]; intros [|y b]; simpl; try discriminate; trivial.
    intros H. apply andb_true_iff in H as [H1 H2].
    apply N.eqb_eq in H1. apply IH in H2. now subst.
  - intros ->. apply str_eqb_refl.
Qed.

Lemma str_eqb_neq (a b : str) : str_eqb a b = false <-> a <> b.
Proof.
  split.
  - intros H E. apply str_eqb_eq in E. congruence.
  - intros H. destruct (str_eqb a b) eqn:E; trivial.
    apply str_eqb_eq in E. contradiction.
Qed.

(** ** The store: uniqueness of (filename, hash) *)

Module DbFacts.

Import Db Props.
Local Open Scope Z_scope.


Lemma analysis_conflict_present (fn h : str) (rows : list analysis_row) :
  (exists r, In r rows /\ filename r = fn /\ file_hash r = Some h) ->
  existsb (analysis_conflict fn (Some h)) rows = true.
Proof.
  intros (r & Hin & Hfn & Hh). apply existsb_exists. exists r. split; trivial.
  unfold analysis_conflict. rewrite Hh, Hfn. now rewrite !str_eqb_refl.
Qed.

Lemma analysis_conflict_absent (fn h : str) (rows : list analysis_row) :
  existsb (analysis_conflict fn (Some h)) rows = false ->
  forall r, In r rows -> filename r = fn -> file_hash r <> Some h.
Proof.
  intros H r Hin Hfn Hh.
  assert (existsb (analysis_conflict fn (Some h)) rows = true).
  { apply analysis_conflict_present. now exists r. }
  congruence.
Qed.

(** The metadata inserts of a transaction leave the analysis table as the
    row insert made it. *)
Lemma insert_metadata_row_analysis txn did k text txn' :
  insert_metadata_row txn did k text = Some txn' ->
  analysis txn' = analysis txn /\ analysis_seq txn' = analysis_seq txn
  /\ checkpoints txn' = checkpoints txn
  /\ checkpoint_seq txn' = checkpoint_seq txn.
Proof.
  unfold insert_metadata_row.
  destruct (existsb _ _); [discriminate|].
  intros [= <-]. simpl. auto.
Qed.

Lemma insert_metadata_rows_analysis items : forall txn did txn',
  insert_metadata_rows txn did items = Some txn' ->
  analysis txn' = analysis txn /\ analysis_seq txn' = analysis_seq txn
  /\ checkpoints txn' = checkpoints txn
  /\ checkpoint_seq txn' = checkpoint_seq txn.
Proof.
  induction items as [|[k v] items IH]; simpl; intros txn did txn' H.
  - injection H as <-. auto.
  - destruct (insert_metadata_row txn did k (value_text v)) as [t|] eqn:E;
      [|discriminate].
    apply insert_metadata_row_analysis in E as (E1 & E2 & E3 & E4).
    apply IH in H as (H1 & H2 & H3 & H4). repeat split; congruence.
Qed.

(** What a successful call appends to the analysis table. *)
Lemma insert_analysis_ok st now fn text vc h md st' id :
  insert_analysis st now fn text vc h md = (st', Ok id) ->
  id = next_id (analysis_seq st) (map a_id (analysis st))
  /\ analysis st' = analysis st ++
       [{| a_id := id; filename := fn; vendor_code := vc;
           analysis_result := text; file_hash := h;
           status := lit "Finish";
           created_at := now; updated_at := now |}]
  /\ existsb (analysis_conflict fn h) (analysis st) = false
  /\ checkpoints st' = checkpoints st.
Proof.
  unfold insert_analysis, insert_analysis_row.
  destruct (existsb (analysis_conflict fn h) (analysis st)) eqn:Ec;
    [discriminate|].
  match goal with
  | |- context [insert_metadata_rows ?t ?d ?i] =>
      destruct (insert_metadata_rows t d i) as [txn'|] eqn:Em
  end; [|discriminate].
  intros [= <- <-].
  apply insert_metadata_rows_analysis in Em as (E1 & _ & E3 & _).
  simpl in *. auto.
Qed.

(** A failing call returns the store it was given. *)
Lemma insert_analysis_raise st now fn text vc h md st' e :
  insert_analysis st now fn text vc h md = (st', Raise e) -> st' = st.
Proof.
  unfold insert_analysis.
  destruct (insert_analysis_row st now fn text vc h) as [[txn id]|].
  - destruct (insert_metadata_rows _ _ _); [discriminate|]. congruence.
  - congruence.
Qed.

Lemma rows_of_app fn h st rows :
  filter (fun r => str_eqb (filename r) fn && opt_str_eqb (file_hash r) h)
    (analysis st ++ rows)
  = rows_of fn h st
    ++ filter (fun r => str_eqb (filename r) fn && opt_str_eqb (file_hash r) h)
         rows.
Proof. unfold rows_of. apply filter_app. Qed.

Lemma rows_of_conflict_free fn h st :
  existsb (analysis_conflict fn (Some h)) (analysis st) = false ->
  rows_of fn (Some h) st = [].
Proof.
  unfold rows_of. induction (analysis st) as [|r rows IH]; simpl; trivial.
  intros H. apply orb_false_iff in H as [H1 H2].
  unfold analysis_conflict in H1. unfold opt_str_eqb.
  destruct (file_hash r) as [y|].
  - destruct (str_eqb (filename r) fn); simpl in *.
    + rewrite (proj2 (str_eqb_neq y h)); [now apply IH|].
      intros ->. now rewrite str_eqb_refl in H1.
    + now apply IH.
  - rewrite andb_false_r. now apply IH.
Qed.

(** [insert_analysis] keeps the uniqueness of (filename, non-null hash). *)
Lemma insert_analysis_unique st now fn text vc h md :
  unique_hashes st ->
  unique_hashes (fst (insert_analysis st now fn text vc h md)).
Proof.
  intros U.
  destruct (insert_analysis st now fn text vc h md) as [st' [id|e]] eqn:E.
  - apply insert_analysis_ok in E as (_ & Ha & Hc & _). simpl.
    intros fn' h'. unfold rows_of. rewrite Ha, filter_app, length_app. simpl.
    destruct (str_eqb fn fn' && opt_str_eqb h (Some h')) eqn:Eb; simpl.
    + apply andb_true_iff in Eb as [E1 E2].
      apply str_eqb_eq in E1. subst fn'.
      destruct h as [x|]; [|discriminate]. simpl in E2.
      apply str_eqb_eq in E2. subst x.
      pose proof (rows_of_conflict_free Hc) as R. unfold rows_of in R.
      rewrite R. simpl. lia.
    + specialize (U fn' h'). unfold rows_of in U. lia.
  - apply insert_analysis_raise in E. now subst.
Qed.

(** The row insert fails on a pair that is present, and the call with it. *)
Lemma insert_analysis_present st now fn text vc h md :
  (exists r, In r (analysis st) /\ filename r = fn /\ file_hash r = Some h) ->
  insert_analysis st now fn text vc (Some h) md = (st, Raise ValueError).
Proof.
  intros Hpresent. unfold insert_analysis, insert_analysis_row.
  now rewrite (analysis_conflict_present Hpresent).
Qed.

End DbFacts.

Module StoreUniqueness.

Import Db Props DbFacts.
Local Open Scope Z_scope.



(** The same for a call repeated after a successful one. *)
Lemma insert_analysis_twice st now fn text vc h md st1 id now' text' vc' md' :
  insert_analysis st now fn text vc (Some h) md = (st1, Ok id) ->
  insert_analysis st1 now' fn text' vc' (Some h) md' = (st1, Raise ValueError).
Proof.
  intros E. apply insert_analysis_ok in E as (_ & Ha & _).
  apply insert_analysis_present.
  eexists. split; [rewrite Ha; apply in_or_app; right; left; reflexivity|].
  split; reflexivity.
Qed.





End StoreUniqueness.

Module StoreQueries.

Import Db Props DbFacts.
Local Open Scope Z_scope.

Lemma latest_in rows r :
  latest rows = Some r ->
  In r rows /\ forall r', In r' rows -> created_at r' <= created_at r.
Proof.
  revert r. induction rows as [|x rows IH]; simpl; intros r H; [discriminate|].
  destruct (latest rows) as [b|] eqn:E.
  - destruct (IH b eq_refl) as [Hin Hmax].
    destruct (created_at x <? created_at b) eqn:Hlt; injection H as <-.
    + apply Z.ltb_lt in Hlt. split; [now right|].
      intros r' [<-|Hr']; [lia|now apply Hmax].
    + apply Z.ltb_ge in Hlt. split; [now left|].
      intros r' [<-|Hr']; [lia|]. specialize (Hmax r' Hr'). lia.
  - injection H as <-. split; [now left|].
    destruct rows; [|simpl in E; destruct (latest rows); [destruct (_ <? _)|];
                     discriminate].
    intros r' [<-|[]]. lia.
Qed.


(** A row newer than all the others is the one selected, wherever ties
    among the others go. *)
Lemma latest_newest rows r :
  (forall r', In r' rows -> created_at r' < created_at r) ->
  latest (rows ++ [r]) = Some r.
Proof.
  induction rows as [|x rows IH]; simpl; intros H; trivial.
  rewrite IH by (intros; apply H; now right).
  specialize (H x (or_introl eq_refl)).
  apply Z.ltb_lt in H. now rewrite H.
Qed.

Lemma get_by_filename_max st fn r :
  get_analysis_by_filename st fn = Some r ->
  In r (analysis st) /\ filename r = fn
  /\ forall r', In r' (analysis st) -> filename r' = fn ->
                created_at r' <= created_at r.
Proof.
  unfold get_analysis_by_filename. intros H.
  apply latest_in in H as [Hin Hmax].
  apply filter_In in Hin as [Hin Hfn]. apply str_eqb_eq in Hfn.
  repeat split; trivial.
  intros r' Hr' Hfn'. apply Hmax. apply filter_In. split; trivial.
  apply str_eqb_eq. exact Hfn'.
Qed.

(** C6, as amended. A record inserted with a creation time later than that
    of every record the store holds for its filename is the one
    [get_analysis_by_filename] returns for that filename, with the text
    that was inserted, unchanged; and whatever record
    [get_analysis_by_filename] returns has that filename and a creation
    time no other record of that filename exceeds. *)
Theorem insert_then_get_latest st now fn text vc h md st' id :
  insert_analysis st now fn text vc h md = (st', Ok id) ->
  (forall r, In r (analysis st) -> filename r = fn -> created_at r < now) ->
  (exists r, get_analysis_by_filename st' fn = Some r
             /\ analysis_result r = text /\ a_id r = id)
  /\ (forall fn' r, get_analysis_by_filename st' fn' = Some r ->
        In r (analysis st') /\ filename r = fn'
        /\ forall r', In r' (analysis st') -> filename r' = fn' ->
                      created_at r' <= created_at r).
Proof.
  intros E Hnew. apply insert_analysis_ok in E as (_ & Ha & _).
  split.
  - eexists. split.
    + unfold get_analysis_by_filename. rewrite Ha, filter_app. simpl.
      rewrite str_eqb_refl. apply latest_newest.
      intros r' Hr'. apply filter_In in Hr' as [Hin Hfn].
      apply str_eqb_eq in Hfn. simpl. now apply Hnew.
    + split; reflexivity.
  - intros fn' r. apply get_by_filename_max.
Qed.

Lemma insert_then_get_latest_witness :
  (exists r, get_analysis_by_filename
               (fst (insert_analysis store_one 101 a_pdf (lit "second") None
                       None None)) a_pdf = Some r
             /\ analysis_result r = lit "second" /\ a_id r = 2)
  /\ (forall fn' r,
        get_analysis_by_filename
          (fst (insert_analysis store_one 101 a_pdf (lit "second") None
                  None None)) fn' = Some r ->
        In r (analysis (fst (insert_analysis store_one 101 a_pdf
                               (lit "second") None None None)))
        /\ filename r = fn'
        /\ forall r', In r' (analysis (fst (insert_analysis store_one 101
                                 a_pdf (lit "second") None None None))) ->
                      filename r' = fn' -> created_at r' <= created_at r).
Proof.
  apply (@insert_then_get_latest store_one 101 a_pdf (lit "second") None None
           None _ 2).
  - reflexivity.
  - simpl. intros r [<-|[]] _. simpl. lia.
Defined.

(** C6 as stated fails: two records of one filename created within the
    same second; the query returns the older one. *)
Lemma insert_then_get_tie : ~ insert_then_get_returns_text.
Proof.
  intros H.
  destruct (H store_old 100 a_pdf (lit "new") None None None _ _ eq_refl)
    as (r & Hget & Htext).
  vm_compute in Hget. injection Hget as <-. discriminate Htext.
Qed.

End StoreQueries.

Module StoreUpdate.

Import Db Props DbFacts.
Local Open Scope Z_scope.


Lemma find_app (A : Type) (f : A -> bool) l1 l2 :
  find f (l1 ++ l2)
  = match find f l1 with Some x => Some x | None => find f l2 end.
Proof.
  induction l1 as [|x l1 IH]; simpl; trivial. destruct (f x); trivial.
Qed.

(** Deleting the rows of one key does not disturb the search for another. *)
Lemma find_filter_other (A : Type) (f g : A -> bool) l :
  (forall x, f x = true -> g x = true) ->
  find f (filter g l) = find f l.
Proof.
  intros H. induction l as [|x l IH]; simpl; trivial.
  destruct (f x) eqn:Ef.
  - rewrite (H x Ef). simpl. now rewrite Ef.
  - destruct (g x); simpl; [rewrite Ef|]; exact IH.
Qed.

Lemma find_filter_same (A : Type) (f : A -> bool) l :
  find f (filter (fun x => negb (f x)) l) = None.
Proof.
  induction l as [|x l IH]; simpl; trivial.
  destruct (f x) eqn:Ef; simpl; [|rewrite Ef]; exact IH.
Qed.






End StoreUpdate.

Module StoreUpdateWitness.

Import Db Props.
Local Open Scope Z_scope.


End StoreUpdateWitness.

(** ** The pipeline *)

Module PipelineFacts.

Import Db Pipeline Props.
Local Open Scope Z_scope.

(** [insert_checkpoint] stores the row when the three parameters can be
    bound, and else raises and leaves the store as it was. *)
Lemma insert_checkpoint_cases st now did text code :
  (in_int64 did && (valid_str text && valid_str code) = true
   /\ exists cid, snd (insert_checkpoint st now did text code) = Ok cid
        /\ cid = next_id (checkpoint_seq st) (map c_id (checkpoints st))
        /\ fst (insert_checkpoint st now did text code)
           = {| analysis := analysis st; analysis_seq := analysis_seq st;
                metadata := metadata st; metadata_seq := metadata_seq st;
                checkpoints := checkpoints st ++
                  [{| c_id := cid; c_datasheet_id := did;
                      c_text := text; c_python_code := code;
                      c_created_at := now |}];
                checkpoint_seq := cid |})
  \/ (in_int64 did && (valid_str text && valid_str code) = false
      /\ exists e, insert_checkpoint st now did text code = (st, Raise e)).
Proof.
  unfold insert_checkpoint.
  destruct (in_int64 did); cbn [negb andb];
    [|right; split; trivial; now eexists].
  destruct (valid_str text && valid_str code); cbn [negb];
    [|right; split; trivial; now eexists].
  left. split; trivial. eexists. cbn [fst snd]. repeat split.
Qed.

(** An iteration of the checkpoint loop appends one row when the store
    takes the item, whatever the tool did, and none when it does not. *)
Lemma store_checkpoint_appends st now did text ev :
  store_checkpoint st now did text ev
  = if in_int64 did && valid_str text
    then fst (insert_checkpoint st now did text (stored_code ev))
    else st.
Proof.
  unfold store_checkpoint, stored_code, insert_checkpoint.
  destruct (in_int64 did); cbn [negb andb];
    [|now destruct (synthesize ev)].
  destruct (valid_str text); cbn [negb andb];
    [|now destruct (synthesize ev)].
  destruct (synthesize ev) as [code|]; [|reflexivity].
  destruct (valid_str code) eqn:E; simpl; rewrite ?E; reflexivity.
Qed.

Lemma stored_code_valid ev : valid_str (stored_code ev) = true.
Proof.
  unfold stored_code. destruct (synthesize ev) as [code|]; trivial.
  now destruct (valid_str code) eqn:E.
Qed.

Lemma synthesis_fails_no_code ev : synthesis_fails ev -> synthesize ev = None.
Proof.
  destruct ev as [|rc out]; simpl; trivial.
  intros [H| ->].
  - apply Z.eqb_neq in H. now rewrite H.
  - now destruct (rc =? 0).
Qed.

(** The loop over the checklist writes checkpoints alone. *)
Lemma store_checkpoints_frame env did texts : forall st idx,
  analysis (store_checkpoints env st did idx texts) = analysis st
  /\ metadata (store_checkpoints env st did idx texts) = metadata st.
Proof.
  induction texts as [|t texts IH]; intros st idx; cbn [store_checkpoints];
    [now split|].
  destruct (IH (store_checkpoint st (checkpoint_time env idx) did t
                  (synth env idx)) (S idx)) as (Ha & Hm).
  rewrite Ha, Hm, store_checkpoint_appends.
  destruct (in_int64 did && valid_str t); [|now split].
  destruct (insert_checkpoint_cases st (checkpoint_time env idx) did t
              (stored_code (synth env idx)))
    as [(_ & cid & _ & _ & ->)|(_ & e & ->)]; now split.
Qed.

(** The loop over the checklist appends the rows of the items the store
    takes, in the order of the checklist, and touches nothing else. *)
Lemma store_checkpoints_rows env did texts :
  in_int64 did = true ->
  forall st idx,
  analysis (store_checkpoints env st did idx texts) = analysis st
  /\ metadata (store_checkpoints env st did idx texts) = metadata st
  /\ exists rows,
       checkpoints (store_checkpoints env st did idx texts)
       = checkpoints st ++ rows
       /\ map c_text rows = filter valid_str texts
       /\ forall i text, nth_error texts i = Some text ->
            valid_str text = true ->
            exists row, nth_error rows (rank texts i) = Some row
              /\ c_text row = text /\ c_datasheet_id row = did
              /\ c_python_code row = stored_code (synth env (idx + i))
              /\ c_created_at row = checkpoint_time env (idx + i).
Proof.
  intros Hdid.
  induction texts as [|t texts IH]; intros st idx;
    cbn [store_checkpoints].
  - repeat split. exists []. rewrite List.app_nil_r. repeat split.
    intros [|i] text; discriminate.
  - rewrite store_checkpoint_appends, Hdid. cbn [andb filter].
    destruct (valid_str t) eqn:Et.
    + destruct (insert_checkpoint_cases st (checkpoint_time env idx) did t
                  (stored_code (synth env idx)))
        as [(_ & cid & _ & _ & E)|(Hf & _)];
        [|rewrite Hdid, Et, stored_code_valid in Hf; discriminate].
      rewrite E.
      match goal with
      | |- context [store_checkpoints env ?s did (S idx) texts] =>
          destruct (IH s (S idx)) as (Ha & Hm & rows & Hc & Hl & Hrows)
      end.
      rewrite Ha, Hm, Hc. cbn [analysis metadata checkpoints].
      repeat split.
      eexists (_ :: rows). rewrite <- List.app_assoc. cbn [app].
      split; [reflexivity|]. split; [cbn [map c_text]; now rewrite Hl|].
      intros [|i] text Hi Hv.
      * injection Hi as <-. eexists. split; [reflexivity|].
        cbn. rewrite Nat.add_0_r. repeat split.
      * cbn [nth_error] in Hi.
        destruct (Hrows i text Hi Hv) as (row & Hn & H1 & H2 & H3 & H4).
        exists row. unfold rank in *. cbn [firstn filter]. rewrite Et.
        cbn [List.length nth_error]. rewrite Nat.add_succ_r.
        repeat split; trivial.
    + destruct (IH st (S idx)) as (Ha & Hm & rows & Hc & Hl & Hrows).
      split; [exact Ha|]. split; [exact Hm|].
      exists rows. split; [exact Hc|]. split; [exact Hl|].
      intros [|i] text Hi Hv.
      * injection Hi as <-. congruence.
      * cbn [nth_error] in Hi.
        destruct (Hrows i text Hi Hv) as (row & Hn & H1 & H2 & H3 & H4).
        exists row. unfold rank in *. cbn [firstn filter]. rewrite Et.
        rewrite Nat.add_succ_r. repeat split; trivial.
Qed.

(** The steps raise where [json.loads] does. *)
Lemma tag_step_raises interp raw e :
  tag_step interp raw = TagRaises e <-> payload interp raw = LoadsRaises e.
Proof.
  unfold tag_step, payload.
  destruct (json_loads interp _) as [[| | | |l|]| |[| | | |l|]|e'];
    try (split; discriminate);
    try (destruct (fold_tags l []); split; discriminate).
  split; intros [= ->]; reflexivity.
Qed.

Lemma checklist_step_raises repr interp raw e :
  checklist_step repr interp raw = ChecklistRaises e
  <-> payload interp raw = LoadsRaises e.
Proof.
  unfold checklist_step, payload.
  destruct (json_loads interp _) as [[| | | |l|]| |[| | | |l|]|e'];
    try (split; discriminate).
  split; intros [= ->]; reflexivity.
Qed.

(** The run reaches the end of the [try] block unless one of the stages
    before the save raises. *)
Lemma analyze_datasheet_writes repr env st d :
  (run_raises env
   /\ writes (analyze_datasheet repr env st d) = [PROCESSING; READY]
   /\ after (analyze_datasheet repr env st d) = StoreIs st)
  \/ (~ run_raises env
      /\ writes (analyze_datasheet repr env st d) = [PROCESSING; FINISH]
      /\ calls (analyze_datasheet repr env st d)
         = [Vendor; Analysis; Tags; Checkpoints]).
Proof.
  unfold analyze_datasheet, run_raises.
  destruct (images env) as [imgs|]; [|left; simpl; auto].
  destruct (vendor_response env) as [v|]; [|left; simpl; auto].
  destruct (analysis_response env) as [a|]; [|left; simpl; auto].
  destruct (tag_response env) as [raw|]; [|left; simpl; auto 6].
  assert (Hraise : forall e,
            tag_step (interp env) raw = TagRaises e ->
            (exists raw0,
               Some raw = Some raw0
               /\ ((exists e0, payload (interp env) raw0 = LoadsRaises e0)
                   \/ tag_step (interp env) raw0 = TagTypeError))).
  { intros e He. exists raw. split; trivial. left. exists e.
    now apply tag_step_raises. }
  assert (Hgo : forall t,
            tag_step (interp env) raw = t ->
            t <> TagTypeError -> (forall e, t <> TagRaises e) ->
            ~ (exists raw0,
                 Some raw = Some raw0
                 /\ ((exists e0, payload (interp env) raw0 = LoadsRaises e0)
                     \/ tag_step (interp env) raw0 = TagTypeError))).
  { intros t Ht H1 H2 (raw0 & [= <-] & [(e0 & He)|He]).
    - apply tag_step_raises in He. rewrite Ht in He. exact (H2 e0 He).
    - rewrite Ht in He. exact (H1 He). }
  destruct (tag_step (interp env) raw) as [md| |e|] eqn:Et;
    try (left; simpl; repeat split; do 4 right; left;
         first [exact (Hraise _ eq_refl)
               |exists raw; split; [reflexivity|now right]]).
  - destruct (checkpoint_response env) as [c|]; [|left; simpl; auto 8].
    destruct (checklist_step repr (interp env) c) as [l|e|] eqn:Ec.
    + right. simpl. repeat split.
      intros [H|[H|[H|[H|[H|[H|(c0 & e0 & [= <-] & H)]]]]]];
        try discriminate.
      * revert H. apply (Hgo _ eq_refl); congruence.
      * apply (checklist_step_raises repr) in H. congruence.
    + left. simpl. repeat split. do 6 right. exists c, e.
      split; trivial. now apply (checklist_step_raises repr).
    + right. simpl. repeat split.
      intros [H|[H|[H|[H|[H|[H|(c0 & e0 & [= <-] & H)]]]]]];
        try discriminate.
      * revert H. apply (Hgo _ eq_refl); congruence.
      * apply (checklist_step_raises repr) in H. congruence.
  - destruct (checkpoint_response env) as [c|]; [|left; simpl; auto 8].
    destruct (checklist_step repr (interp env) c) as [l|e|] eqn:Ec.
    + right. simpl. repeat split.
      intros [H|[H|[H|[H|[H|[H|(c0 & e0 & [= <-] & H)]]]]]];
        try discriminate.
      * revert H. apply (Hgo _ eq_refl); congruence.
      * apply (checklist_step_raises repr) in H. congruence.
    + left. simpl. repeat split. do 6 right. exists c, e.
      split; trivial. now apply (checklist_step_raises repr).
    + right. simpl. repeat split.
      intros [H|[H|[H|[H|[H|[H|(c0 & e0 & [= <-] & H)]]]]]];
        try discriminate.
      * revert H. apply (Hgo _ eq_refl); congruence.
      * apply (checklist_step_raises repr) in H. congruence.
Qed.

(** The answers of the tool do not bear on the course of the run. *)
Lemma analyze_datasheet_synth repr env f st d :
  writes (analyze_datasheet repr (with_synth env f) st d)
  = writes (analyze_datasheet repr env st d)
  /\ calls (analyze_datasheet repr (with_synth env f) st d)
     = calls (analyze_datasheet repr env st d).
Proof.
  unfold analyze_datasheet, with_synth. simpl.
  destruct (images env); [|auto].
  destruct (vendor_response env); [|auto].
  destruct (analysis_response env); [|auto].
  destruct (tag_response env) as [raw|]; [|auto].
  destruct (tag_step (interp env) raw);
    destruct (checkpoint_response env) as [c|]; auto;
    destruct (checklist_step repr (interp env) c); auto.
Qed.

End PipelineFacts.

Module Synthesis.

Import Db Pipeline Props PipelineFacts.
Local Open Scope Z_scope.

(** C4, as amended. For a record whose id the store takes, the loop over
    the checklist appends one checkpoint row for every item whose text
    the store takes (a text without surrogate code point), in the order
    of the checklist, and touches nothing else; an item the store refuses
    is passed over and the loop goes on.  The row of an item holds the
    item's text and the code the tool wrote, and the empty string (a
    string, never NULL) when the tool exits with a non-zero code, leaves
    no output file or does not return; the items after a failing one are
    stored all the same, and the run's status and requests are those of
    the run with any other answers of the tool. *)
Theorem synthesis_failure_isolated repr env st d did idx texts f :
  in_int64 did = true ->
  let st' := store_checkpoints env st did idx texts in
  analysis st' = analysis st /\ metadata st' = metadata st
  /\ (exists rows,
        checkpoints st' = checkpoints st ++ rows
        /\ map c_text rows = filter valid_str texts
        /\ forall i text, nth_error texts i = Some text ->
             valid_str text = true ->
             exists row, nth_error rows (rank texts i) = Some row
               /\ c_text row = text /\ c_datasheet_id row = did
               /\ c_python_code row = stored_code (synth env (idx + i))
               /\ (synthesis_fails (synth env (idx + i)) ->
                   c_python_code row = []))
  /\ writes (analyze_datasheet repr (with_synth env f) st d)
     = writes (analyze_datasheet repr env st d).
Proof.
  intros Hdid. cbv zeta.
  destruct (store_checkpoints_rows env texts Hdid st idx)
    as (Ha & Hm & rows & Hc & Hl & Hrows).
  split; [exact Ha|]. split; [exact Hm|]. split.
  - exists rows. split; [exact Hc|]. split; [exact Hl|].
    intros i text Hi Hv.
    destruct (Hrows i text Hi Hv) as (row & Hn & H1 & H2 & H3 & _).
    exists row. repeat split; trivial.
    intros Hf. rewrite H3. unfold stored_code.
    now rewrite (synthesis_fails_no_code Hf).
  - apply analyze_datasheet_synth.
Qed.

Lemma synthesis_failure_isolated_witness :
  exists rows,
    checkpoints (store_checkpoints env_ok store_one 1 0
                   [lit "check VIN"; lit "check VOUT"; lit "check ADJ"])
    = checkpoints store_one ++ rows
    /\ List.length rows = 3%nat
    /\ exists row, nth_error rows 1 = Some row
         /\ c_text row = lit "check VOUT" /\ c_python_code row = [].
Proof.
  pose proof (@synthesis_failure_isolated (fun _ => []) env_ok store_one
                finished_pdf 1 0
                [lit "check VIN"; lit "check VOUT"; lit "check ADJ"]
                (fun _ => RunRaises) eq_refl) as H.
  cbv zeta in H. destruct H as (_ & _ & (rows & Hc & Hl & Hrows) & _).
  exists rows. split; [exact Hc|]. split.
  - rewrite <- (length_map c_text), Hl. reflexivity.
  - destruct (Hrows 1%nat (lit "check VOUT") eq_refl eq_refl)
      as (row & Hn & H1 & _ & _ & H4).
    exists row. split; [exact Hn|]. split; [exact H1|].
    apply H4. simpl. left. lia.
Defined.

(** C4 as stated fails: an item that holds a lone surrogate, which the
    answer of the checklist request can spell as an escape, is not stored
    when its synthesis fails: both inserts raise [UnicodeEncodeError] and
    the second is passed over. *)
Lemma surrogate_item_dropped : ~ failed_items_persisted.
Proof.
  intros H.
  destruct (H env_ok empty_store 1 0%nat [lit "check VIN"; [55296%N]]
              1%nat [55296%N] eq_refl eq_refl)
    as (row & Hin & Ht & _).
  - left. discriminate.
  - vm_compute in Hin. destruct Hin as [<-|[]]. discriminate Ht.
Qed.

End Synthesis.

Module StatusMachine.

Import Db Pipeline Props PipelineFacts.
Local Open Scope nat_scope.








End StatusMachine.

(** ** The rasterizer *)

Module RasterFacts.

Import Raster Props.
Local Open Scope N_scope.

Lemma b64char_alphabet n : n < 64 -> is_b64char (b64char n) = true.
Proof.
  intros H. unfold b64char, is_b64char.
  destruct (n <? 26) eqn:E1; [apply N.ltb_lt in E1|apply N.ltb_ge in E1].
  { replace ((65 <=? 65 + n) && (65 + n <=? 90)) with true; trivial.
    symmetry. apply andb_true_iff. split; apply N.leb_le; lia. }
  destruct (n <? 52) eqn:E2; [apply N.ltb_lt in E2|apply N.ltb_ge in E2].
  { replace ((97 <=? 71 + n) && (71 + n <=? 122)) with true;
      [now rewrite orb_true_r|].
    symmetry. apply andb_true_iff. split; apply N.leb_le; lia. }
  destruct (n <? 62) eqn:E3; [apply N.ltb_lt in E3|apply N.ltb_ge in E3].
  { replace ((48 <=? n - 4) && (n - 4 <=? 57)) with true;
      [now rewrite !orb_true_r|].
    symmetry. apply andb_true_iff. split; apply N.leb_le; lia. }
  destruct (n =? 62); simpl; now rewrite ?orb_true_r.
Qed.

Lemma b64quad_alphabet n :
  n < 16777216 -> forallb is_b64char (b64quad n) = true.
Proof.
  intros H. unfold b64quad. cbn [forallb].
  rewrite !b64char_alphabet; trivial;
    try (apply N.mod_lt; discriminate).
  apply N.Div0.div_lt_upper_bound. lia.
Qed.

Lemma forallb_firstn (A : Type) (f : A -> bool) k l :
  forallb f l = true -> forallb f (firstn k l) = true.
Proof.
  revert l. induction k as [|k IH]; intros [|x l]; simpl; trivial.
  intros H. apply andb_true_iff in H as [H1 H2]. rewrite H1. now apply IH.
Qed.

Lemma byte_bound (b : Byte.byte) : Byte.to_N b < 256.
Proof. destruct b; reflexivity. Qed.

(** The text of [b64encode]: four characters of the alphabet for every
    three bytes begun. *)
Lemma b64encode_shape k : forall data,
  (List.length data <= k)%nat ->
  forallb is_b64char (b64encode data) = true
  /\ List.length (b64encode data)
     = (4 * ((List.length data + 2) / 3))%nat.
Proof.
  induction k as [k IH] using lt_wf_ind. intros data Hk.
  destruct data as [|a [|b [|c rest]]].
  - split; reflexivity.
  - pose proof (byte_bound a) as Ba. cbn [b64encode]. split.
    + rewrite forallb_app. rewrite forallb_firstn; [reflexivity|].
      apply b64quad_alphabet. lia.
    + reflexivity.
  - pose proof (byte_bound a) as Ba. pose proof (byte_bound b) as Bb.
    cbn [b64encode]. split.
    + rewrite forallb_app. rewrite forallb_firstn; [reflexivity|].
      apply b64quad_alphabet. lia.
    + reflexivity.
  - pose proof (byte_bound a) as Ba. pose proof (byte_bound b) as Bb.
    pose proof (byte_bound c) as Bc.
    change (b64encode (a :: b :: c :: rest))
      with (b64quad (Byte.to_N a * 65536 + Byte.to_N b * 256 + Byte.to_N c)
              ++ b64encode rest).
    simpl in Hk.
    destruct (IH (List.length rest) ltac:(lia) rest (le_n _)) as [H1 H2].
    split.
    + rewrite forallb_app, H1, b64quad_alphabet; trivial. lia.
    + rewrite length_app, H2. cbn [List.length b64quad].
      replace (S (S (S (List.length rest))) + 2)%nat
        with (List.length rest + 2 + 1 * 3)%nat by lia.
      rewrite Nat.div_add by discriminate. lia.
Qed.

Section Pages.

Variable page : Type.
Variable render : page -> Z -> option (list Byte.byte).

Lemma render_pages_all dpi pages :
  (forall p, In p pages -> render p dpi <> None) ->
  exists images,
    render_pages render pages dpi = Some images
    /\ List.length images = List.length pages
    /\ forall i p, nth_error pages i = Some p ->
         exists png, render p dpi = Some png
           /\ nth_error images i = Some (PNG_PREFIX ++ b64encode png).
Proof.
  induction pages as [|p pages IH]; intros H; simpl.
  - exists []. repeat split. intros [|i] p; discriminate.
  - destruct (render p dpi) as [png|] eqn:E;
      [|now destruct (H p (or_introl eq_refl))].
    destruct IH as (images & Hr & Hl & Hn);
      [intros q Hq; apply H; now right|].
    rewrite Hr. eexists. split; [reflexivity|]. split; [simpl; now rewrite Hl|].
    intros [|i] q Hi; simpl in *.
    + injection Hi as <-. now exists png.
    + now apply Hn.
Qed.

(** C8. For a document that opens and whose pages render,
    [pdf_to_base64_images] returns exactly min(n, max_pages) images (none
    when [max_pages] is negative), the i-th being the data URI of page i:
    the PNG prefix followed by the base64 text of that page's PNG bytes,
    a text of the base64 alphabet. *)
Theorem pdf_to_base64_images_pages (pages : list page) (max_pages dpi : Z) :
  (forall p,
     In p (firstn (Z.to_nat (Z.min (Z.of_nat (List.length pages)) max_pages))
             pages) -> render p dpi <> None) ->
  exists images,
    pdf_to_base64_images render (Some pages) max_pages dpi = Some images
    /\ Z.of_nat (List.length images)
       = Z.max 0 (Z.min (Z.of_nat (List.length pages)) max_pages)
    /\ ((0 <= max_pages)%Z ->
        Z.of_nat (List.length images)
        = Z.min (Z.of_nat (List.length pages)) max_pages)
    /\ forall i, (i < List.length images)%nat ->
         exists p png, nth_error pages i = Some p
           /\ render p dpi = Some png
           /\ nth_error images i = Some (PNG_PREFIX ++ b64encode png)
           /\ forallb is_b64char (b64encode png) = true.
Proof.
  intros Hread. unfold pdf_to_base64_images.
  set (k := Z.to_nat (Z.min (Z.of_nat (List.length pages)) max_pages)) in *.
  destruct (render_pages_all Hread) as (images & Hr & Hl & Hn).
  exists images. split; [exact Hr|].
  assert (Hk : (k <= List.length pages)%nat) by (unfold k; lia).
  rewrite length_firstn in Hl.
  split; [unfold k in Hl; lia|]. split; [unfold k in Hl; lia|].
  intros i Hi.
  assert (Hik : (i < k)%nat) by lia.
  destruct (nth_error pages i) as [p|] eqn:Ep;
    [|apply nth_error_None in Ep; lia].
  destruct (Hn i p) as (png & Hp & Himg).
  { rewrite nth_error_firstn.
    assert (E : (i <? k)%nat = true) by (apply Nat.ltb_lt; exact Hik).
    rewrite E. exact Ep. }
  exists p, png. repeat split; trivial.
  apply (b64encode_shape (le_n (List.length png))).
Qed.

End Pages.

Lemma pdf_to_base64_images_pages_witness :
  exists images,
    pdf_to_base64_images render_bytes (Some three_pages) 2 150 = Some images
    /\ Z.of_nat (List.length images) = 2%Z.
Proof.
  destruct (@pdf_to_base64_images_pages _ render_bytes three_pages 2 150)
    as (images & H1 & _ & H3 & _).
  - simpl. intros p [<-|[<-|[]]]; discriminate.
  - exists images. split; [exact H1|]. apply H3. lia.
Defined.

End RasterFacts.

(** ** The fenced block *)

Module FenceFacts.

Import Fence Props.
Local Open Scope N_scope.

Lemma strip_prefix_app p : forall s r,
  strip_prefix p s = Some r -> s = p ++ r.
Proof.
  induction p as [|a p IH]; intros [|b s] r; simpl;
    try discriminate; try (now intros [= ->]).
  unfold char_eqb. destruct (a =? b) eqn:E; [|discriminate].
  apply N.eqb_eq in E. subst b. intros H. now rewrite (IH _ _ H).
Qed.

Lemma lstrip_app_space g c :
  isspace c = true -> strip (g ++ [c]) = strip g.
Proof.
  intros Hc. unfold strip.
  induction g as [|x g IH]; simpl.
  - now rewrite Hc.
  - destruct (isspace x); [exact IH|].
    unfold rstrip. change (x :: g ++ [c]) with ((x :: g) ++ [c]).
    rewrite rev_unit. simpl. now rewrite Hc.
Qed.

Lemma strip_cons_space c s : isspace c = true -> strip (c :: s) = strip s.
Proof. intros H. unfold strip. simpl. now rewrite H. Qed.

Lemma split_fence_eq s :
  split_fence s
  = match strip_prefix FENCE s with
    | Some r => Some ([], r)
    | None =>
        match s with
        | [] => None
        | c :: t =>
            match split_fence t with
            | Some (b, r) => Some (c :: b, r)
            | None => None
            end
        end
    end.
Proof. destruct s; reflexivity. Qed.

Lemma split_fence_tail c t :
  split_fence (c :: t) = None -> split_fence t = None.
Proof.
  rewrite split_fence_eq.
  destruct (strip_prefix FENCE (c :: t)); [discriminate|].
  now destruct (split_fence t) as [[b r]|].
Qed.

Lemma split_fence_skipn n : forall s,
  split_fence s = None -> split_fence (skipn n s) = None.
Proof.
  induction n as [|n IH]; intros [|c t] H; simpl; trivial.
  apply IH. exact (split_fence_tail H).
Qed.

Lemma split_fence_head s r :
  strip_prefix FENCE s = Some r -> split_fence s = Some ([], r).
Proof. intros H. rewrite split_fence_eq. now rewrite H. Qed.

Lemma split_fence_step c t :
  strip_prefix FENCE (c :: t) = None ->
  split_fence (c :: t)
  = match split_fence t with
    | Some (b, r) => Some (c :: b, r)
    | None => None
    end.
Proof. intros H. rewrite split_fence_eq. now rewrite H. Qed.

(** The lazy group stops at the first fence, a newline before it left
    out. *)
Lemma lazy_group_split s :
  match split_fence s with
  | Some (b, _) =>
      exists g, lazy_group s = Some g /\ (g = b \/ g ++ [NEWLINE] = b)
  | None => lazy_group s = None
  end.
Proof.
  induction s as [|c t IH]; [reflexivity|].
  destruct (strip_prefix FENCE (c :: t)) as [r|] eqn:Ef.
  - rewrite (split_fence_head Ef). exists []. split; [|now left].
    cbn [lazy_group closes]. unfold startswith. rewrite Ef.
    now rewrite orb_true_r.
  - rewrite (split_fence_step Ef).
    assert (Hs : startswith FENCE (c :: t) = false)
      by (unfold startswith; now rewrite Ef).
    cbn [lazy_group closes]. rewrite Hs, orb_false_r.
    destruct (char_eqb c NEWLINE && startswith FENCE t) eqn:Ec.
    + apply andb_true_iff in Ec as [E1 E2]. apply N.eqb_eq in E1. subst c.
      unfold startswith in E2.
      destruct (strip_prefix FENCE t) as [r|] eqn:Et; [|discriminate].
      rewrite (split_fence_head Et). exists []. split; [reflexivity|now right].
    + destruct (split_fence t) as [[b r]|].
      * destruct IH as (g & Hg & Hb). rewrite Hg. exists (c :: g).
        split; [reflexivity|]. destruct Hb as [->|<-]; [now left|now right].
      * now rewrite IH.
Qed.

Lemma lazy_group_strip s b r :
  split_fence s = Some (b, r) ->
  exists g, lazy_group s = Some g /\ strip g = strip b.
Proof.
  intros H. pose proof (lazy_group_split s) as L. rewrite H in L.
  destruct L as (g & Hg & [E|E]); exists g; split; trivial.
  - now rewrite E.
  - rewrite <- E. symmetry. now apply lstrip_app_space.
Qed.

Lemma lazy_group_none s : split_fence s = None -> lazy_group s = None.
Proof.
  intros H. pose proof (lazy_group_split s) as L. now rewrite H in L.
Qed.

Lemma opt_newline_none s : split_fence s = None -> opt_newline s = None.
Proof.
  intros H. unfold opt_newline. destruct s as [|c t].
  - now apply lazy_group_none.
  - rewrite (lazy_group_none H), (lazy_group_none (split_fence_tail H)).
    now destruct (char_eqb c NEWLINE).
Qed.

Lemma spaces_none s : split_fence s = None -> spaces s = None.
Proof.
  induction s as [|c t IH]; intros H; cbn [spaces].
  - now apply opt_newline_none.
  - rewrite (opt_newline_none H), (IH (split_fence_tail H)).
    now destruct (isspace c).
Qed.

Lemma spaces_split s : forall b r,
  split_fence s = Some (b, r) ->
  exists g, spaces s = Some g /\ strip g = strip b.
Proof.
  induction s as [|c t IH]; intros b r H; [discriminate|].
  cbn [spaces]. destruct (isspace c) eqn:Ec.
  - assert (Ef : strip_prefix FENCE (c :: t) = None).
    { unfold FENCE. cbn [strip_prefix]. unfold char_eqb.
      destruct (BACKTICK =? c) eqn:E; trivial.
      apply N.eqb_eq in E. subst c. discriminate Ec. }
    rewrite (split_fence_step Ef) in H.
    destruct (split_fence t) as [[b' r']|] eqn:Et; [|discriminate].
    injection H as <- <-.
    destruct (IH b' r' eq_refl) as (g & Hg & Hs).
    rewrite Hg. exists g. split; trivial.
    now rewrite strip_cons_space.
  - unfold opt_newline.
    assert (En : char_eqb c NEWLINE = false).
    { unfold char_eqb. destruct (c =? NEWLINE) eqn:E; trivial.
      apply N.eqb_eq in E. subst c. discriminate Ec. }
    rewrite En. exact (lazy_group_strip H).
Qed.

Lemma after_tag_none r :
  split_fence (after_tag r) = None -> split_fence r = None.
Proof.
  unfold after_tag. destruct (strip_prefix JSON_TAG r) as [a|] eqn:E; trivial.
  apply strip_prefix_app in E. subst r. intros H. simpl. now rewrite H.
Qed.

Lemma opt_json_split r :
  match split_fence (after_tag r) with
  | Some (b, _) => exists g, opt_json r = Some g /\ strip g = strip b
  | None => opt_json r = None
  end.
Proof.
  destruct (split_fence (after_tag r)) as [[b r']|] eqn:E.
  - unfold opt_json, after_tag in *.
    destruct (strip_prefix JSON_TAG r) as [a|].
    + destruct (spaces_split E) as (g & Hg & Hs). rewrite Hg. now exists g.
    + exact (spaces_split E).
  - pose proof (after_tag_none E) as Hr. unfold opt_json, after_tag in *.
    destruct (strip_prefix JSON_TAG r) as [a|].
    + now rewrite (spaces_none E), (spaces_none Hr).
    + now apply spaces_none.
Qed.

Lemma opt_json_none r : opt_json r = None -> split_fence r = None.
Proof.
  intros H. pose proof (opt_json_split r) as L.
  destruct (split_fence (after_tag r)) as [[b r']|] eqn:E.
  - destruct L as (g & Hg & _). congruence.
  - now apply after_tag_none.
Qed.

Lemma opt_json_no_fence r : split_fence r = None -> opt_json r = None.
Proof.
  intros H. pose proof (opt_json_split r) as L.
  assert (E : split_fence (after_tag r) = None).
  { unfold after_tag. destruct (strip_prefix JSON_TAG r) as [a|] eqn:Ea; trivial.
    apply strip_prefix_app in Ea. subst r. exact (split_fence_skipn 4 H). }
  now rewrite E in L.
Qed.

Lemma strip_prefix_fence_skipn q r :
  strip_prefix FENCE q = Some r -> r = skipn 3 q.
Proof. intros H. apply strip_prefix_app in H. now subst q. Qed.

(** No match starts anywhere in a text that has no fence from its fourth
    character on. *)
Lemma search_none q :
  split_fence (skipn 3 q) = None -> search q = None.
Proof.
  induction q as [|c t IH]; intros H.
  - reflexivity.
  - cbn [search]. unfold match_here.
    destruct (strip_prefix FENCE (c :: t)) as [r|] eqn:Ef.
    + rewrite (strip_prefix_fence_skipn Ef), (opt_json_no_fence H).
      apply IH. change (skipn 3 (c :: t)) with (skipn 2 t) in H.
      apply (split_fence_skipn 1) in H. now rewrite skipn_skipn in H.
    + apply IH. change (skipn 3 (c :: t)) with (skipn 2 t) in H.
      apply (split_fence_skipn 1) in H. now rewrite skipn_skipn in H.
Qed.

(** [re.search] matches at the first fence or nowhere. *)
Lemma search_split s :
  search s = match split_fence s with
             | Some (_, r) => opt_json r
             | None => None
             end.
Proof.
  induction s as [|c t IH]; [reflexivity|].
  cbn [search]. unfold match_here.
  destruct (strip_prefix FENCE (c :: t)) as [r|] eqn:Ef.
  - rewrite (split_fence_head Ef).
    destruct (opt_json r) as [g|] eqn:Eo; trivial.
    apply search_none. apply opt_json_none in Eo.
    apply strip_prefix_app in Ef. injection Ef as _ ->.
    exact (split_fence_skipn 1 Eo).
  - rewrite (split_fence_step Ef), IH.
    now destruct (split_fence t) as [[b r]|].
Qed.

(** The payload both extraction steps parse is the first fenced block,
    without its tag [json], trimmed; or the whole answer trimmed when it
    holds no fenced block. *)
Lemma candidate_first_block raw : candidate raw = candidate_spec raw.
Proof.
  unfold candidate, candidate_spec, fenced_block.
  rewrite search_split.
  destruct (split_fence raw) as [[pre r]|]; trivial.
  pose proof (opt_json_split r) as L.
  destruct (split_fence (after_tag r)) as [[b r']|].
  - destruct L as (g & -> & Hs). exact Hs.
  - now rewrite L.
Qed.

End FenceFacts.

(** ** Tag and checklist extraction *)

Module Extraction.

Import Db Pipeline Props PipelineFacts DbFacts.
Local Open Scope Z_scope.

(** The tag step in terms of the payload it parses. *)
Lemma tag_step_decode_error interp raw :
  payload interp raw = JSONDecodeError ->
  tag_step interp raw
  = TagMetadata [(PStr TAGS_RAW, PStr (candidate_spec raw))].
Proof.
  unfold payload, tag_step. intros ->.
  now rewrite FenceFacts.candidate_first_block.
Qed.

Lemma tag_step_not_list interp raw v :
  payload interp raw = Loaded v \/ payload interp raw = LoadsFloat v ->
  is_list v = false -> tag_step interp raw = TagMetadata [].
Proof.
  unfold payload, tag_step. intros [-> | ->] Hv; destruct v; trivial;
    discriminate.
Qed.

(** Entries that are not objects with both keys are passed over. *)
Lemma fold_tags_skip tag rest metadata :
  (forall d name description,
     tag = PDict d -> dict_get d NAME = Some name ->
     dict_get d DESCRIPTION = Some description -> False) ->
  fold_tags (tag :: rest) metadata = fold_tags rest metadata.
Proof.
  intros H. simpl. destruct tag as [| | | | |d]; trivial.
  destruct (dict_get d NAME) as [name|] eqn:En; trivial.
  destruct (dict_get d DESCRIPTION) as [description|] eqn:Ed; trivial.
  destruct (H d name description eq_refl En Ed).
Qed.

(** The loop over the tags ends without an exception when every [Name]
    is hashable. *)
Lemma fold_tags_hashable tags_array : forall metadata,
  (forall d name, In (PDict d) tags_array ->
     dict_get d NAME = Some name -> hashable name = true) ->
  exists metadata', fold_tags tags_array metadata = Some metadata'.
Proof.
  induction tags_array as [|tag rest IH]; intros metadata H; simpl.
  - now exists metadata.
  - assert (Hrest : forall d name, In (PDict d) rest ->
              dict_get d NAME = Some name -> hashable name = true)
      by (intros d name Hin; apply H; now right).
    destruct tag as [| | | | |d]; try (now apply IH).
    destruct (dict_get d NAME) as [name|] eqn:En; [|now apply IH].
    destruct (dict_get d DESCRIPTION) as [description|]; [|now apply IH].
    unfold setitem. rewrite (H d name (or_introl eq_refl) En).
    now apply IH.
Qed.

(** Equality of keys is an equivalence on hashable values. *)
Lemma key_eqb_refl k : hashable k = true -> key_eqb k k = true.
Proof.
  destruct k as [|[|]|z|s|l|d]; simpl; intros H; trivial; try discriminate.
  - apply Z.eqb_refl.
  - apply str_eqb_refl.
Qed.

Lemma key_eqb_congr a b c :
  key_eqb a b = true -> key_eqb a c = key_eqb b c.
Proof.
  destruct a as [|[|]|x|s|l|d], b as [|[|]|y|t|l'|d'];
    cbn [key_eqb Bool.eqb]; try discriminate; intros H;
    try (apply Z.eqb_eq in H; subst);
    try (apply str_eqb_eq in H; subst);
    destruct c as [|[|]|z|u|l''|d'']; cbn [key_eqb Bool.eqb]; trivial;
    try discriminate.
Qed.

Lemma key_eqb_sym a b : key_eqb a b = key_eqb b a.
Proof.
  destruct a as [|[|]|x|s|l|d], b as [|[|]|y|t|l'|d'];
    cbn [key_eqb Bool.eqb]; trivial; try apply Z.eqb_sym.
  destruct (str_eqb s t) eqn:E.
  - apply str_eqb_eq in E. subst. now rewrite str_eqb_refl.
  - symmetry. apply str_eqb_neq. apply str_eqb_neq in E. congruence.
Qed.

Lemma getitem_setitem d : forall k v k',
  hashable k = true ->
  getitem (setitem_at d k v) k'
  = if key_eqb k k' then Some v else getitem d k'.
Proof.
  induction d as [|[k0 v0] d IH]; intros k v k' Hk; simpl.
  - reflexivity.
  - destruct (key_eqb k0 k) eqn:E; simpl.
    + rewrite (key_eqb_congr k' E). now destruct (key_eqb k k').
    + rewrite IH by exact Hk.
      destruct (key_eqb k0 k') eqn:E'; trivial.
      destruct (key_eqb k k') eqn:E''; trivial.
      rewrite key_eqb_sym in E. rewrite (key_eqb_congr k0 E'') in E.
      rewrite key_eqb_sym in E. congruence.
Qed.

Lemma fold_tags_cons tag rest metadata :
  fold_tags (tag :: rest) metadata
  = match tag_entry tag with
    | Some (name, description) =>
        match setitem metadata name description with
        | Some metadata' => fold_tags rest metadata'
        | None => None
        end
    | None => fold_tags rest metadata
    end.
Proof.
  cbn [fold_tags]. unfold tag_entry.
  destruct tag as [| | | | |d]; trivial.
  destruct (dict_get d NAME), (dict_get d DESCRIPTION); trivial.
Qed.

(** The mapping built from an array: every key reads the [Description] of
    the last entry whose [Name] equals it, and what it read before when no
    entry has that [Name]. *)
Lemma fold_tags_mapping tags_array : forall metadata metadata' k,
  fold_tags tags_array metadata = Some metadata' ->
  getitem metadata' k
  = match find (fun e => key_eqb (fst e) k) (rev (tag_entries tags_array)) with
    | Some e => Some (snd e)
    | None => getitem metadata k
    end.
Proof.
  induction tags_array as [|tag rest IH]; intros md md' k H.
  - injection H as <-. reflexivity.
  - rewrite fold_tags_cons in H. unfold tag_entries in *. cbn [flat_map].
    destruct (tag_entry tag) as [[name description]|].
    + unfold setitem in H.
      destruct (hashable name) eqn:Hn; [|discriminate].
      rewrite (IH _ _ k H). cbn [app rev].
      rewrite StoreUpdate.find_app. cbn [find fst snd].
      destruct (find _ (rev _)); trivial.
      rewrite getitem_setitem by exact Hn.
      now destruct (key_eqb name k).
    + cbn [app]. exact (IH _ _ k H).
Qed.

(** The tag step on an array whose entries have hashable names. *)
Lemma tag_step_mapping interp raw tags_array :
  payload interp raw = Loaded (PList tags_array) ->
  (forall name description,
     In (name, description) (tag_entries tags_array) ->
     hashable name = true) ->
  exists metadata,
    tag_step interp raw = TagMetadata metadata
    /\ forall k,
         getitem metadata k
         = option_map snd
             (find (fun e => key_eqb (fst e) k)
                (rev (tag_entries tags_array))).
Proof.
  intros Hp Hh. unfold payload in Hp. unfold tag_step. rewrite Hp.
  assert (Hf : exists metadata, fold_tags tags_array [] = Some metadata).
  { clear Hp. generalize (@nil (pyval * pyval)).
    induction tags_array as [|tag rest IH]; intros md.
    - now exists md.
    - rewrite fold_tags_cons. unfold tag_entries in Hh. cbn [flat_map] in Hh.
      destruct (tag_entry tag) as [[name description]|].
      + unfold setitem.
        rewrite (Hh name description (or_introl eq_refl)).
        apply IH. intros n d Hin. apply (Hh n d). now right.
      + apply IH. exact Hh. }
  destruct Hf as (metadata & Hf). rewrite Hf. exists metadata.
  split; trivial. intros k. rewrite (fold_tags_mapping k Hf).
  now destruct (find _ _).
Qed.

(** A failure to parse the tags does not stop the run: with the other
    services answering, the checklist is requested, and the run ends in
    Finish when the checklist request is answered and [json.loads] does
    not raise on the answer. *)
Lemma tag_decode_error_proceeds repr env st d raw :
  tag_response env = Some raw ->
  payload (interp env) raw = JSONDecodeError ->
  images env <> None -> vendor_response env <> None ->
  analysis_response env <> None ->
  calls (analyze_datasheet repr env st d)
  = [Vendor; Analysis; Tags; Checkpoints]
  /\ ((exists c, checkpoint_response env = Some c
                 /\ forall e, payload (interp env) c <> LoadsRaises e) ->
      writes (analyze_datasheet repr env st d) = [PROCESSING; FINISH]).
Proof.
  intros Ht Hp Hi Hv Ha. unfold analyze_datasheet.
  rewrite Ht, (tag_step_decode_error Hp).
  destruct (images env); [|contradiction].
  destruct (vendor_response env); [|contradiction].
  destruct (analysis_response env); [|contradiction].
  split.
  - destruct (checkpoint_response env) as [c|]; [|reflexivity].
    destruct (checklist_step repr (interp env) c); reflexivity.
  - intros (c & -> & Hc).
    destruct (checklist_step repr (interp env) c) as [items|e|] eqn:E;
      [reflexivity| |reflexivity].
    apply checklist_step_raises in E. destruct (Hc e E).
Qed.

(** The loop over the tags raises as soon as an entry with both keys has
    a [Name] that is not hashable. *)
Lemma fold_tags_unhashable tags_array name description : forall metadata,
  In (name, description) (tag_entries tags_array) ->
  hashable name = false ->
  fold_tags tags_array metadata = None.
Proof.
  induction tags_array as [|tag rest IH]; intros metadata Hin Hn.
  - destruct Hin.
  - rewrite fold_tags_cons. unfold tag_entries in Hin.
    cbn [flat_map] in Hin.
    destruct (tag_entry tag) as [[name' description']|].
    + unfold setitem. destruct (hashable name') eqn:Hn'; trivial.
      destruct Hin as [[= -> _]|Hin]; [congruence|].
      now apply IH.
    + now apply IH.
Qed.

(** C3, where the code departs from it.  The answer holds a JSON array one
    of whose entries is an object with both [Name] and [Description], the
    [Name] being a list or an object.  The entry is neither folded into the
    mapping nor passed over: the tag step raises [TypeError], which is not
    [JSONDecodeError], so the run is abandoned after the tag request: the
    checklist is never requested, the status goes back to Ready and
    nothing is stored. *)
Theorem tag_unhashable_name_aborts repr env st d raw tags_array name
  description :
  tag_response env = Some raw ->
  payload (interp env) raw = Loaded (PList tags_array)
  \/ payload (interp env) raw = LoadsFloat (PList tags_array) ->
  In (name, description) (tag_entries tags_array) ->
  hashable name = false ->
  images env <> None -> vendor_response env <> None ->
  analysis_response env <> None ->
  tag_step (interp env) raw = TagTypeError
  /\ analyze_datasheet repr env st d
     = {| calls := [Vendor; Analysis; Tags];
          writes := [PROCESSING; READY];
          after := StoreIs st |}.
Proof.
  intros Ht Hp Hin Hn Hi Hv Ha.
  assert (Hs : tag_step (interp env) raw = TagTypeError).
  { unfold payload in Hp. unfold tag_step.
    destruct Hp as [-> | ->];
      now rewrite (fold_tags_unhashable [] Hin Hn). }
  split; [exact Hs|].
  unfold analyze_datasheet. rewrite Ht, Hs.
  destruct (images env); [|contradiction].
  destruct (vendor_response env); [|contradiction].
  destruct (analysis_response env); [|contradiction].
  reflexivity.
Qed.

Lemma tag_unhashable_name_aborts_witness :
  tag_step cpython tags_unhashable = TagTypeError
  /\ analyze_datasheet (fun _ => []) (with_tags env_ok tags_unhashable)
       store_one finished_pdf
     = {| calls := [Vendor; Analysis; Tags];
          writes := [PROCESSING; READY];
          after := StoreIs store_one |}.
Proof.
  eapply (@tag_unhashable_name_aborts (fun _ => [])
            (with_tags env_ok tags_unhashable) store_one finished_pdf
            tags_unhashable).
  - reflexivity.
  - left. vm_compute. reflexivity.
  - vm_compute. left. reflexivity.
  - reflexivity.
  - discriminate.
  - discriminate.
  - discriminate.
Defined.

(** The checklist step in terms of the payload it parses. *)
Lemma checklist_step_payload repr interp raw :
  checklist_step repr interp raw
  = match payload interp raw with
    | Loaded (PList checkpoints_array) =>
        Checklist (map (item_str repr) checkpoints_array)
    | LoadsFloat (PList _) => ChecklistFloat
    | LoadsRaises e => ChecklistRaises e
    | _ => Checklist []
    end.
Proof.
  unfold checklist_step, payload.
  destruct (json_loads interp _) as [[| | | | |]| |[| | | | |]|];
    reflexivity.
Qed.

Lemma checklist_step_not_list repr interp raw :
  payload interp raw = JSONDecodeError
  \/ (exists v, (payload interp raw = Loaded v
                 \/ payload interp raw = LoadsFloat v)
                /\ is_list v = false) ->
  checklist_step repr interp raw = Checklist [].
Proof.
  rewrite checklist_step_payload.
  intros [-> | (v & [-> | ->] & Hv)]; trivial; destruct v; trivial;
    discriminate.
Qed.

(** Saving a record with an empty checklist adds no checkpoint. *)
Lemma save_record_empty_checklist env st fn vendor_code analysis_result
  tags st' :
  save_record env st fn vendor_code analysis_result tags (Checklist [])
  = StoreIs st' ->
  checkpoints st' = checkpoints st.
Proof.
  unfold save_record.
  destruct (file_hash_of env) as [h|]; [|now intros [= <-]].
  destruct tags as [metadata| | |];
    [|now intros [= <-]|now intros [= <-]|discriminate].
  destruct (sqlite_keys metadata) as [items|]; [|now intros [= <-]].
  destruct (insert_analysis st (insert_time env) fn analysis_result
              (Some vendor_code) (Some h) (Some items))
    as [st1 [id|e]] eqn:E.
  - simpl. intros [= <-].
    now apply insert_analysis_ok in E as (_ & _ & _ & Hc).
  - intros [= <-]. apply insert_analysis_raise in E. now subst.
Qed.

(** The checklist step parses the same payload as the tag step (the first
    fenced block without its tag, or the whole answer, trimmed, with
    single quotes turned into double quotes): both steps depend on the
    answer through it alone.  When [json.loads] rejects it with
    [JSONDecodeError] or gives a value that is not an array, the
    checklist is empty, and a run whose other stages succeed goes on: all
    four requests are made, the status ends in Finish, and the store it
    leaves has no new checkpoint. *)
Lemma checklist_decode_error_proceeds repr env st d raw :
  checkpoint_response env = Some raw ->
  ~ run_raises env ->
  payload (interp env) raw = JSONDecodeError
  \/ (exists v, (payload (interp env) raw = Loaded v
                 \/ payload (interp env) raw = LoadsFloat v)
                /\ is_list v = false) ->
  checklist_step repr (interp env) raw = Checklist []
  /\ calls (analyze_datasheet repr env st d)
     = [Vendor; Analysis; Tags; Checkpoints]
  /\ writes (analyze_datasheet repr env st d) = [PROCESSING; FINISH]
  /\ (forall st', after (analyze_datasheet repr env st d) = StoreIs st' ->
        checkpoints st' = checkpoints st)
  /\ (forall interp raw', candidate_spec raw' = candidate_spec raw ->
        checklist_step repr interp raw' = checklist_step repr interp raw
        /\ tag_step interp raw' = tag_step interp raw).
Proof.
  intros Hc Hok Hp.
  pose proof (checklist_step_not_list repr Hp) as Hl.
  split; [exact Hl|].
  destruct (analyze_datasheet_writes repr env st d)
    as [(H1 & _)|(_ & Hw & Hcalls)]; [contradiction|].
  split; [exact Hcalls|]. split; [exact Hw|]. split.
  - assert (Hfailed : forall l st',
              after (failed l st) = StoreIs st' ->
              checkpoints st' = checkpoints st)
      by (intros l st' [= <-]; reflexivity).
    unfold analyze_datasheet. rewrite Hc.
    destruct (images env); [|apply Hfailed].
    destruct (vendor_response env); [|apply Hfailed].
    destruct (analysis_response env); [|apply Hfailed].
    destruct (tag_response env) as [t|]; [|apply Hfailed].
    rewrite Hl.
    destruct (tag_step (interp env) t); try apply Hfailed; simpl;
      intros st' H; exact (save_record_empty_checklist H).
  - intros interp0 raw' E.
    rewrite <- !FenceFacts.candidate_first_block in E.
    unfold checklist_step, tag_step. now rewrite E.
Qed.

(** C7, where the code departs from it.  On the candidate payload of the
    checklist answer [json.loads] raises an exception that is no
    [JSONDecodeError]: [RecursionError] for brackets nested deeper than
    the interpreter has room for, [ValueError] for an integer literal of
    more digits than it converts.  The handler of the checklist step is
    for [JSONDecodeError]: the checklist is not taken as empty, the run is
    abandoned after its four requests, the status goes back to Ready and
    nothing is stored, the record of the analysis included. *)
Theorem checklist_uncaught_exception_aborts repr env st d tags_raw raw e :
  images env <> None -> vendor_response env <> None ->
  analysis_response env <> None ->
  tag_response env = Some tags_raw ->
  (exists metadata, tag_step (interp env) tags_raw = TagMetadata metadata) ->
  checkpoint_response env = Some raw ->
  payload (interp env) raw = LoadsRaises e ->
  checklist_step repr (interp env) raw = ChecklistRaises e
  /\ analyze_datasheet repr env st d
     = {| calls := [Vendor; Analysis; Tags; Checkpoints];
          writes := [PROCESSING; READY];
          after := StoreIs st |}.
Proof.
  intros Hi Hv Ha Ht (metadata & Hm) Hc Hp.
  assert (Hs : checklist_step repr (interp env) raw = ChecklistRaises e)
    by now apply checklist_step_raises.
  split; [exact Hs|].
  unfold analyze_datasheet. rewrite Ht, Hm, Hc, Hs.
  destruct (images env); [|contradiction].
  destruct (vendor_response env); [|contradiction].
  destruct (analysis_response env); [|contradiction].
  reflexivity.
Qed.

Lemma checklist_uncaught_exception_aborts_witness :
  checklist_step (fun _ => []) cpython deep_answer
  = ChecklistRaises RecursionError
  /\ analyze_datasheet (fun _ => []) (with_checkpoints env_ok deep_answer)
       empty_store finished_pdf
     = {| calls := [Vendor; Analysis; Tags; Checkpoints];
          writes := [PROCESSING; READY];
          after := StoreIs empty_store |}.
Proof.
  eapply (@checklist_uncaught_exception_aborts (fun _ => [])
            (with_checkpoints env_ok deep_answer) empty_store finished_pdf
            _ deep_answer RecursionError).
  - discriminate.
  - discriminate.
  - discriminate.
  - reflexivity.
  - eexists. vm_compute. reflexivity.
  - reflexivity.
  - vm_compute. reflexivity.
Defined.

(** The same for an answer that is a bracket and an integer of 4301
    digits, which is no JSON document either: with the limit of 4300
    digits the conversion of the integer raises [ValueError] before the
    reader gets to the missing bracket. *)
Lemma long_integer_raises :
  checklist_step (fun _ => []) cpython long_integer_answer
  = ChecklistRaises IntDigitsError.
Proof. vm_compute. reflexivity. Qed.

End Extraction.

(** ** [json]: what is written is read back *)

Module JsonFacts.

Import Props.
Local Open Scope N_scope.

(** Induction on values, with the induction hypothesis for the members of
    a list and of a dict. *)
Lemma pyval_induction (P : pyval -> Prop) :
  P PNone -> (forall b, P (PBool b)) -> (forall z, P (PInt z)) ->
  (forall s, P (PStr s)) ->
  (forall l, Forall P l -> P (PList l)) ->
  (forall d, Forall (fun kv => P (snd kv)) d -> P (PDict d)) ->
  forall v, P v.
Proof.
  intros HN HB HI HS HL HD.
  fix IH 1. intros [| b | z | s | l | d].
  - exact HN.
  - apply HB.
  - apply HI.
  - apply HS.
  - apply HL. induction l as [|x l IHl]; constructor; [apply IH|exact IHl].
  - apply HD. induction d as [|[k x] d IHd]; constructor;
      [apply IH|exact IHd].
Qed.

(** *** Strings *)

Lemma hexval_hexdigit n : n < 16 -> hexval (hexdigit n) = Some n.
Proof.
  intros H. unfold hexdigit, hexval.
  destruct (n <? 10) eqn:E; [apply N.ltb_lt in E|apply N.ltb_ge in E].
  - replace ((48 <=? 48 + n) && (48 + n <=? 57)) with true.
    + f_equal. lia.
    + symmetry. apply andb_true_iff. split; apply N.leb_le; lia.
  - replace ((48 <=? 87 + n) && (87 + n <=? 57)) with false.
    + replace ((97 <=? 87 + n) && (87 + n <=? 102)) with true.
      * f_equal. lia.
      * symmetry. apply andb_true_iff. split; apply N.leb_le; lia.
    + symmetry. apply andb_false_iff. right. apply N.leb_gt. lia.
Qed.

Lemma hex4_u_escape c :
  c < 65536 ->
  hex4 (hexdigit (c / 4096)) (hexdigit ((c / 256) mod 16))
       (hexdigit ((c / 16) mod 16)) (hexdigit (c mod 16)) = Some c.
Proof.
  intros H. unfold hex4.
  rewrite !hexval_hexdigit;
    try (apply N.mod_lt; discriminate);
    [|apply N.Div0.div_lt_upper_bound; lia].
  f_equal.
  replace (c / 4096) with (c / 16 / 16 / 16)
    by (rewrite !N.Div0.div_div; reflexivity).
  replace (c / 256) with (c / 16 / 16)
    by (rewrite !N.Div0.div_div; reflexivity).
  pose proof (N.div_mod c 16 ltac:(discriminate)) as E1.
  pose proof (N.div_mod (c / 16) 16 ltac:(discriminate)) as E2.
  pose proof (N.div_mod (c / 16 / 16) 16 ltac:(discriminate)) as E3.
  lia.
Qed.

Lemma scanstring_u_lone h1 h2 h3 h4 u t :
  hex4 h1 h2 h3 h4 = Some u -> is_high_surrogate u = false ->
  scanstring (92 :: 117 :: h1 :: h2 :: h3 :: h4 :: t)
  = cons_fst u (scanstring t).
Proof.
  intros H1 H2. cbn [scanstring]. simpl (92 =? 34). simpl (92 =? 92).
  simpl (117 =? 117). cbv iota. now rewrite H1, H2.
Qed.

Lemma scanstring_u_pair h1 h2 h3 h4 g1 g2 g3 g4 hi lo t :
  hex4 h1 h2 h3 h4 = Some hi -> is_high_surrogate hi = true ->
  hex4 g1 g2 g3 g4 = Some lo -> is_low_surrogate lo = true ->
  scanstring (92 :: 117 :: h1 :: h2 :: h3 :: h4
                :: 92 :: 117 :: g1 :: g2 :: g3 :: g4 :: t)
  = cons_fst (join_surrogates hi lo) (scanstring t).
Proof.
  intros H1 H2 H3 H4. cbn [scanstring]. simpl (92 =? 34). simpl (92 =? 92).
  simpl (117 =? 117). cbv iota. rewrite H1, H2. simpl ((92 =? 92) && (117 =? 117)).
  cbv iota. now rewrite H3, H4.
Qed.

Lemma scanstring_plain c t :
  (c =? 34) = false -> (c =? 92) = false -> (c <=? 31) = false ->
  scanstring (c :: t) = cons_fst c (scanstring t).
Proof. intros H1 H2 H3. cbn [scanstring]. now rewrite H1, H2, H3. Qed.

Lemma scanstring_escape c t :
  scalar_char c = true ->
  scanstring (escape_char c ++ t) = cons_fst c (scanstring t).
Proof.
  intros Hc. unfold escape_char.
  destruct (c =? 34) eqn:E1; [apply N.eqb_eq in E1; now subst|].
  destruct (c =? 92) eqn:E2; [apply N.eqb_eq in E2; now subst|].
  destruct (c =? 10) eqn:E3; [apply N.eqb_eq in E3; now subst|].
  destruct (c =? 13) eqn:E4; [apply N.eqb_eq in E4; now subst|].
  destruct (c =? 9) eqn:E5; [apply N.eqb_eq in E5; now subst|].
  destruct (c =? 8) eqn:E6; [apply N.eqb_eq in E6; now subst|].
  destruct (c =? 12) eqn:E7; [apply N.eqb_eq in E7; now subst|].
  destruct ((32 <=? c) && (c <=? 126)) eqn:E8.
  - apply andb_true_iff in E8 as [A B]. apply N.leb_le in A.
    apply scanstring_plain; trivial. apply N.leb_gt. lia.
  - unfold scalar_char in Hc.
    destruct (c <? 65536) eqn:E9; [apply N.ltb_lt in E9|apply N.ltb_ge in E9].
    + unfold u_escape. cbn [app].
      apply scanstring_u_lone; [now apply hex4_u_escape|].
      unfold is_high_surrogate. apply andb_false_iff.
      apply orb_true_iff in Hc as [H|H].
      * apply N.ltb_lt in H. left. apply N.leb_gt. lia.
      * apply andb_true_iff in H as [H _]. apply N.leb_le in H.
        right. apply N.leb_gt. lia.
    + assert (Hlt : c < 1114112).
      { apply orb_true_iff in Hc as [H|H].
        - apply N.ltb_lt in H. lia.
        - apply andb_true_iff in H as [_ H]. now apply N.ltb_lt in H. }
      pose proof (N.div_mod (c - 65536) 1024 ltac:(discriminate)) as Ed.
      pose proof (N.mod_lt (c - 65536) 1024 ltac:(discriminate)) as Em.
      assert (Hq : (c - 65536) / 1024 < 1024)
        by (apply N.Div0.div_lt_upper_bound; lia).
      remember ((c - 65536) / 1024) as q eqn:Eq.
      remember ((c - 65536) mod 1024) as m eqn:Em'.
      clear Eq Em'.
      unfold u_escape. cbn [app].
      rewrite (@scanstring_u_pair _ _ _ _ _ _ _ _ (55296 + q) (56320 + m)).
      * f_equal. unfold join_surrogates. lia.
      * apply hex4_u_escape. lia.
      * unfold is_high_surrogate. apply andb_true_iff.
        split; apply N.leb_le; lia.
      * apply hex4_u_escape. lia.
      * unfold is_low_surrogate. apply andb_true_iff.
        split; apply N.leb_le; lia.
Qed.

Lemma scanstring_encode s : forall rest,
  valid_str s = true ->
  scanstring (flat_map escape_char s ++ 34 :: rest) = Some (s, rest).
Proof.
  induction s as [|c s IH]; intros rest H.
  - reflexivity.
  - simpl in H. apply andb_true_iff in H as [Hc Hs].
    cbn [flat_map]. rewrite <- List.app_assoc.
    rewrite scanstring_escape by exact Hc. rewrite (IH rest Hs). reflexivity.
Qed.

Lemma digits_uint_digits u : digits_uint (uint_digits u) = u.
Proof. induction u; simpl; now f_equal. Qed.

Lemma delimited_not_digit c rest :
  delimited (c :: rest) = true -> isdigit c = false.
Proof.
  unfold delimited, isdigit. intros H.
  apply orb_true_iff in H as [H|H]; [apply orb_true_iff in H as [H|H]|];
    apply N.eqb_eq in H; now subst.
Qed.

Lemma span_digits_uint u rest :
  match rest with [] => True | c :: _ => isdigit c = false end ->
  span_digits (uint_digits u ++ rest) = (uint_digits u, rest).
Proof.
  intros H. induction u; cbn [uint_digits app span_digits];
    try (rewrite IHu; reflexivity).
  destruct rest as [|c rest]; cbn [span_digits]; trivial. now rewrite H.
Qed.

(** The decimal digits of a positive number start with a digit that is
    not zero. *)
Lemma to_uint_head p :
  exists d ds, uint_digits (Pos.to_uint p) = d :: ds
               /\ (49 <=? d) && (d <=? 57) = true.
Proof.
  pose proof (Unsigned.to_uint_nonnil p) as Hnil.
  pose proof (Unsigned.to_of (Pos.to_uint p)) as Hn.
  rewrite Unsigned.of_to in Hn. simpl in Hn.
  destruct (Pos.to_uint p) as [|u|u|u|u|u|u|u|u|u|u] eqn:E;
    try (now eexists _, _; split; [reflexivity|]).
  - contradiction.
  - exfalso. unfold Decimal.unorm in Hn. simpl in Hn.
    destruct (Decimal.nzhead u) eqn:Eu; try discriminate.
    + apply (Unsigned.to_uint_nonzero p). rewrite E.
      injection Hn as <-. reflexivity.
    + injection Hn as <-. exact (nzhead_nonzero _ _ Eu).
Qed.

Lemma delimited_cases rest :
  delimited rest = true ->
  rest = [] \/ exists c r, rest = c :: r /\ (c = 44 \/ c = 93 \/ c = 125).
Proof.
  destruct rest as [|c r]; [now left|]. intros H. right. exists c, r.
  split; trivial. unfold delimited in H.
  apply orb_true_iff in H as [H|H]; [apply orb_true_iff in H as [H|H]|];
    apply N.eqb_eq in H; auto.
Qed.

Lemma match_number_pos p rest :
  delimited rest = true ->
  match_number (uint_digits (Pos.to_uint p) ++ rest)
  = Some (NumInt (Zpos p), rest).
Proof.
  intros Hr.
  destruct (to_uint_head p) as (d & ds & E & Hd).
  assert (Hv : int_of_digits false (d :: ds) = Zpos p).
  { unfold int_of_digits. rewrite <- E, digits_uint_digits.
    unfold N.of_uint. now rewrite Unsigned.of_to. }
  assert (Hspan : span_digits (ds ++ rest) = (ds, rest)).
  { assert (Hs := @span_digits_uint (Pos.to_uint p) rest).
    rewrite E in Hs. cbn [app span_digits] in Hs.
    assert (Hdig : isdigit d = true).
    { unfold isdigit. apply andb_true_iff in Hd as [A B].
      apply N.leb_le in A. rewrite B. rewrite andb_true_r.
      apply N.leb_le. lia. }
    rewrite Hdig in Hs.
    destruct (span_digits (ds ++ rest)) as [a b].
    assert (Hs' : (d :: a, b) = (d :: ds, rest)).
    { apply Hs. destruct rest as [|c r]; trivial.
      eapply delimited_not_digit; exact Hr. }
    now injection Hs' as -> ->. }
  rewrite E. unfold match_number. cbn [app].
  assert (H45 : (d =? 45) = false).
  { apply andb_true_iff in Hd as [A B]. apply N.leb_le in A.
    apply N.eqb_neq. lia. }
  rewrite H45, Hd, Hspan, Hv.
  destruct (delimited_cases Hr) as [->|(c & r & -> & Hc)]; [reflexivity|].
  destruct r as [|f r3]; destruct Hc as [->|[->| ->]]; reflexivity.
Qed.

Lemma match_number_neg p rest :
  delimited rest = true ->
  match_number (45 :: uint_digits (Pos.to_uint p) ++ rest)
  = Some (NumInt (Zneg p), rest).
Proof.
  intros Hr.
  destruct (to_uint_head p) as (d & ds & E & Hd).
  assert (Hv : int_of_digits true (d :: ds) = Zneg p).
  { unfold int_of_digits. rewrite <- E, digits_uint_digits.
    unfold N.of_uint. now rewrite Unsigned.of_to. }
  assert (Hspan : span_digits (ds ++ rest) = (ds, rest)).
  { assert (Hs := @span_digits_uint (Pos.to_uint p) rest).
    rewrite E in Hs. cbn [app span_digits] in Hs.
    assert (Hdig : isdigit d = true).
    { unfold isdigit. apply andb_true_iff in Hd as [A B].
      apply N.leb_le in A. rewrite B. rewrite andb_true_r.
      apply N.leb_le. lia. }
    rewrite Hdig in Hs.
    destruct (span_digits (ds ++ rest)) as [a b].
    assert (Hs' : (d :: a, b) = (d :: ds, rest)).
    { apply Hs. destruct rest as [|c r]; trivial.
      eapply delimited_not_digit; exact Hr. }
    now injection Hs' as -> ->. }
  rewrite E. unfold match_number. cbn [app]. simpl (45 =? 45). cbv iota.
  rewrite Hd, Hspan, Hv.
  destruct (delimited_cases Hr) as [->|(c & r & -> & Hc)]; [reflexivity|].
  destruct r as [|f r3]; destruct Hc as [->|[->| ->]]; reflexivity.
Qed.

Lemma match_number_zero rest :
  delimited rest = true ->
  match_number (48 :: rest) = Some (NumInt 0%Z, rest).
Proof.
  intros Hr.
  destruct (delimited_cases Hr) as [->|(c & r & -> & Hc)]; [reflexivity|].
  destruct r as [|f r3]; destruct Hc as [->|[->| ->]]; reflexivity.
Qed.

(** *** Reading one value *)

Lemma strip_prefix_head a p c t :
  (a =? c) = false -> strip_prefix (a :: p) (c :: t) = None.
Proof. intros H. cbn [strip_prefix]. unfold char_eqb. now rewrite H. Qed.

Section Reader.

Variable interp : interpreter.

(** A text that starts as a number is read by [match_number]. *)
Lemma scan_once_number f room c t :
  isdigit c = true
  \/ (c = 45 /\ exists d t', t = d :: t' /\ isdigit d = true) ->
  scan_once interp (S f) room (c :: t)
  = match match_number (c :: t) with
    | Some (NumInt z, rest) =>
        if exceeds_digits interp z then Raised IntDigitsError
        else Scanned (PInt z, false) rest
    | Some (NumFloat, rest) => Scanned (PNone, true) rest
    | None => Invalid
    end.
Proof.
  intros H.
  assert (Hne : forall a, (a <? 45) || (57 <? a) = true -> (a =? c) = false).
  { intros a Ha. apply N.eqb_neq. intros ->.
    destruct H as [H|[-> _]]; [|discriminate].
    unfold isdigit in H. apply andb_true_iff in H as [A B].
    apply N.leb_le in A, B. apply orb_true_iff in Ha as [Ha|Ha];
      apply N.ltb_lt in Ha; lia. }
  assert (HI : strip_prefix (lit "-Infinity") (c :: t) = None).
  { change (lit "-Infinity") with [45; 73; 110; 102; 105; 110; 105; 116; 121].
    destruct H as [H|(-> & d & t' & -> & Hd)].
    - apply strip_prefix_head. apply N.eqb_neq. intros <-. discriminate.
    - cbn [strip_prefix]. simpl (char_eqb 45 45). cbv iota.
      unfold char_eqb. replace (73 =? d) with false; trivial.
      symmetry. apply N.eqb_neq. intros <-. discriminate. }
  cbn [scan_once].
  rewrite (N.eqb_sym c 34), (Hne 34 eq_refl).
  rewrite (N.eqb_sym c 123), (Hne 123 eq_refl).
  rewrite (N.eqb_sym c 91), (Hne 91 eq_refl).
  change (lit "null") with [110; 117; 108; 108].
  change (lit "true") with [116; 114; 117; 101].
  change (lit "false") with [102; 97; 108; 115; 101].
  change (lit "NaN") with [78; 97; 78].
  change (lit "Infinity") with [73; 110; 102; 105; 110; 105; 116; 121].
  rewrite !strip_prefix_head by (apply Hne; reflexivity).
  rewrite HI. reflexivity.
Qed.

Lemma number_result s z rest :
  exceeds_digits interp z = false ->
  match_number s = Some (NumInt z, rest) ->
  match match_number s with
  | Some (NumInt z, rest) =>
      if exceeds_digits interp z then Raised IntDigitsError
      else Scanned (PInt z, false) rest
  | Some (NumFloat, rest) => Scanned (PNone, true) rest
  | None => Invalid
  end = Scanned (PInt z, false) rest.
Proof. intros Hz ->. now rewrite Hz. Qed.

Lemma scan_int z f room rest :
  exceeds_digits interp z = false ->
  delimited rest = true ->
  scan_once interp (S f) room (str_of_Z z ++ rest)
  = Scanned (PInt z, false) rest.
Proof.
  intros Hz Hr. destruct z as [|p|p]; unfold str_of_Z.
  - cbn [app]. rewrite scan_once_number by now left.
    apply number_result; trivial. now apply match_number_zero.
  - destruct (to_uint_head p) as (d & ds & E & Hd).
    pose proof (match_number_pos p Hr) as M. rewrite E in *.
    cbn [app] in *. rewrite scan_once_number;
      [apply number_result; [exact Hz|exact M]|].
    left. unfold isdigit. apply andb_true_iff in Hd as [A B].
    apply N.leb_le in A. rewrite B, andb_true_r. apply N.leb_le. lia.
  - destruct (to_uint_head p) as (d & ds & E & Hd).
    pose proof (match_number_neg p Hr) as M. rewrite E in *.
    cbn [app] in *. rewrite scan_once_number;
      [apply number_result; [exact Hz|exact M]|].
    right. split; trivial. exists d, (ds ++ rest). split; trivial.
    unfold isdigit. apply andb_true_iff in Hd as [A B].
    apply N.leb_le in A. rewrite B, andb_true_r. apply N.leb_le. lia.
Qed.

Lemma scan_str s f room rest :
  valid_str s = true ->
  scan_once interp (S f) room (encode_str s ++ rest)
  = Scanned (PStr s, false) rest.
Proof.
  intros H. unfold encode_str. cbn [app scan_once]. simpl (34 =? 34).
  cbv iota. rewrite <- List.app_assoc. cbn [app].
  now rewrite scanstring_encode.
Qed.

Lemma json_dumps_opens v rest : opens (json_dumps v ++ rest).
Proof.
  destruct v as [| [|] | z | s | l | d]; cbn [json_dumps];
    try (eexists _, _; split; [reflexivity|]; repeat split; reflexivity).
  destruct z as [|p|p]; unfold str_of_Z.
  - eexists _, _; split; [reflexivity|]; repeat split; reflexivity.
  - destruct (to_uint_head p) as (c & ds & -> & Hd).
    apply andb_true_iff in Hd as [A B]. apply N.leb_le in A, B.
    exists c, (ds ++ rest). split; [reflexivity|].
    unfold is_json_ws. repeat split;
      repeat (apply orb_false_iff; split); apply N.eqb_neq; lia.
  - eexists _, _; split; [reflexivity|]; repeat split; reflexivity.
Qed.

Lemma skip_ws_opens s : opens s -> skip_ws s = s.
Proof. intros (c & t & -> & H & _). cbn [skip_ws]. now rewrite H. Qed.

(** *** Reading the elements of a list *)

Lemma parse_elems_last f room s acc v rest :
  scan_once interp f room s = Scanned (v, false) (93 :: rest) ->
  parse_elems interp (S f) room s acc false
  = Scanned (PList (rev (v :: acc)), false) rest.
Proof. intros H. cbn [parse_elems]. now rewrite H. Qed.

Lemma skip_ws_comma t : skip_ws (44 :: t) = 44 :: t.
Proof. reflexivity. Qed.

Lemma skip_ws_space t : skip_ws (32 :: t) = skip_ws t.
Proof. reflexivity. Qed.

Lemma skip_ws_colon t : skip_ws (58 :: t) = 58 :: t.
Proof. reflexivity. Qed.

Lemma skip_ws_brace t : skip_ws (125 :: t) = 125 :: t.
Proof. reflexivity. Qed.

Lemma parse_elems_more f room s acc v s' :
  scan_once interp f room s = Scanned (v, false) (44 :: 32 :: s') ->
  opens s' ->
  parse_elems interp (S f) room s acc false
  = parse_elems interp f room s' (v :: acc) false.
Proof.
  intros H Ho. cbn [parse_elems]. rewrite H, skip_ws_comma.
  change (44 =? 93) with false. change (44 =? 44) with true. cbv iota.
  now rewrite skip_ws_space, (skip_ws_opens Ho).
Qed.

Lemma join_comma_cons p q r :
  join_comma (p :: q :: r) = p ++ 44 :: 32 :: join_comma (q :: r).
Proof. reflexivity. Qed.

Lemma join_comma_opens (x : pyval) l rest :
  opens (join_comma (map json_dumps (x :: l)) ++ rest).
Proof.
  destruct l as [|y l]; cbn [map].
  - cbn [join_comma]. apply json_dumps_opens.
  - rewrite join_comma_cons, <- List.app_assoc. apply json_dumps_opens.
Qed.

Lemma parse_elems_dumps room l : forall x acc f rest,
  Forall (fun v => forall fuel rest,
            (nodes v <= fuel)%nat -> delimited rest = true ->
            scan_once interp fuel room (json_dumps v ++ rest)
            = Scanned (v, false) rest)
         (x :: l) ->
  (elems_cost (x :: l) <= f)%nat ->
  parse_elems interp f room
    (join_comma (map json_dumps (x :: l)) ++ 93 :: rest) acc false
  = Scanned (PList (rev acc ++ x :: l), false) rest.
Proof.
  induction l as [|y l IH]; intros x acc f rest HF Hf.
  - apply Forall_inv in HF.
    change (elems_cost [x]) with (S (nodes x + 0)) in Hf.
    destruct f as [|f]; [lia|].
    cbn [map join_comma]. erewrite parse_elems_last.
    + cbn [rev]. reflexivity.
    + apply HF; [lia|reflexivity].
  - pose proof (Forall_inv HF) as Hx. apply Forall_inv_tail in HF.
    change (elems_cost (x :: y :: l))
      with (S (nodes x + elems_cost (y :: l))) in Hf.
    destruct f as [|f]; [lia|].
    cbn [map]. rewrite join_comma_cons, <- List.app_assoc. cbn [app].
    erewrite parse_elems_more.
    + change (json_dumps y :: map json_dumps l)
        with (map json_dumps (y :: l)).
      rewrite IH; [|exact HF|lia]. cbn [rev]. now rewrite <- List.app_assoc.
    + apply Hx; [lia|reflexivity].
    + apply (join_comma_opens y l).
Qed.

(** *** Reading the members of a dict *)

Lemma parse_members_key f room k s acc :
  valid_str k = true ->
  parse_members interp (S f) room (encode_str k ++ 58 :: 32 :: s) acc false
  = match scan_once interp f room (skip_ws s) with
    | Scanned (v, fl1) r3 =>
        match skip_ws r3 with
        | c4 :: r4 =>
            if c4 =? 125
            then Scanned (PDict (dict_set acc k v), false || fl1) r4
            else if c4 =? 44
            then parse_members interp f room (skip_ws r4) (dict_set acc k v)
                   (false || fl1)
            else Invalid
        | [] => Invalid
        end
    | Invalid => Invalid
    | Raised e => Raised e
    | Exhausted => Exhausted
    end.
Proof.
  intros Hk. unfold encode_str. cbn [app parse_members]. simpl (34 =? 34).
  cbv iota. rewrite <- List.app_assoc. cbn [app].
  rewrite scanstring_encode by exact Hk.
  rewrite skip_ws_colon. change (58 =? 58) with true. cbv iota.
  now rewrite skip_ws_space.
Qed.

Lemma dict_set_fresh (A : Type) (acc : list (str * A)) k v :
  existsb (fun k' => str_eqb k' k) (map fst acc) = false ->
  dict_set acc k v = acc ++ [(k, v)].
Proof.
  induction acc as [|[k' v'] acc IH]; simpl; trivial.
  intros H. apply orb_false_iff in H as [H1 H2]. rewrite H1.
  now rewrite IH.
Qed.

Lemma distinct_app_fresh (acc : list (str * pyval)) k rest :
  distinct (map fst acc ++ k :: rest) = true ->
  existsb (fun k' => str_eqb k' k) (map fst acc) = false.
Proof.
  induction acc as [|[k' v'] acc IH]; simpl; trivial.
  intros H. apply andb_true_iff in H as [H1 H2].
  rewrite (IH H2), orb_false_r.
  apply negb_true_iff in H1. rewrite existsb_app in H1.
  apply orb_false_iff in H1 as [_ H1]. simpl in H1.
  now apply orb_false_iff in H1 as [H1 _].
Qed.

Lemma members_opens (kv : str * pyval) d rest :
  opens (join_comma (map member_text (kv :: d)) ++ rest).
Proof.
  assert (H : forall t, opens (member_text kv ++ t)).
  { intros t. destruct kv as [k x]. unfold member_text, encode_str.
    eexists _, _. split; [reflexivity|]. repeat split; reflexivity. }
  destruct d as [|kv' d]; cbn [map].
  - cbn [join_comma]. apply H.
  - rewrite join_comma_cons, <- List.app_assoc. apply H.
Qed.

Lemma parse_members_dumps room d : forall kv acc f rest,
  Forall (fun kv => forall fuel rest,
            (nodes (snd kv) <= fuel)%nat -> delimited rest = true ->
            scan_once interp fuel room (json_dumps (snd kv) ++ rest)
            = Scanned (snd kv, false) rest)
         (kv :: d) ->
  forallb (fun kv : str * pyval => valid_str (fst kv)) (kv :: d) = true ->
  distinct (map fst acc ++ map fst (kv :: d)) = true ->
  (members_cost (kv :: d) <= f)%nat ->
  parse_members interp f room
    (join_comma (map member_text (kv :: d)) ++ 125 :: rest) acc false
  = Scanned (PDict (acc ++ kv :: d), false) rest.
Proof.
  induction d as [|kv' d IH]; intros [k x] acc f rest HF Hk Hd Hf.
  - apply Forall_inv in HF. cbn [snd] in HF.
    change (members_cost [(k, x)]) with (S (nodes x + 0)) in Hf.
    destruct f as [|f]; [lia|].
    cbn [forallb fst] in Hk. rewrite andb_true_r in Hk.
    cbn [map join_comma member_text]. rewrite <- !List.app_assoc. cbn [app].
    rewrite parse_members_key by exact Hk.
    rewrite (skip_ws_opens (json_dumps_opens x _)).
    rewrite HF; [|lia|reflexivity].
    rewrite skip_ws_brace. change (125 =? 125) with true. cbv iota.
    cbn [map fst] in Hd.
    now rewrite (dict_set_fresh x (distinct_app_fresh Hd)).
  - pose proof (Forall_inv HF) as Hx. cbn [snd] in Hx.
    apply Forall_inv_tail in HF.
    change (members_cost ((k, x) :: kv' :: d))
      with (S (nodes x + members_cost (kv' :: d))) in Hf.
    destruct f as [|f]; [lia|].
    cbn [forallb fst] in Hk. apply andb_true_iff in Hk as [Hk Hks].
    cbn [map]. rewrite join_comma_cons. cbn [member_text].
    rewrite <- !List.app_assoc. cbn [app].
    rewrite parse_members_key by exact Hk.
    rewrite (skip_ws_opens (json_dumps_opens x _)).
    rewrite Hx; [|lia|reflexivity].
    rewrite skip_ws_comma. change (44 =? 125) with false.
    change (44 =? 44) with true. cbv iota. rewrite skip_ws_space.
    change (member_text kv' :: map member_text d)
      with (map member_text (kv' :: d)).
    rewrite (skip_ws_opens (members_opens kv' d _)).
    cbn [map fst] in Hd.
    rewrite (dict_set_fresh x (distinct_app_fresh Hd)).
    rewrite IH; trivial.
    + now rewrite <- List.app_assoc.
    + rewrite map_app. cbn [map fst]. rewrite <- List.app_assoc. exact Hd.
    + lia.
Qed.

Lemma scan_once_list f room s :
  opens s ->
  scan_once interp (S f) (S room) (91 :: s)
  = parse_elems interp f room s [] false.
Proof.
  intros Ho. cbn [scan_once]. change (91 =? 34) with false.
  change (91 =? 123) with false. change (91 =? 91) with true. cbv iota.
  rewrite (skip_ws_opens Ho). destruct Ho as (c & t & -> & _ & H & _).
  now rewrite H.
Qed.

Lemma scan_once_dict f room s :
  opens s ->
  scan_once interp (S f) (S room) (123 :: s)
  = parse_members interp f room s [] false.
Proof.
  intros Ho. cbn [scan_once]. change (123 =? 34) with false.
  change (123 =? 123) with true. cbv iota.
  rewrite (skip_ws_opens Ho). destruct Ho as (c & t & -> & _ & _ & H).
  now rewrite H.
Qed.

Lemma json_dumps_list l :
  json_dumps (PList l) = 91 :: join_comma (map json_dumps l) ++ [93].
Proof. reflexivity. Qed.

Lemma json_dumps_dict d :
  json_dumps (PDict d) = 123 :: join_comma (map member_text d) ++ [125].
Proof. reflexivity. Qed.

(** Reading what [json_dumps] wrote for a well-formed value that the
    interpreter has room for gives the value back and stops where the
    text stops. *)
Lemma scan_dumps v :
  wf_val v = true ->
  forall room, within interp room v = true ->
  forall fuel rest, (nodes v <= fuel)%nat -> delimited rest = true ->
  scan_once interp fuel room (json_dumps v ++ rest) = Scanned (v, false) rest.
Proof.
  induction v as [| b | z | s | l IH | d IH] using pyval_induction;
    intros Hwf room Hroom fuel rest Hf Hr;
    (destruct fuel as [|f]; [simpl in Hf; lia|]).
  - reflexivity.
  - destruct b; reflexivity.
  - apply scan_int; trivial. cbn [within] in Hroom.
    now apply negb_true_iff in Hroom.
  - now apply scan_str.
  - rewrite json_dumps_list. cbn [app]. rewrite <- List.app_assoc.
    cbn [within] in Hroom. destruct room as [|inner]; [discriminate|].
    destruct l as [|x l]; [reflexivity|].
    rewrite scan_once_list by apply join_comma_opens.
    cbn [app]. rewrite parse_elems_dumps; [reflexivity| |].
    + cbn [wf_val] in Hwf. rewrite Forall_forall in *.
      rewrite forallb_forall in Hwf, Hroom.
      intros v Hv. apply IH; trivial; [now apply Hwf|now apply Hroom].
    + cbn [nodes] in Hf. unfold elems_cost. lia.
  - rewrite json_dumps_dict. cbn [app]. rewrite <- List.app_assoc.
    cbn [within] in Hroom. destruct room as [|inner]; [discriminate|].
    destruct d as [|kv d]; [reflexivity|].
    rewrite scan_once_dict by apply members_opens.
    cbn [wf_val] in Hwf. apply andb_true_iff in Hwf as [Hwf Hd].
    rewrite forallb_forall in Hwf, Hroom.
    cbn [app]. rewrite parse_members_dumps; [reflexivity| | | |].
    + rewrite Forall_forall in *. intros [k x] Hv. cbn [snd].
      specialize (IH _ Hv). cbn [snd] in IH. apply IH.
      * specialize (Hwf _ Hv). cbn in Hwf.
        now apply andb_true_iff in Hwf as [_ Hwf].
      * exact (Hroom _ Hv).
    + apply forallb_forall. intros [k x] Hv. specialize (Hwf _ Hv).
      cbn in Hwf. now apply andb_true_iff in Hwf as [Hwf _].
    + exact Hd.
    + cbn [nodes] in Hf. unfold members_cost. lia.
Qed.

(** *** The fuel [json_loads] gives is enough for what was written *)

Lemma json_dumps_nonempty v : (1 <= List.length (json_dumps v))%nat.
Proof.
  destruct (json_dumps_opens v []) as (c & t & E & _).
  rewrite List.app_nil_r in E. rewrite E. simpl. lia.
Qed.

Lemma elems_cost_length l :
  Forall (fun v => (nodes v <= List.length (json_dumps v))%nat) l ->
  (elems_cost l <= List.length (join_comma (map json_dumps l)) + 1)%nat.
Proof.
  induction l as [|x [|y l] IH]; intros HF.
  - simpl. lia.
  - apply Forall_inv in HF. cbn [map join_comma].
    change (elems_cost [x]) with (S (nodes x + 0)). lia.
  - pose proof (Forall_inv HF) as Hx. apply Forall_inv_tail in HF.
    specialize (IH HF). cbn [map] in *. rewrite join_comma_cons.
    change (elems_cost (x :: y :: l))
      with (S (nodes x + elems_cost (y :: l))).
    rewrite length_app. cbn [List.length]. lia.
Qed.

Lemma members_cost_length d :
  Forall (fun kv : str * pyval =>
            (nodes (snd kv) <= List.length (json_dumps (snd kv)))%nat) d ->
  (members_cost d <= List.length (join_comma (map member_text d)) + 1)%nat.
Proof.
  assert (Hm : forall k x,
             (List.length (json_dumps x)
              <= List.length (member_text (k, x)))%nat).
  { intros k x. unfold member_text. rewrite length_app. simpl. lia. }
  induction d as [|[k x] [|kv d] IH]; intros HF.
  - simpl. lia.
  - apply Forall_inv in HF. cbn [snd] in HF. cbn [map join_comma].
    change (members_cost [(k, x)]) with (S (nodes x + 0)).
    specialize (Hm k x). lia.
  - pose proof (Forall_inv HF) as Hx. cbn [snd] in Hx.
    apply Forall_inv_tail in HF.
    specialize (IH HF). cbn [map] in *. rewrite join_comma_cons.
    change (members_cost ((k, x) :: kv :: d))
      with (S (nodes x + members_cost (kv :: d))).
    rewrite length_app. cbn [List.length]. specialize (Hm k x). lia.
Qed.

Lemma nodes_length v : (nodes v <= List.length (json_dumps v))%nat.
Proof.
  induction v as [| b | z | s | l IH | d IH] using pyval_induction;
    try apply json_dumps_nonempty.
  - rewrite json_dumps_list. cbn [List.length nodes].
    rewrite length_app. cbn [List.length].
    pose proof (elems_cost_length IH) as H. unfold elems_cost in H. lia.
  - rewrite json_dumps_dict. cbn [List.length nodes].
    rewrite length_app. cbn [List.length].
    pose proof (members_cost_length IH) as H. unfold members_cost in H. lia.
Qed.

(** [json.loads(json.dumps(v))] is [v] for a value of scalar strings and
    distinct keys that the interpreter has room for. *)
Lemma json_loads_dumps v :
  wf_val v = true -> readable interp v = true ->
  json_loads interp (json_dumps v) = Loaded v.
Proof.
  intros Hwf Hr. unfold json_loads.
  pose proof (json_dumps_opens v []) as Ho. rewrite List.app_nil_r in Ho.
  rewrite (skip_ws_opens Ho).
  pose proof (@scan_dumps v Hwf (max_nesting interp) Hr
                (2 * List.length (json_dumps v) + 1) []) as H.
  rewrite List.app_nil_r in H. rewrite H; trivial.
  pose proof (nodes_length v). lia.
Qed.

End Reader.


End JsonFacts.

Module JsonFuel.

Import Props JsonFacts.
Local Open Scope nat_scope.

(** *** The fuel [json_loads] gives is enough for every text *)

Ltac break_match :=
  match goal with
  | |- context [match ?x with _ => _ end] => destruct x eqn:?
  end.

Lemma skip_ws_length s : List.length (skip_ws s) <= List.length s.
Proof.
  induction s as [|c s IH]; cbn [skip_ws]; trivial.
  destruct (is_json_ws c); simpl; lia.
Qed.

Lemma strip_prefix_length p s r :
  strip_prefix p s = Some r -> List.length s = List.length p + List.length r.
Proof.
  intros H. apply FenceFacts.strip_prefix_app in H. subst s.
  apply length_app.
Qed.

Lemma cons_fst_some c X x r :
  cons_fst c X = Some (x, r) -> exists x', X = Some (x', r).
Proof.
  unfold cons_fst. destruct X as [[x' r']|]; [|discriminate].
  intros [= _ <-]. now exists x'.
Qed.

Lemma scanstring_length n : forall s x r,
  List.length s <= n -> scanstring s = Some (x, r) ->
  List.length r < List.length s.
Proof.
  induction n as [|n IH]; intros s x r Hn H.
  - destruct s; [discriminate|simpl in Hn; lia].
  - destruct s as [|c s]; [discriminate|]. cbn [scanstring] in H.
    simpl in Hn.
    assert (Hrec : forall t c', List.length t <= List.length s ->
              cons_fst c' (scanstring t) = Some (x, r) ->
              List.length r < S (List.length t)).
    { intros t c' Ht Hc. apply cons_fst_some in Hc as (x' & Hc).
      apply IH in Hc; lia. }
    revert H. repeat break_match; intros H; try discriminate;
      try (injection H as <- <-; simpl; lia);
      subst;
      match goal with
      | H : cons_fst _ (scanstring ?t) = Some _ |- _ =>
          apply (Hrec t) in H; cbn [List.length] in *; lia
      end.
Qed.

Lemma span_digits_length s :
  List.length (snd (span_digits s)) <= List.length s.
Proof.
  induction s as [|c s IH]; cbn [span_digits]; trivial.
  destruct (isdigit c); [|simpl; lia].
  destruct (span_digits s) as [ds rest]. simpl in *. lia.
Qed.

Ltac break_step :=
  match goal with
  | H : (_, _) = (_, _) |- _ => injection H as ? ?; subst
  | H : Some _ = Some _ |- _ => injection H as ?; subst
  | H : None = Some _ |- _ => discriminate H
  | H : context [match ?x with _ => _ end] |- _ => destruct x eqn:?
  | H : context [if ?x then _ else _] |- _ => destruct x eqn:?
  | |- context [match ?x with _ => _ end] => destruct x eqn:?
  end.

Ltac span_facts :=
  repeat match goal with
         | E : span_digits ?t = (_, _) |- _ =>
             let L := fresh "L" in
             assert (L := span_digits_length t); rewrite E in L;
             cbn [snd] in L; clear E
         | E : snd (span_digits ?t) = _ |- _ =>
             let L := fresh "L" in
             assert (L := span_digits_length t); rewrite E in L; clear E
         | |- context [snd (span_digits ?t)] =>
             let L := fresh "L" in
             assert (L := span_digits_length t); revert L;
             generalize (snd (span_digits t)); intros ? L
         end.

Lemma match_number_length s x r :
  match_number s = Some (x, r) -> List.length r < List.length s.
Proof.
  unfold match_number. intros H.
  repeat break_step; try discriminate; span_facts;
    cbn [List.length] in *; lia.
Qed.

Ltac length_facts :=
  repeat match goal with
         | E : scanstring ?t = Some (_, _) |- _ =>
             apply (@scanstring_length (List.length t) t _ _ (le_n _)) in E
         | E : match_number ?t = Some (_, _) |- _ =>
             apply match_number_length in E
         | E : strip_prefix ?p ?t = Some _ |- _ =>
             apply strip_prefix_length in E
         | E : skip_ws ?t = _ |- _ =>
             let L := fresh "L" in
             assert (L := skip_ws_length t); rewrite E in L; clear E
         end.

Section Reader.

Variable interp : interpreter.

(** A value that is read leaves less text than there was. *)
Lemma scan_shorter f :
  (forall room s a r, scan_once interp f room s = Scanned a r ->
                      List.length r < List.length s)
  /\ (forall room s acc fl a r,
        parse_elems interp f room s acc fl = Scanned a r ->
        List.length r < List.length s)
  /\ (forall room s acc fl a r,
        parse_members interp f room s acc fl = Scanned a r ->
        List.length r < List.length s).
Proof.
  induction f as [|f (I1 & I2 & I3)].
  - repeat split; intros; discriminate.
  - split; [|split].
    + intros room s a r H. cbn [scan_once] in H.
      repeat break_step; try discriminate;
        repeat match goal with
               | E : parse_elems interp f _ _ _ _ = Scanned _ _ |- _ =>
                   apply I2 in E
               | E : parse_members interp f _ _ _ _ = Scanned _ _ |- _ =>
                   apply I3 in E
               | E : Scanned _ _ = Scanned _ _ |- _ =>
                   injection E as ? ?; subst
               end;
        length_facts; cbn [List.length lit] in *; lia.
    + intros room s acc fl a r H. cbn [parse_elems] in H.
      repeat break_step; try discriminate;
        repeat match goal with
               | E : scan_once interp f _ _ = Scanned _ _ |- _ =>
                   apply I1 in E
               | E : parse_elems interp f _ (skip_ws ?u) _ _ = Scanned _ _
                 |- _ =>
                   apply I2 in E; pose proof (skip_ws_length u)
               | E : Scanned _ _ = Scanned _ _ |- _ =>
                   injection E as ? ?; subst
               end;
        length_facts; cbn [List.length] in *; lia.
    + intros room s acc fl a r H. cbn [parse_members] in H.
      repeat break_step; try discriminate;
        repeat match goal with
               | E : scan_once interp f _ (skip_ws ?u) = Scanned _ _ |- _ =>
                   apply I1 in E; pose proof (skip_ws_length u)
               | E : parse_members interp f _ (skip_ws ?u) _ _ = Scanned _ _
                 |- _ =>
                   apply I3 in E; pose proof (skip_ws_length u)
               | E : Scanned _ _ = Scanned _ _ |- _ =>
                   injection E as ? ?; subst
               end;
        length_facts; cbn [List.length] in *; lia.
Qed.

Ltac shorter_facts f :=
  repeat match goal with
         | E : scan_once interp f _ (skip_ws ?u) = Scanned _ _ |- _ =>
             apply (proj1 (scan_shorter f)) in E;
             pose proof (skip_ws_length u)
         | E : scan_once interp f _ _ = Scanned _ _ |- _ =>
             apply (proj1 (scan_shorter f)) in E
         end.

(** The reader does not run out of fuel when given twice the length of
    the text. *)
Lemma scan_fuel f :
  (forall room s, 2 * List.length s < f ->
                  scan_once interp f room s <> Exhausted)
  /\ (forall room s acc fl, 2 * List.length s + 1 < f ->
                            parse_elems interp f room s acc fl <> Exhausted)
  /\ (forall room s acc fl, 2 * List.length s + 1 < f ->
                            parse_members interp f room s acc fl
                            <> Exhausted).
Proof.
  induction f as [|f (I1 & I2 & I3)].
  - repeat split; intros; lia.
  - split; [|split].
    + intros room s Hs H. cbn [scan_once] in H.
      repeat break_step; try discriminate;
        match goal with
        | E : parse_elems interp f _ ?t _ _ = Exhausted |- _ =>
            apply I2 in E; [exact E|]
        | E : parse_members interp f _ ?t _ _ = Exhausted |- _ =>
            apply I3 in E; [exact E|]
        end;
        length_facts; cbn [List.length] in *; lia.
    + intros room s acc fl Hs H. cbn [parse_elems] in H.
      repeat break_step; try discriminate;
        match goal with
        | E : parse_elems interp f _ (skip_ws ?u) _ _ = Exhausted |- _ =>
            apply I2 in E; [exact E|]; pose proof (skip_ws_length u)
        | E : scan_once interp f _ ?t = Exhausted |- _ =>
            apply I1 in E; [exact E|]
        end;
        shorter_facts f; length_facts; cbn [List.length] in *; lia.
    + intros room s acc fl Hs H. cbn [parse_members] in H.
      repeat break_step; try discriminate;
        match goal with
        | E : parse_members interp f _ (skip_ws ?u) _ _ = Exhausted |- _ =>
            apply I3 in E; [exact E|]; pose proof (skip_ws_length u)
        | E : scan_once interp f _ (skip_ws ?u) = Exhausted |- _ =>
            apply I1 in E; [exact E|]; pose proof (skip_ws_length u)
        end;
        shorter_facts f; length_facts; cbn [List.length] in *; lia.
Qed.

(** [json_loads] never stops for lack of fuel: where it answers
    [JSONDecodeError] the reader found the text invalid or found text
    after the value. *)
Lemma loads_fuel s :
  scan_once interp (2 * List.length s + 1) (max_nesting interp) (skip_ws s)
  <> Exhausted.
Proof.
  apply (proj1 (scan_fuel _)). pose proof (skip_ws_length s). lia.
Qed.

End Reader.

End JsonFuel.

(** ** Metadata: what is stored is read back *)

Module MetadataRoundTrip.

Import Db Props DbFacts JsonFacts.
Local Open Scope Z_scope.

Lemma str_eqb_sym a b : str_eqb a b = str_eqb b a.
Proof.
  destruct (str_eqb a b) eqn:E.
  - apply str_eqb_eq in E. subst. now rewrite str_eqb_refl.
  - symmetry. apply str_eqb_neq. apply str_eqb_neq in E. congruence.
Qed.

Lemma dict_get_set (A : Type) (d : list (str * A)) k v k' :
  dict_get (dict_set d k v) k'
  = if str_eqb k k' then Some v else dict_get d k'.
Proof.
  induction d as [|[k0 v0] d IH]; simpl.
  - reflexivity.
  - destruct (str_eqb k0 k) eqn:E; simpl.
    + apply str_eqb_eq in E. subst k0. now destruct (str_eqb k k').
    + rewrite IH. destruct (str_eqb k0 k') eqn:E'; trivial.
      apply str_eqb_eq in E'. subst k0. now rewrite (str_eqb_sym k k'), E.
Qed.

(** *** The mapping [get_metadata] returns and the values of its loop *)

Lemma dict_set_lift d k f :
  dict_set (map lift d) k (Decoded f) = map lift (dict_set d k f).
Proof.
  induction d as [|[k0 f0] d IH]; cbn [map dict_set lift fst snd]; trivial.
  destruct (str_eqb k0 k); cbn [map lift fst snd]; trivial.
  now rewrite <- IH.
Qed.

Lemma dict_get_lift d k :
  dict_get (map lift d) k = option_map Decoded (dict_get d k).
Proof.
  induction d as [|[k0 f0] d IH]; cbn [map dict_get lift fst snd]; trivial.
  now destruct (str_eqb k0 k).
Qed.

Lemma decode_rows_fold interp rows : forall acc d,
  decode_rows interp rows acc = Some d ->
  fold_left (fun m r => dict_set m (m_key r)
                          (decode_value interp (m_value r)))
    rows (map lift acc)
  = map lift d.
Proof.
  induction rows as [|r rows IH]; intros acc d H; cbn [decode_rows] in H.
  - now injection H as <-.
  - cbn [fold_left].
    destruct (decode_value interp (m_value r)) as [f|e]; [|discriminate].
    rewrite dict_set_lift. now apply IH.
Qed.

(** The mapping [get_metadata] returns holds, for each key, what its loop
    made of the value held for the key. *)
Lemma get_metadata_fetch interp st did d k :
  get_metadata interp st did = Some d ->
  fetch interp st did k = option_map Decoded (dict_get d k).
Proof.
  unfold get_metadata, fetch. intros H.
  destruct (in_int64 did); [|discriminate].
  apply decode_rows_fold in H. cbn [map] in H.
  now rewrite H, dict_get_lift.
Qed.

Lemma decode_rows_none interp rows : forall acc,
  decode_rows interp rows acc = None
  <-> exists r e, In r rows
                  /\ decode_value interp (m_value r) = DecodeRaises e.
Proof.
  induction rows as [|r rows IH]; intros acc; cbn [decode_rows].
  - split; [discriminate|]. intros (r & e & [] & _).
  - destruct (decode_value interp (m_value r)) as [f|e] eqn:E.
    + rewrite IH. split.
      * intros (r' & e' & Hin & H). exists r', e'. split; [now right|exact H].
      * intros (r' & e' & [<-|Hin] & H); [congruence|]. now exists r', e'.
    + split; trivial. intros _. exists r, e. split; [now left|exact E].
Qed.

(** [get_metadata] raises exactly when the id is no 64-bit integer or a
    value of the record makes [json.loads] raise an exception that is no
    [JSONDecodeError]. *)
Lemma get_metadata_none interp st did :
  get_metadata interp st did = None
  <-> in_int64 did = false \/ decode_raises interp st did.
Proof.
  unfold get_metadata, decode_raises.
  destruct (in_int64 did); [|split; auto].
  rewrite decode_rows_none. split.
  - intros (r & e & Hin & H). apply filter_In in Hin as [Hin Hd].
    apply Z.eqb_eq in Hd. right. now exists r, e.
  - intros [H|(r & e & Hin & Hd & H)]; [discriminate|].
    exists r, e. split; trivial.
    apply filter_In. split; trivial. now apply Z.eqb_eq.
Qed.

Lemma get_metadata_returns interp st did :
  in_int64 did = true -> ~ decode_raises interp st did ->
  exists d, get_metadata interp st did = Some d.
Proof.
  intros Hid H. destruct (get_metadata interp st did) as [d|] eqn:E;
    [now exists d|].
  apply get_metadata_none in E as [E|E]; [congruence|contradiction].
Qed.

(** Reading after one row was inserted. *)
Lemma insert_metadata_row_fetch interp txn did k text txn' did' k' :
  insert_metadata_row txn did k text = Some txn' ->
  fetch interp txn' did' k'
  = if (did' =? did) && str_eqb k k'
    then Some (decode_value interp (Some text))
    else fetch interp txn did' k'.
Proof.
  unfold insert_metadata_row.
  destruct (existsb _ _); [discriminate|]. intros [= <-].
  unfold fetch. cbn [metadata]. rewrite filter_app.
  cbn [filter m_datasheet_id]. rewrite Z.eqb_sym.
  destruct (did' =? did); cbn [andb].
  - rewrite fold_left_app. cbn [fold_left m_key m_value].
    now rewrite dict_get_set.
  - now rewrite List.app_nil_r.
Qed.

Lemma insert_metadata_row_grows txn did k text txn' :
  insert_metadata_row txn did k text = Some txn' ->
  (existsb (metadata_conflict did k) (metadata txn) = false)
  /\ forall did' k',
       existsb (metadata_conflict did' k') (metadata txn) = true ->
       existsb (metadata_conflict did' k') (metadata txn') = true.
Proof.
  unfold insert_metadata_row.
  destruct (existsb _ _) eqn:E; [discriminate|]. intros [= <-].
  split; trivial. intros did' k' H. cbn [metadata].
  now rewrite existsb_app, H.
Qed.

Lemma insert_metadata_row_present txn did k text txn' :
  insert_metadata_row txn did k text = Some txn' ->
  existsb (metadata_conflict did k) (metadata txn') = true.
Proof.
  unfold insert_metadata_row.
  destruct (existsb _ _) eqn:E; [discriminate|]. intros [= <-].
  cbn [metadata]. rewrite existsb_app. cbn [existsb].
  unfold metadata_conflict at 2. cbn [m_datasheet_id m_key].
  now rewrite Z.eqb_refl, str_eqb_refl, orb_true_r.
Qed.

(** A key that has a row keeps what it reads through the later inserts of
    a successful call: none of them can be for that key. *)
Lemma insert_metadata_rows_keep interp items : forall txn did txn' k,
  insert_metadata_rows txn did items = Some txn' ->
  existsb (metadata_conflict did k) (metadata txn) = true ->
  fetch interp txn' did k = fetch interp txn did k.
Proof.
  induction items as [|[k0 v0] items IH]; intros txn did txn' k H Hk;
    cbn [insert_metadata_rows] in H.
  - now injection H as <-.
  - destruct (insert_metadata_row txn did k0 (value_text v0)) as [t|] eqn:E;
      [|discriminate].
    destruct (insert_metadata_row_grows E) as [Hfree Hgrow].
    rewrite (IH _ _ _ _ H (Hgrow _ _ Hk)).
    rewrite (insert_metadata_row_fetch interp _ _ E), Z.eqb_refl.
    cbn [andb].
    destruct (str_eqb k0 k) eqn:E0; trivial.
    apply str_eqb_eq in E0. subst k0. congruence.
Qed.

Lemma insert_metadata_rows_fetch interp items : forall txn did txn' k v,
  insert_metadata_rows txn did items = Some txn' ->
  In (k, v) items ->
  fetch interp txn' did k = Some (decode_value interp (Some (value_text v))).
Proof.
  induction items as [|[k0 v0] items IH]; intros txn did txn' k v H Hin;
    [destruct Hin|].
  cbn [insert_metadata_rows] in H.
  destruct (insert_metadata_row txn did k0 (value_text v0)) as [t|] eqn:E;
    [|discriminate].
  destruct Hin as [[= -> ->]|Hin].
  - rewrite (insert_metadata_rows_keep interp H
               (insert_metadata_row_present E)).
    rewrite (insert_metadata_row_fetch interp _ _ E), Z.eqb_refl,
      str_eqb_refl.
    reflexivity.
  - exact (IH _ _ _ _ _ H Hin).
Qed.

Lemma insert_analysis_fetch interp st now fn text vc h items st' id k v :
  insert_analysis st now fn text vc h (Some items) = (st', Ok id) ->
  In (k, v) items ->
  fetch interp st' id k = Some (decode_value interp (Some (value_text v))).
Proof.
  unfold insert_analysis.
  destruct (insert_analysis_row st now fn text vc h) as [[txn did]|];
    [|discriminate].
  destruct (insert_metadata_rows txn did items) as [txn'|] eqn:E;
    [|discriminate].
  intros [= <- <-]. exact (insert_metadata_rows_fetch interp E).
Qed.

(** C5, as amended. After a successful [insert_analysis], [get_metadata]
    returns a mapping for the id (a 64-bit integer) when [json.loads]
    raises nothing but [JSONDecodeError] on the values of the record, and
    the mapping holds for every supplied key what [json.loads] makes of
    the text that was written for its value, and the text itself where
    [json.loads] rejects it with [JSONDecodeError].  So a list or dict made of None, booleans,
    integers, strings of Unicode scalar values, lists, and dicts with
    distinct string keys, which the interpreter has room for, reads back
    equal to what was stored; a string that [json.loads] rejects reads
    back as the same string; an integer within the digits the interpreter
    converts reads back as that integer; None and the booleans read back
    as the strings None, True and False. *)
Theorem metadata_round_trip interp st now fn text vc h items st' id :
  insert_analysis st now fn text vc h (Some items) = (st', Ok id) ->
  (in_int64 id = true -> ~ decode_raises interp st' id ->
   exists d, get_metadata interp st' id = Some d)
  /\ forall d k v,
       get_metadata interp st' id = Some d -> In (k, v) items ->
       (exists f, decode_value interp (Some (value_text v)) = Decoded f
                  /\ dict_get d k = Some f)
       /\ (is_list v || is_dict v = true -> wf_val v = true ->
           readable interp v = true ->
           dict_get d k = Some (Value v))
       /\ (forall s, v = PStr s -> json_loads interp s = JSONDecodeError ->
           dict_get d k = Some (Value (PStr s)))
       /\ (forall z, v = PInt z -> exceeds_digits interp z = false ->
           dict_get d k = Some (Value (PInt z)))
       /\ (v = PNone -> dict_get d k = Some (Value (PStr (lit "None"))))
       /\ (forall b, v = PBool b ->
           dict_get d k
           = Some (Value (PStr (if b then lit "True" else lit "False")))).
Proof.
  intros Hins. split; [apply get_metadata_returns|].
  intros d k v Hd Hin.
  pose proof (insert_analysis_fetch interp Hins Hin) as F.
  rewrite (get_metadata_fetch k Hd) in F.
  destruct (dict_get d k) as [f|]; [|discriminate].
  injection F as F.
  split; [now exists f|]. split; [|split; [|split; [|split]]].
  - intros Hc Hwf Hr.
    assert (Ht : value_text v = json_dumps v)
      by (destruct v; try discriminate; reflexivity).
    rewrite Ht in F. unfold decode_value in F.
    rewrite json_loads_dumps in F by trivial. cbv iota in F. congruence.
  - intros s -> Hs. unfold decode_value, value_text in F. cbn [py_str] in F.
    rewrite Hs in F. congruence.
  - intros z -> Hz. unfold decode_value in F.
    change (value_text (PInt z)) with (json_dumps (PInt z)) in F.
    rewrite json_loads_dumps in F; [cbv iota in F; congruence|reflexivity|].
    unfold readable. cbn [within]. now rewrite Hz.
  - intros ->. vm_compute in F. injection F as ->. reflexivity.
  - intros [|] ->; vm_compute in F; injection F as ->; reflexivity.
Qed.

Lemma metadata_round_trip_witness :
  exists d,
    get_metadata cpython
      (fst (insert_analysis empty_store 100 a_pdf (lit "report") None None
              (Some [(lit "pins", pins); (lit "maker", PStr (lit "TI"))])))
      1 = Some d
    /\ dict_get d (lit "pins") = Some (Value pins)
    /\ dict_get d (lit "maker") = Some (Value (PStr (lit "TI"))).
Proof.
  destruct (@metadata_round_trip cpython empty_store 100 a_pdf (lit "report")
              None None [(lit "pins", pins); (lit "maker", PStr (lit "TI"))]
              _ 1 eq_refl) as (_ & H).
  eexists. split; [vm_compute; reflexivity|]. split.
  - refine (proj1 (proj2 (H _ (lit "pins") pins _ (or_introl eq_refl)))
              eq_refl eq_refl eq_refl).
    vm_compute. reflexivity.
  - refine (proj1 (proj2 (proj2 (H _ (lit "maker") (PStr (lit "TI")) _
                                   (or_intror (or_introl eq_refl)))))
              (lit "TI") eq_refl eq_refl).
    vm_compute. reflexivity.
Defined.

(** A scalar over the limits of the interpreter is not read back at all:
    with a string of 4301 digits among its values, [get_metadata] raises
    for the record. *)
Lemma long_scalar_not_read_back :
  get_metadata cpython
    (fst (insert_analysis empty_store 100 a_pdf (lit "report") None None
            (Some [(lit "maker", PStr (lit "TI"));
                   (lit "serial", PStr (repeat 49%N 4301))])))
    1 = None.
Proof. vm_compute. reflexivity. Qed.

(** C5 as stated fails: the string 123 stored as a scalar reads back as
    the integer 123. *)
Lemma scalar_digits_read_back_as_int : ~ scalar_reads_back.
Proof.
  intros H.
  destruct (H cpython empty_store 100 a_pdf (lit "report") None None
              [(lit "rev", PStr (lit "123"))] _ 1 (lit "rev") (lit "123")
              eq_refl (or_introl eq_refl)) as (d & Hd & Hk).
  vm_compute in Hd. injection Hd as <-. vm_compute in Hk. discriminate Hk.
Qed.

End MetadataRoundTrip.

(* ===================================================================== *)
(** * Properties of the listings, the checkpoints and the file list *)
(* ===================================================================== *)

Module OrderFacts.

Import Queries.

Section OrderBy.

Variable A : Type.
Variable before : A -> A -> bool.

Lemma insert_row_perm x l : Permutation (insert_row before x l) (x :: l).
Proof.
  induction l as [|y l IH]; simpl; [apply Permutation_refl|].
  destruct (before x y); [apply Permutation_refl|].
  apply perm_trans with (y :: x :: l); [now apply perm_skip|apply perm_swap].
Qed.

Lemma order_by_perm l : Permutation (order_by before l) l.
Proof.
  induction l as [|x l IH]; simpl; [apply perm_nil|].
  apply perm_trans with (x :: order_by before l);
    [apply insert_row_perm|now apply perm_skip].
Qed.

Lemma order_by_In l x : In x (order_by before l) <-> In x l.
Proof.
  split; apply Permutation_in;
    [apply order_by_perm|apply Permutation_sym, order_by_perm].
Qed.

Lemma order_by_length l : List.length (order_by before l) = List.length l.
Proof. apply Permutation_length, order_by_perm. Qed.

Hypothesis before_total : forall a b, before a b = false -> before b a = true.
Hypothesis before_trans :
  forall a b c, before a b = true -> before b c = true -> before a c = true.

Lemma insert_row_sorted x l :
  StronglySorted (fun a b => before a b = true) l ->
  StronglySorted (fun a b => before a b = true) (insert_row before x l).
Proof.
  induction 1 as [|y l Hs IH Hy]; simpl.
  - constructor; constructor.
  - destruct (before x y) eqn:E.
    + constructor; [now constructor|].
      constructor; trivial.
      rewrite Forall_forall in *. intros z Hz.
      apply before_trans with y; auto.
    + constructor; trivial.
      rewrite Forall_forall in *. intros z Hz.
      apply (Permutation_in _ (insert_row_perm x l)) in Hz.
      destruct Hz as [<-|Hz]; auto.
Qed.

Lemma order_by_sorted l :
  StronglySorted (fun a b => before a b = true) (order_by before l).
Proof.
  induction l as [|x l IH]; simpl; [constructor|].
  now apply insert_row_sorted.
Qed.

(** Positions of a sorted list. *)
Lemma sorted_nth l :
  StronglySorted (fun a b => before a b = true) l ->
  forall i j a b, (i < j)%nat ->
    nth_error l i = Some a -> nth_error l j = Some b -> before a b = true.
Proof.
  induction 1 as [|x l Hs IH Hx]; intros i j a b Hij Hi Hj.
  - destruct i; discriminate.
  - destruct j as [|j]; [lia|]. simpl in Hj.
    destruct i as [|i]; simpl in Hi.
    + injection Hi as <-. rewrite Forall_forall in Hx.
      apply Hx. eapply nth_error_In; eassumption.
    + apply (IH i j); trivial. lia.
Qed.

End OrderBy.

(** A list in order already is left as it is. *)
Lemma order_by_fixed (A : Type) (before : A -> A -> bool) l :
  StronglySorted (fun a b => before a b = true) l -> order_by before l = l.
Proof.
  induction 1 as [|x l Hs IH Hx]; simpl; trivial.
  rewrite IH. destruct l as [|y l]; trivial. simpl.
  inversion Hx as [|? ? Hy _]; subst. now rewrite Hy.
Qed.

Lemma filter_filter (A : Type) (f g : A -> bool) l :
  filter f (filter g l) = filter (fun x => f x && g x) l.
Proof.
  induction l as [|x l IH]; simpl; trivial.
  destruct (g x); simpl; [destruct (f x)|rewrite andb_false_r];
    simpl; now rewrite IH.
Qed.

Lemma filter_all (A : Type) (f : A -> bool) l :
  (forall x, In x l -> f x = true) -> filter f l = l.
Proof.
  induction l as [|x l IH]; simpl; intros H; trivial.
  rewrite (H x (or_introl eq_refl)), IH; trivial. intros; apply H; now right.
Qed.

Lemma filter_none (A : Type) (f : A -> bool) l :
  (forall x, In x l -> f x = false) -> filter f l = [].
Proof.
  induction l as [|x l IH]; simpl; intros H; trivial.
  rewrite (H x (or_introl eq_refl)), IH; trivial. intros; apply H; now right.
Qed.


End OrderFacts.

Module RowIds.

Import Db.
Local Open Scope Z_scope.

(** The rowid of a new row is above every rowid of the table. *)
Lemma next_id_above seq ids i : In i ids -> i < next_id seq ids.
Proof.
  unfold next_id. induction ids as [|x ids IH]; simpl; [tauto|].
  intros [->|H]; [lia|]. specialize (IH H). lia.
Qed.

Lemma next_id_above_seq seq ids : seq < next_id seq ids.
Proof.
  unfold next_id. induction ids as [|x ids IH]; simpl; lia.
Qed.

Lemma find_absent (A : Type) (f : A -> bool) l :
  (forall x, In x l -> f x = false) -> find f l = None.
Proof.
  induction l as [|x l IH]; simpl; intros H; trivial.
  rewrite (H x (or_introl eq_refl)). apply IH. intros; apply H; now right.
Qed.

End RowIds.

Module CheckpointFacts.

Import Db Queries OrderFacts RowIds.
Local Open Scope Z_scope.

(** X1. A checkpoint that [insert_checkpoint] stored is read back by the
    id returned, with the record id, the text, the code and the time
    given; that id is above every id of the table and the other ids read
    what they read before.  What was stored could be bound: the record id
    is a 64-bit integer and neither text holds a surrogate. *)
Theorem insert_checkpoint_then_get st now did text code st' cid :
  insert_checkpoint st now did text code = (st', Ok cid) ->
  get_checkpoint_by_id st' cid
  = Some {| c_id := cid; c_datasheet_id := did; c_text := text;
            c_python_code := code; c_created_at := now |}
  /\ (forall c, In c (checkpoints st) -> c_id c < cid)
  /\ checkpoint_seq st < cid
  /\ (forall cid', cid' <> cid ->
        get_checkpoint_by_id st' cid' = get_checkpoint_by_id st cid')
  /\ analysis st' = analysis st /\ metadata st' = metadata st
  /\ in_int64 did = true /\ valid_str text = true
  /\ valid_str code = true.
Proof.
  unfold insert_checkpoint.
  destruct (in_int64 did); cbn [negb]; [|discriminate].
  destruct (valid_str text); cbn [negb andb]; [|discriminate].
  destruct (valid_str code); cbn [negb]; [|discriminate].
  intros [= <- <-].
  assert (Hab : forall c, In c (checkpoints st) ->
                  c_id c < next_id (checkpoint_seq st)
                             (map c_id (checkpoints st))).
  { intros c Hc. apply next_id_above. now apply in_map. }
  unfold get_checkpoint_by_id. cbn [checkpoints analysis metadata].
  rewrite !StoreUpdate.find_app. split; [|split; [exact Hab|split]].
  - rewrite find_absent.
    + cbn [find c_id]. now rewrite Z.eqb_refl.
    + intros c Hc. apply Z.eqb_neq. specialize (Hab c Hc). lia.
  - apply next_id_above_seq.
  - split; [|repeat split].
    intros cid' Hne. rewrite StoreUpdate.find_app.
    destruct (find _ (checkpoints st)); trivial.
    cbn [find c_id]. apply Z.eqb_neq in Hne. rewrite Z.eqb_sym in Hne.
    now rewrite Hne.
Qed.

Lemma insert_checkpoint_then_get_witness :
  get_checkpoint_by_id
    (fst (insert_checkpoint Props.store_one 101 1 (lit "check VIN")
            (lit "print(1)"))) 1
  = Some {| c_id := 1; c_datasheet_id := 1; c_text := lit "check VIN";
            c_python_code := lit "print(1)"; c_created_at := 101 |}.
Proof.
  exact (proj1 (@insert_checkpoint_then_get Props.store_one 101 1
                  (lit "check VIN") (lit "print(1)") _ 1 eq_refl)).
Defined.


(** X3. [delete_checkpoint] removes the row of the id given and no other:
    that id is not found afterwards, every other id reads what it read
    before, and for an id no row has the store is as it was. *)
Theorem delete_checkpoint_removes st cid :
  get_checkpoint_by_id (delete_checkpoint st cid) cid = None
  /\ (forall cid', cid' <> cid ->
        get_checkpoint_by_id (delete_checkpoint st cid) cid'
        = get_checkpoint_by_id st cid')
  /\ (forall c, In c (checkpoints (delete_checkpoint st cid))
                <-> In c (checkpoints st) /\ c_id c <> cid)
  /\ (get_checkpoint_by_id st cid = None -> delete_checkpoint st cid = st)
  /\ analysis (delete_checkpoint st cid) = analysis st
  /\ metadata (delete_checkpoint st cid) = metadata st.
Proof.
  unfold get_checkpoint_by_id, delete_checkpoint, with_checkpoints_table.
  cbn [checkpoints analysis metadata].
  split; [apply StoreUpdate.find_filter_same|]. split; [|split; [|split]].
  - intros cid' Hne. apply StoreUpdate.find_filter_other.
    intros c Hc. apply Z.eqb_eq in Hc. apply negb_true_iff, Z.eqb_neq.
    congruence.
  - intros c. rewrite filter_In, negb_true_iff, Z.eqb_neq. tauto.
  - intros Hnone. rewrite filter_all; [now destruct st|].
    intros c Hc. apply negb_true_iff. apply (find_none _ _ Hnone c Hc).
  - now split.
Qed.

(** X4. After [delete_checkpoints_by_datasheet] the record has no
    checkpoint; the checkpoints of every other record, the records and
    their metadata are as before. *)
Theorem delete_checkpoints_by_datasheet_clears st did :
  get_checkpoints_by_datasheet (delete_checkpoints_by_datasheet st did) did
  = []
  /\ (forall did', did' <> did ->
        get_checkpoints_by_datasheet (delete_checkpoints_by_datasheet st did)
          did'
        = get_checkpoints_by_datasheet st did')
  /\ (forall c, In c (checkpoints (delete_checkpoints_by_datasheet st did))
                <-> In c (checkpoints st) /\ c_datasheet_id c <> did)
  /\ analysis (delete_checkpoints_by_datasheet st did) = analysis st
  /\ metadata (delete_checkpoints_by_datasheet st did) = metadata st.
Proof.
  unfold get_checkpoints_by_datasheet, delete_checkpoints_by_datasheet,
    with_checkpoints_table.
  cbn [checkpoints analysis metadata]. split; [|split; [|split]].
  - rewrite filter_filter, filter_none; trivial.
    intros c _. now destruct (c_datasheet_id c =? did).
  - intros did' Hne. f_equal. rewrite filter_filter. apply filter_ext.
    intros c. destruct (c_datasheet_id c =? did') eqn:E; trivial.
    apply Z.eqb_eq in E. cbn. apply negb_true_iff, Z.eqb_neq. congruence.
  - intros c. rewrite filter_In, negb_true_iff, Z.eqb_neq. tauto.
  - now split.
Qed.

End CheckpointFacts.

Module RecordFacts.

Import Db Props Queries OrderFacts RowIds DbFacts.
Local Open Scope Z_scope.

(** X5. A record that was inserted is read back by its id with every field
    as given, status [Finish] and both times the time of the insert; its
    id is above every id of the table, and the other ids read what they
    read before. *)
Theorem insert_analysis_then_get_by_id st now fn text vc h md st' id :
  insert_analysis st now fn text vc h md = (st', Ok id) ->
  get_analysis_by_id st' id
  = Some {| a_id := id; filename := fn; vendor_code := vc;
            analysis_result := text; file_hash := h;
            status := lit "Finish"; created_at := now; updated_at := now |}
  /\ (forall r, In r (analysis st) -> a_id r < id)
  /\ analysis_seq st < id
  /\ forall id', id' <> id ->
       get_analysis_by_id st' id' = get_analysis_by_id st id'.
Proof.
  intros E. apply insert_analysis_ok in E as (Hid & Ha & _).
  assert (Hab : forall r, In r (analysis st) -> a_id r < id).
  { intros r Hr. rewrite Hid. apply next_id_above. now apply in_map. }
  unfold get_analysis_by_id. rewrite Ha, !StoreUpdate.find_app.
  split; [|split; [exact Hab|split]].
  - rewrite find_absent.
    + cbn [find a_id]. now rewrite Z.eqb_refl.
    + intros r Hr. apply Z.eqb_neq. specialize (Hab r Hr). lia.
  - rewrite Hid. apply next_id_above_seq.
  - intros id' Hne. rewrite StoreUpdate.find_app.
    destruct (find _ (analysis st)); trivial.
    cbn [find a_id]. apply Z.eqb_neq in Hne. rewrite Z.eqb_sym in Hne.
    now rewrite Hne.
Qed.

Lemma insert_analysis_then_get_by_id_witness :
  get_analysis_by_id
    (fst (insert_analysis store_one 101 (lit "b.pdf") (lit "second")
            (Some (lit "LM338")) None None)) 2
  = Some {| a_id := 2; filename := lit "b.pdf";
            vendor_code := Some (lit "LM338");
            analysis_result := lit "second"; file_hash := None;
            status := lit "Finish"; created_at := 101; updated_at := 101 |}.
Proof.
  apply (@insert_analysis_then_get_by_id store_one 101 (lit "b.pdf")
           (lit "second") (Some (lit "LM338")) None None _ 2).
  reflexivity.
Defined.

(** X6. [delete_analysis] removes the record of the id given and no other,
    and nothing but the record: its metadata and its checkpoints stay in
    the store and are read as before. *)
Theorem delete_analysis_keeps_dependents st id :
  get_analysis_by_id (delete_analysis st id) id = None
  /\ (forall id', id' <> id ->
        get_analysis_by_id (delete_analysis st id) id'
        = get_analysis_by_id st id')
  /\ (forall r, In r (analysis (delete_analysis st id))
                <-> In r (analysis st) /\ a_id r <> id)
  /\ (get_analysis_by_id st id = None -> delete_analysis st id = st)
  /\ (forall interp,
        get_metadata interp (delete_analysis st id) id
        = get_metadata interp st id)
  /\ get_checkpoints_by_datasheet (delete_analysis st id) id
     = get_checkpoints_by_datasheet st id.
Proof.
  unfold get_analysis_by_id, delete_analysis. cbn [analysis].
  split; [apply StoreUpdate.find_filter_same|]. split; [|split; [|split]].
  - intros id' Hne. apply StoreUpdate.find_filter_other.
    intros r Hr. apply Z.eqb_eq in Hr. apply negb_true_iff, Z.eqb_neq.
    congruence.
  - intros r. rewrite filter_In, negb_true_iff, Z.eqb_neq. tauto.
  - intros Hnone. rewrite filter_all; [now destruct st|].
    intros r Hr. apply negb_true_iff. apply (find_none _ _ Hnone r Hr).
  - now split.
Qed.

End RecordFacts.

Module RunCheckpoints.

Import Db Pipeline Props Queries OrderFacts RowIds RunVocabulary.
Local Open Scope Z_scope.

(** The rows the loop over the checklist appends are rows of the record,
    each stored at the time of an item, and in the order of their times
    when the items are stored at increasing times. *)
Lemma store_checkpoints_times env did texts :
  in_int64 did = true ->
  forall st idx,
  exists rows,
    checkpoints (store_checkpoints env st did idx texts)
    = checkpoints st ++ rows
    /\ Forall (fun r => c_datasheet_id r = did
                        /\ exists i, (i < List.length texts)%nat
                             /\ c_created_at r
                                = checkpoint_time env (idx + i)) rows
    /\ ((forall i j, (i < j < List.length texts)%nat ->
           checkpoint_time env (idx + i) < checkpoint_time env (idx + j)) ->
        StronglySorted (fun a b => oldest_first a b = true) rows).
Proof.
  intros Hdid.
  induction texts as [|t texts IH]; intros st idx; cbn [store_checkpoints].
  - exists []. rewrite List.app_nil_r. repeat constructor.
  - rewrite PipelineFacts.store_checkpoint_appends, Hdid. cbn [andb].
    assert (Hshift : forall rows,
              Forall (fun r => c_datasheet_id r = did
                               /\ exists i, (i < List.length texts)%nat
                                    /\ c_created_at r
                                       = checkpoint_time env (S idx + i))
                rows ->
              Forall (fun r => c_datasheet_id r = did
                               /\ exists i, (i < List.length (t :: texts))%nat
                                    /\ c_created_at r
                                       = checkpoint_time env (idx + i))
                rows).
    { intros rows. apply Forall_impl. intros r (H1 & i & Hi & H2).
      split; trivial. exists (S i). split; [cbn; lia|].
      now rewrite Nat.add_succ_r. }
    assert (Hinc : (forall i j, (i < j < List.length (t :: texts))%nat ->
                      checkpoint_time env (idx + i)
                      < checkpoint_time env (idx + j)) ->
                   forall i j, (i < j < List.length texts)%nat ->
                     checkpoint_time env (S idx + i)
                     < checkpoint_time env (S idx + j)).
    { intros H i j Hij. rewrite !Nat.add_succ_l, <- !Nat.add_succ_r.
      apply H. cbn. lia. }
    destruct (valid_str t) eqn:Et.
    + destruct (PipelineFacts.insert_checkpoint_cases st
                  (checkpoint_time env idx) did t
                  (stored_code (synth env idx)))
        as [(_ & cid & _ & _ & E)|(Hf & _)];
        [|rewrite Hdid, Et, PipelineFacts.stored_code_valid in Hf;
          discriminate].
      rewrite E.
      match goal with
      | |- context [store_checkpoints env ?s did (S idx) texts] =>
          destruct (IH s (S idx)) as (rows & Hc & Hall & Hsorted)
      end.
      rewrite Hc. cbn [checkpoints].
      eexists (_ :: rows). rewrite <- List.app_assoc. cbn [app].
      split; [reflexivity|]. split.
      * constructor; [|now apply Hshift].
        cbn. split; trivial. exists 0%nat. split; [lia|].
        now rewrite Nat.add_0_r.
      * intros Htimes. constructor; [now apply Hsorted, Hinc|].
        eapply Forall_impl; [|exact Hall].
        intros r (_ & i & Hi & Hr). unfold oldest_first. cbn.
        apply Z.leb_le. rewrite Hr.
        assert (checkpoint_time env (idx + 0)
                < checkpoint_time env (idx + S i))
          by (apply Htimes; cbn; lia).
        rewrite Nat.add_0_r, Nat.add_succ_r in H. cbn. lia.
    + destruct (IH st (S idx)) as (rows & Hc & Hall & Hsorted).
      exists rows. split; [exact Hc|]. split; [now apply Hshift|].
      intros Htimes. now apply Hsorted, Hinc.
Qed.

(** X7. What [get_checkpoints_by_datasheet] gives after the loop over a
    checklist, for a record id the store takes.  The texts are those the
    record had before and the items of the checklist that the store takes
    (those without surrogate), each once; when the record had no
    checkpoint and the items were stored at increasing times, they are
    these items in the order of the checklist, each with the code stored
    with it. *)
Theorem run_checkpoints_read_back env st did idx texts :
  in_int64 did = true ->
  let st' := store_checkpoints env st did idx texts in
  Permutation (map c_text (get_checkpoints_by_datasheet st' did))
    (map c_text (get_checkpoints_by_datasheet st did)
     ++ filter valid_str texts)
  /\ (get_checkpoints_by_datasheet st did = [] ->
      (forall i j, (i < j < List.length texts)%nat ->
         checkpoint_time env (idx + i) < checkpoint_time env (idx + j)) ->
      map c_text (get_checkpoints_by_datasheet st' did)
      = filter valid_str texts
      /\ forall i text,
           nth_error texts i = Some text -> valid_str text = true ->
           exists row,
             nth_error (get_checkpoints_by_datasheet st' did) (rank texts i)
             = Some row
             /\ c_text row = text
             /\ c_python_code row = stored_code (synth env (idx + i))).
Proof.
  intros Hid. cbv zeta.
  destruct (PipelineFacts.store_checkpoints_rows env texts Hid st idx)
    as (_ & _ & rows & Hc & Htexts & Hrows).
  destruct (store_checkpoints_times env texts Hid st idx)
    as (rows' & Hc' & Hall & Hsorted).
  assert (rows' = rows)
    by (rewrite Hc in Hc'; now apply app_inv_head in Hc').
  subst rows'.
  assert (Hdid : filter (fun c => c_datasheet_id c =? did) rows = rows).
  { apply filter_all. intros c Hin. rewrite Forall_forall in Hall.
    destruct (Hall c Hin) as (Hd & _). now apply Z.eqb_eq. }
  unfold get_checkpoints_by_datasheet. rewrite Hc, filter_app, Hdid.
  split.
  - rewrite <- Htexts, <- map_app. apply Permutation_map.
    eapply perm_trans; [apply order_by_perm|].
    apply Permutation_app_tail. apply Permutation_sym, order_by_perm.
  - intros Hnone Htimes.
    assert (Hf : filter (fun c => c_datasheet_id c =? did) (checkpoints st)
                 = []).
    { destruct (filter _ (checkpoints st)) as [|c l] eqn:Ef; trivial.
      assert (Hin : In c (order_by oldest_first (c :: l)))
        by (apply order_by_In; now left).
      rewrite Hnone in Hin. destruct Hin. }
    rewrite Hf. cbn [app].
    rewrite (order_by_fixed (Hsorted Htimes)). split; [exact Htexts|].
    intros i text Hi Hv.
    destruct (Hrows i text Hi Hv) as (row & Hn & H1 & _ & H3 & _).
    now exists row.
Qed.

Lemma run_checkpoints_read_back_witness :
  map c_text
    (get_checkpoints_by_datasheet
       (store_checkpoints (with_times env_ok) store_one 1 0
          [lit "check VIN"; [55296%N]; lit "check VOUT"]) 1)
  = [lit "check VIN"; lit "check VOUT"].
Proof.
  apply (@run_checkpoints_read_back (with_times env_ok) store_one 1 0
           [lit "check VIN"; [55296%N]; lit "check VOUT"] eq_refl).
  - reflexivity.
  - intros i j Hij. cbn in Hij. cbn [with_times checkpoint_time].
    lia.
Defined.

End RunCheckpoints.

Module InvariantFacts.

Import Db Props Queries Invariant OrderFacts RowIds DbFacts.
Local Open Scope Z_scope.

Lemma Forall_filter (A : Type) (P : A -> Prop) (f : A -> bool) l :
  Forall P l -> Forall P (filter f l).
Proof.
  intros H. apply Forall_forall. intros x Hx. apply filter_In in Hx as [Hx _].
  rewrite Forall_forall in H. auto.
Qed.

Section Rows.

Variable A : Type.
Variable rowid : A -> Z.

Lemma increasing_filter (f : A -> bool) l :
  increasing (map rowid l) -> increasing (map rowid (filter f l)).
Proof.
  induction l as [|x l IH]; simpl; trivial. intros [H1 H2].
  destruct (f x); simpl; auto. split; auto.
  rewrite Forall_map in *. now apply Forall_filter.
Qed.

Lemma rowids_ok_filter seq (f : A -> bool) l :
  rowids_ok seq (map rowid l) -> rowids_ok seq (map rowid (filter f l)).
Proof.
  intros [H1 H2]. split; [now apply increasing_filter|].
  rewrite Forall_map in *. now apply Forall_filter.
Qed.

Lemma increasing_app_one l n :
  increasing (map rowid l) -> Forall (fun i => i < n) (map rowid l) ->
  increasing (map rowid l ++ [n]).
Proof.
  induction l as [|x l IH]; simpl; [auto|]. intros [H1 H2] H3.
  inversion H3 as [|? ? Hx Hl]; subst. split; auto.
  apply Forall_app. split; trivial. constructor; [exact Hx|constructor].
Qed.

(** Appending a row with the next rowid. *)
Lemma rowids_ok_next seq l :
  rowids_ok seq (map rowid l) ->
  rowids_ok (next_id seq (map rowid l))
    (map rowid l ++ [next_id seq (map rowid l)]).
Proof.
  intros [H1 H2].
  assert (Hlt : Forall (fun i => i < next_id seq (map rowid l))
                  (map rowid l)).
  { apply Forall_forall. intros i Hi. now apply next_id_above. }
  split; [now apply increasing_app_one|].
  apply Forall_app. split.
  - eapply Forall_impl; [|exact Hlt]. cbv beta. intros; lia.
  - constructor; [lia|constructor].
Qed.

Lemma rowids_ok_seq seq seq' ids :
  seq <= seq' -> rowids_ok seq ids -> rowids_ok seq' ids.
Proof.
  intros Hle [H1 H2]. split; trivial.
  eapply Forall_impl; [|exact H2]. cbv beta. intros; lia.
Qed.

End Rows.

Lemma filter_length_le (A : Type) (f g : A -> bool) l :
  (List.length (filter f (filter g l)) <= List.length (filter f l))%nat.
Proof.
  induction l as [|x l IH]; simpl; trivial.
  destruct (g x); simpl; destruct (f x); simpl; lia.
Qed.

Lemma filter_map_length (A : Type) (f : A -> bool) (u : A -> A) l :
  (forall x, f (u x) = f x) ->
  List.length (filter f (map u l)) = List.length (filter f l).
Proof.
  intros H. induction l as [|x l IH]; simpl; trivial.
  rewrite H. destruct (f x); simpl; now rewrite IH.
Qed.

(** *** The metadata rows *)

Lemma replace_metadata_row_keeps txn did k text :
  rowids_ok (metadata_seq txn) (map m_id (metadata txn)) ->
  unique_keys txn ->
  let txn' := replace_metadata_row txn did k text in
  rowids_ok (metadata_seq txn') (map m_id (metadata txn'))
  /\ unique_keys txn'
  /\ metadata_seq txn <= metadata_seq txn'
  /\ analysis txn' = analysis txn /\ analysis_seq txn' = analysis_seq txn
  /\ checkpoints txn' = checkpoints txn
  /\ checkpoint_seq txn' = checkpoint_seq txn.
Proof.
  intros Hr Hu. cbv zeta. unfold replace_metadata_row.
  cbn [metadata metadata_seq analysis analysis_seq checkpoints checkpoint_seq].
  set (mid := next_id (metadata_seq txn) (map m_id (metadata txn))).
  assert (Hmid : metadata_seq txn < mid) by apply next_id_above_seq.
  split; [|split; [|split; [lia|auto]]].
  - rewrite map_app. cbn [map m_id].
    set (kept := filter _ (metadata txn)).
    assert (Hk : rowids_ok (metadata_seq txn) (map m_id kept))
      by (now apply rowids_ok_filter).
    destruct Hk as [Hk1 Hk2]. split.
    + apply increasing_app_one; trivial.
      eapply Forall_impl; [|exact Hk2]. cbv beta. intros; lia.
    + apply Forall_app. split.
      * eapply Forall_impl; [|exact Hk2]. cbv beta. intros; lia.
      * constructor; [lia|constructor].
  - intros did' k'. cbn [metadata]. rewrite filter_app, length_app.
    cbn [filter].
    destruct (metadata_conflict did' k' _) eqn:E; cbn [List.length].
    + unfold metadata_conflict in E. cbn [m_datasheet_id m_key] in E.
      apply andb_true_iff in E as [E1 E2].
      apply Z.eqb_eq in E1. apply str_eqb_eq in E2. subst did' k'.
      rewrite filter_filter, filter_none; [cbn; lia|].
      intros r _. now destruct (metadata_conflict did k r).
    + pose proof (filter_length_le (metadata_conflict did' k')
                    (fun r => negb (metadata_conflict did k r))
                    (metadata txn)).
      specialize (Hu did' k'). lia.
Qed.

Lemma replace_metadata_rows_keeps items : forall txn did,
  rowids_ok (metadata_seq txn) (map m_id (metadata txn)) ->
  unique_keys txn ->
  let txn' := replace_metadata_rows txn did items in
  rowids_ok (metadata_seq txn') (map m_id (metadata txn'))
  /\ unique_keys txn'
  /\ metadata_seq txn <= metadata_seq txn'
  /\ analysis txn' = analysis txn /\ analysis_seq txn' = analysis_seq txn
  /\ checkpoints txn' = checkpoints txn
  /\ checkpoint_seq txn' = checkpoint_seq txn.
Proof.
  unfold replace_metadata_rows.
  induction items as [|[k v] items IH]; intros txn did Hr Hu;
    cbv zeta; cbn [fold_left].
  - split; [exact Hr|]. split; [exact Hu|]. repeat split. lia.
  - cbn [fst snd].
    destruct (replace_metadata_row_keeps did k (value_text v) Hr Hu)
      as (H1 & H2 & H3 & H4 & H5 & H6 & H7).
    destruct (IH _ did H1 H2) as (I1 & I2 & I3 & I4 & I5 & I6 & I7).
    split; [exact I1|]. split; [exact I2|].
    repeat split; try congruence. lia.
Qed.

Lemma insert_metadata_row_keeps txn did k text txn' :
  insert_metadata_row txn did k text = Some txn' ->
  rowids_ok (metadata_seq txn) (map m_id (metadata txn)) ->
  unique_keys txn ->
  rowids_ok (metadata_seq txn') (map m_id (metadata txn'))
  /\ unique_keys txn'
  /\ metadata_seq txn <= metadata_seq txn'.
Proof.
  unfold insert_metadata_row.
  destruct (existsb _ _) eqn:E; [discriminate|]. intros [= <-] Hr Hu.
  cbn [metadata metadata_seq].
  pose proof (next_id_above_seq (metadata_seq txn)
                (map m_id (metadata txn))) as Hmid.
  split; [|split; [|lia]].
  - rewrite map_app. cbn [map m_id]. now apply rowids_ok_next.
  - intros did' k'. cbn [metadata]. rewrite filter_app, length_app.
    cbn [filter].
    destruct (metadata_conflict did' k' _) eqn:E'; cbn [List.length].
    + unfold metadata_conflict in E'. cbn [m_datasheet_id m_key] in E'.
      apply andb_true_iff in E' as [E1 E2].
      apply Z.eqb_eq in E1. apply str_eqb_eq in E2. subst did' k'.
      rewrite filter_none; [cbn; lia|].
      intros r Hr'. destruct (metadata_conflict did k r) eqn:Ec; trivial.
      assert (existsb (metadata_conflict did k) (metadata txn) = true)
        by (apply existsb_exists; now exists r).
      congruence.
    + specialize (Hu did' k'). lia.
Qed.

Lemma insert_metadata_rows_keeps items : forall txn did txn',
  insert_metadata_rows txn did items = Some txn' ->
  rowids_ok (metadata_seq txn) (map m_id (metadata txn)) ->
  unique_keys txn ->
  rowids_ok (metadata_seq txn') (map m_id (metadata txn'))
  /\ unique_keys txn'
  /\ metadata_seq txn <= metadata_seq txn'.
Proof.
  induction items as [|[k v] items IH]; intros txn did txn' H Hr Hu;
    cbn [insert_metadata_rows] in H.
  - injection H as <-. split; [exact Hr|]. split; [exact Hu|lia].
  - destruct (insert_metadata_row txn did k (value_text v)) as [t|] eqn:E;
      [|discriminate].
    destruct (insert_metadata_row_keeps E Hr Hu) as (H1 & H2 & H3).
    destruct (IH _ _ _ H H1 H2) as (I1 & I2 & I3).
    split; [exact I1|]. split; [exact I2|lia].
Qed.

Lemma call_keeps st st' :
  call st st' -> constraints_hold st ->
  constraints_hold st' /\ counters_le st st'.
Proof.
  intros Hc Hw. pose proof Hw as (Ha & Hm & Hk & Hu & Hq).
  assert (Hsame : constraints_hold st /\ counters_le st st)
    by (split; [exact Hw|repeat split; lia]).
  destruct Hc as [st now fn text vc h md|st now id text vc md|st id
                  |st now did text code|st cid text code|st cid|st did].
  - (* insert_analysis *)
    pose proof (@insert_analysis_unique st now fn text vc h md Hu) as Hu'.
    unfold insert_analysis in *.
    unfold insert_analysis_row in *.
    destruct (existsb (analysis_conflict fn h) (analysis st));
      [exact Hsame|].
    match goal with
    | |- context [insert_metadata_rows ?t ?d ?i] =>
        destruct (insert_metadata_rows t d i) as [txn'|] eqn:Em
    end; [|exact Hsame].
    cbn [fst] in *.
    pose proof (insert_metadata_rows_analysis Em) as (E1 & E2 & E3 & E4).
    cbn [analysis analysis_seq checkpoints checkpoint_seq] in E1, E2, E3, E4.
    destruct (insert_metadata_rows_keeps Em) as (M1 & M2 & M3);
      [exact Hm|exact Hq|].
    cbn [metadata_seq] in M3.
    pose proof (next_id_above_seq (analysis_seq st)
                  (map a_id (analysis st))) as Hid.
    split; [|repeat split; try lia; rewrite ?E2, ?E4; lia].
    split; [|split; [exact M1|split; [|split; [exact Hu'|exact M2]]]].
    + rewrite E1, E2, map_app. cbn [map a_id]. now apply rowids_ok_next.
    + now rewrite E3, E4.
  - (* update_analysis *)
    unfold update_analysis.
    match goal with
    | |- context [replace_metadata_rows ?t ?d ?i] =>
        destruct (@replace_metadata_rows_keeps i t d)
          as (R1 & R2 & R3 & R4 & R5 & R6 & R7);
        [exact Hm|exact Hq|]
    end.
    cbn [analysis analysis_seq checkpoints checkpoint_seq metadata_seq]
      in R3, R4, R5, R6, R7.
    assert (Hids : map a_id (map (fun r => if a_id r =? id
                                           then update_row now text vc r
                                           else r) (analysis st))
                   = map a_id (analysis st)).
    { rewrite map_map. apply map_ext. intros r.
      now destruct (a_id r =? id). }
    split; [|repeat split; lia].
    split; [|split; [exact R1|split; [|split; [|exact R2]]]].
    + now rewrite R4, R5, Hids.
    + now rewrite R6, R7.
    + intros fn h. unfold rows_of. rewrite R4.
      rewrite filter_map_length; [apply (Hu fn h)|].
      intros r. now destruct (a_id r =? id).
  - (* delete_analysis *)
    unfold delete_analysis. split; [|repeat split; cbn; lia].
    split; [|split; [exact Hm|split; [exact Hk|split; [|exact Hq]]]].
    + cbn [analysis analysis_seq]. now apply rowids_ok_filter.
    + intros fn h. unfold rows_of. cbn [analysis].
      rewrite filter_filter.
      pose proof (filter_length_le
                    (fun r => str_eqb (filename r) fn
                              && opt_str_eqb (file_hash r) (Some h))
                    (fun r => negb (a_id r =? id)) (analysis st)) as L.
      rewrite filter_filter in L. specialize (Hu fn h). unfold rows_of in Hu.
      lia.
  - (* insert_checkpoint *)
    unfold insert_checkpoint.
    destruct (negb (in_int64 did)); [exact Hsame|].
    destruct (negb (valid_str text && valid_str code)); [exact Hsame|].
    cbn [fst].
    pose proof (next_id_above_seq (checkpoint_seq st)
                  (map c_id (checkpoints st))) as Hid.
    split; [|repeat split; cbn; lia].
    split; [exact Ha|split; [exact Hm|split; [|split; [exact Hu|exact Hq]]]].
    cbn [checkpoints checkpoint_seq]. rewrite map_app. cbn [map c_id].
    now apply rowids_ok_next.
  - (* update_checkpoint *)
    split; [|unfold update_checkpoint; destruct text, code;
             repeat split; cbn; lia].
    unfold update_checkpoint.
    assert (Hids : map c_id (map (fun c => if c_id c =? cid
                                           then update_checkpoint_row text
                                                  code c
                                           else c) (checkpoints st))
                   = map c_id (checkpoints st)).
    { rewrite map_map. apply map_ext. intros c.
      now destruct (c_id c =? cid). }
    destruct text, code; try exact Hw;
      (split; [exact Ha|split; [exact Hm|split;
        [cbn [with_checkpoints_table checkpoints checkpoint_seq];
         now rewrite Hids|split; [exact Hu|exact Hq]]]]).
  - (* delete_checkpoint *)
    unfold delete_checkpoint, with_checkpoints_table.
    split; [|repeat split; cbn; lia].
    split; [exact Ha|split; [exact Hm|split; [|split; [exact Hu|exact Hq]]]].
    cbn [checkpoints checkpoint_seq]. now apply rowids_ok_filter.
  - (* delete_checkpoints_by_datasheet *)
    unfold delete_checkpoints_by_datasheet, with_checkpoints_table.
    split; [|repeat split; cbn; lia].
    split; [exact Ha|split; [exact Hm|split; [|split; [exact Hu|exact Hq]]]].
    cbn [checkpoints checkpoint_seq]. now apply rowids_ok_filter.
Qed.

Lemma calls_keep st st' :
  calls_from st st' -> constraints_hold st ->
  constraints_hold st' /\ counters_le st st'.
Proof.
  induction 1 as [|st' st'' Hcs IH Hc]; intros Hw.
  - split; trivial. repeat split; lia.
  - destruct (IH Hw) as (Hw' & L1 & L2 & L3).
    destruct (call_keeps Hc Hw') as (Hw'' & M1 & M2 & M3).
    split; trivial. repeat split; lia.
Qed.

Lemma constraints_hold_empty : constraints_hold empty_store.
Proof.
  repeat split; try constructor; intros; cbn; lia.
Qed.

(** X8. Every store the writing methods make of the empty database keeps
    the constraints of the tables: in each table the rowids grow along
    the rows (so no two rows share one) and stay below the counter of
    [AUTOINCREMENT], no two records share a filename and a hash that is
    not NULL, and no two metadata rows share a record and a key. *)
Theorem store_constraints_kept st :
  calls_from empty_store st -> constraints_hold st.
Proof.
  intros H. apply (calls_keep H), constraints_hold_empty.
Qed.

Lemma store_constraints_kept_witness :
  constraints_hold
    (delete_analysis
       (update_analysis store_one 200 1 None (Some (lit "LM338"))
          (Some [(lit "VIN", PInt 5)])) 1).
Proof.
  apply store_constraints_kept.
  eapply calls_more; [|apply call_delete_analysis].
  eapply calls_more; [|apply call_update_analysis].
  eapply calls_more; [apply calls_none|].
  apply (call_insert_analysis empty_store 100 a_pdf (lit "first") None
           (Some (lit "abc")) None).
Defined.

(** X9. A rowid is never given twice.  Whatever is deleted or written in
    between, a record inserted later has an id above the id of every
    record the store ever held, and so has a checkpoint. *)
Theorem rowids_never_reused st st' :
  constraints_hold st -> calls_from st st' ->
  (forall r now fn text vc h md st'' id,
     In r (analysis st) ->
     insert_analysis st' now fn text vc h md = (st'', Ok id) ->
     a_id r < id)
  /\ (forall c now did text code cid,
        In c (checkpoints st) ->
        snd (insert_checkpoint st' now did text code) = Ok cid ->
        c_id c < cid).
Proof.
  intros Hw Hc. destruct (calls_keep Hc Hw) as (_ & L1 & _ & L3).
  destruct Hw as ((_ & Ha) & _ & (_ & Hk) & _).
  split.
  - intros r now fn text vc h md st'' id Hr E.
    apply insert_analysis_ok in E as (-> & _).
    pose proof (next_id_above_seq (analysis_seq st')
                  (map a_id (analysis st'))).
    rewrite Forall_forall in Ha. specialize (Ha (a_id r) (in_map _ _ _ Hr)).
    lia.
  - intros c now did text code cid Hin E. unfold insert_checkpoint in E.
    destruct (negb (in_int64 did)); [discriminate|].
    destruct (negb (valid_str text && valid_str code)); [discriminate|].
    injection E as <-.
    pose proof (next_id_above_seq (checkpoint_seq st')
                  (map c_id (checkpoints st'))).
    rewrite Forall_forall in Hk. specialize (Hk (c_id c) (in_map _ _ _ Hin)).
    lia.
Qed.

Lemma rowids_never_reused_witness :
  insert_analysis (delete_analysis store_one 1) 101 a_pdf (lit "again") None
    (Some (lit "abc")) None
  = (fst (insert_analysis (delete_analysis store_one 1) 101 a_pdf
            (lit "again") None (Some (lit "abc")) None), Ok 2)
  /\ 1 < 2.
Proof.
  split; [reflexivity|].
  destruct (@rowids_never_reused store_one (delete_analysis store_one 1))
    as [H _].
  - apply (@calls_keep empty_store store_one).
    + eapply calls_more; [apply calls_none|].
      apply (call_insert_analysis empty_store 100 a_pdf (lit "first") None
               (Some (lit "abc")) None).
    + apply constraints_hold_empty.
  - eapply calls_more; [apply calls_none|apply call_delete_analysis].
  - apply (H {| a_id := 1; filename := a_pdf; vendor_code := None;
                analysis_result := lit "first";
                file_hash := Some (lit "abc"); status := lit "Finish";
                created_at := 100; updated_at := 100 |}
             101 a_pdf (lit "again") None (Some (lit "abc")) None
             (fst (insert_analysis (delete_analysis store_one 1) 101 a_pdf
                     (lit "again") None (Some (lit "abc")) None)) 2);
      [now left|reflexivity].
Defined.

End InvariantFacts.

Module ListingFacts.

Import Db Props Queries OrderFacts RowIds.
Local Open Scope Z_scope.

Lemma newest_first_total a b :
  newest_first a b = false -> newest_first b a = true.
Proof. unfold newest_first. rewrite Z.leb_gt, Z.leb_le. lia. Qed.

Lemma newest_first_trans a b c :
  newest_first a b = true -> newest_first b c = true ->
  newest_first a c = true.
Proof. unfold newest_first. rewrite !Z.leb_le. lia. Qed.

(** A run of a list in order is in order. *)
Lemma sorted_skipn (A : Type) (R : A -> A -> Prop) n : forall l,
  StronglySorted R l -> StronglySorted R (skipn n l).
Proof.
  induction n as [|n IH]; intros l H; [exact H|].
  destruct l as [|x l]; [constructor|]. cbn. apply IH.
  now inversion H.
Qed.

Lemma sorted_firstn (A : Type) (R : A -> A -> Prop) n : forall l,
  StronglySorted R l -> StronglySorted R (firstn n l).
Proof.
  induction n as [|n IH]; intros l H; [constructor|].
  destruct l as [|x l]; [constructor|]. cbn.
  inversion H as [|? ? Hs Hx]; subst. constructor; [now apply IH|].
  rewrite Forall_forall in *. intros y Hy. apply Hx.
  rewrite <- (firstn_skipn n l). apply in_or_app. now left.
Qed.

Lemma limit_offset_sorted (A : Type) (R : A -> A -> Prop) limit offset l :
  StronglySorted R l -> StronglySorted R (limit_offset limit offset l).
Proof.
  intros H. unfold limit_offset.
  destruct (limit <? 0); [|apply sorted_firstn]; now apply sorted_skipn.
Qed.

Lemma limit_offset_In (A : Type) limit offset (l : list A) x :
  In x (limit_offset limit offset l) -> In x l.
Proof.
  unfold limit_offset. intros H.
  assert (Hs : In x (skipn (Z.to_nat offset) l)).
  { destruct (limit <? 0); trivial.
    rewrite <- (firstn_skipn (Z.to_nat limit) (skipn _ l)).
    apply in_or_app. now left. }
  rewrite <- (firstn_skipn (Z.to_nat offset) l). apply in_or_app. now right.
Qed.

Lemma limit_offset_length (A : Type) limit offset (l : list A) :
  Z.of_nat (List.length (limit_offset limit offset l))
  = let rest := Z.max 0 (Z.of_nat (List.length l) - Z.max 0 offset) in
    if limit <? 0 then rest else Z.min limit rest.
Proof.
  unfold limit_offset. cbv zeta.
  destruct (limit <? 0) eqn:E;
    [apply Z.ltb_lt in E|apply Z.ltb_ge in E];
    rewrite ?length_firstn, length_skipn; lia.
Qed.

Lemma firstn_add (A : Type) a b : forall l : list A,
  firstn (a + b) l = firstn a l ++ firstn b (skipn a l).
Proof.
  induction a as [|a IH]; intros l; [reflexivity|].
  destruct l as [|x l]; cbn; [now destruct b|]. now rewrite IH.
Qed.

Lemma skipn_add (A : Type) a b : forall l : list A,
  skipn (a + b) l = skipn b (skipn a l).
Proof.
  induction a as [|a IH]; intros l; [reflexivity|].
  destruct l as [|x l]; cbn; [now destruct b|]. apply IH.
Qed.

Lemma in_int64_and limit offset :
  in_int64 limit && in_int64 offset = true ->
  in_int64 limit = true /\ in_int64 offset = true.
Proof. apply andb_true_iff. Qed.

(** X10. A page of [get_all_analysis].  It holds records of the store, the
    newest first; with a limit and an offset that are not negative it
    holds [min(limit, n - offset)] of the [n] records (none when the offset
    is past the end); a negative limit is no limit and a negative offset
    is no offset. *)
Theorem get_all_analysis_page st limit offset :
  in_int64 limit = true -> in_int64 offset = true ->
  exists page,
    get_all_analysis st limit offset = Some page
    /\ (forall r, In r page -> In r (analysis st))
    /\ (forall i j a b, (i < j)%nat ->
          nth_error page i = Some a -> nth_error page j = Some b ->
          created_at b <= created_at a)
    /\ (0 <= limit -> 0 <= offset ->
        Z.of_nat (List.length page)
        = Z.min limit (Z.max 0 (Z.of_nat (List.length (analysis st)) - offset)))
    /\ (limit < 0 -> 0 <= offset ->
        Z.of_nat (List.length page)
        = Z.max 0 (Z.of_nat (List.length (analysis st)) - offset))
    /\ (offset < 0 -> get_all_analysis st limit 0 = Some page).
Proof.
  intros Hl Ho. unfold get_all_analysis. rewrite Hl, Ho. cbn [andb].
  eexists. split; [reflexivity|]. split; [|split; [|split; [|split]]].
  - intros r Hr. apply limit_offset_In in Hr. now apply order_by_In in Hr.
  - intros i j a b Hij Ha Hb. apply Z.leb_le.
    change (newest_first a b = true).
    eapply sorted_nth; [|exact Hij|exact Ha|exact Hb].
    apply limit_offset_sorted, order_by_sorted.
    + exact newest_first_total.
    + exact newest_first_trans.
  - intros H1 H2. rewrite limit_offset_length, order_by_length. cbv zeta.
    destruct (limit <? 0) eqn:E; [apply Z.ltb_lt in E; lia|]. lia.
  - intros H1 H2. rewrite limit_offset_length, order_by_length. cbv zeta.
    apply Z.ltb_lt in H1. rewrite H1. lia.
  - intros H. unfold limit_offset. destruct offset; try lia; reflexivity.
Qed.

Lemma get_all_analysis_page_witness :
  exists page,
    get_all_analysis store_one 100 0 = Some page
    /\ Z.of_nat (List.length page) = 1.
Proof.
  destruct (@get_all_analysis_page store_one 100 0)
    as (page & H1 & _ & _ & H4 & _); [reflexivity|reflexivity|].
  exists page. split; [exact H1|]. rewrite H4; [reflexivity|lia|lia].
Defined.

(** X11. Pages follow one another.  A page of [a] records from an offset
    and the page of [b] records that starts where it ends are, one after
    the other, the page of [a + b] records from that offset; and the page
    without limit from offset 0 is the whole table, each record once. *)
Theorem get_all_analysis_pages st a b offset :
  0 <= a -> 0 <= b -> 0 <= offset ->
  in_int64 (a + b) = true ->
  in_int64 (offset + a) = true ->
  exists p1 p2 whole,
    get_all_analysis st a offset = Some p1
    /\ get_all_analysis st b (offset + a) = Some p2
    /\ get_all_analysis st (a + b) offset = Some (p1 ++ p2)
    /\ get_all_analysis st (-1) 0 = Some whole
    /\ Permutation whole (analysis st).
Proof.
  intros Ha Hb Ho Hab Hoa.
  assert (R : forall x y, 0 <= x -> x <= y -> in_int64 y = true ->
                in_int64 x = true).
  { unfold in_int64. intros x y Hx Hxy H.
    apply andb_true_iff in H as [H1 H2].
    apply Z.leb_le in H1, H2. apply andb_true_iff.
    split; apply Z.leb_le; lia. }
  unfold get_all_analysis.
  rewrite (R a (a + b)), (R b (a + b)), (R offset (offset + a)), Hab, Hoa
    by (trivial; lia).
  cbn [andb]. do 3 eexists.
  split; [reflexivity|]. split; [reflexivity|]. split; [|split].
  - f_equal. unfold limit_offset.
    assert (E : forall x, 0 <= x -> (x <? 0) = false)
      by (intros; apply Z.ltb_ge; lia).
    rewrite !E by lia.
    rewrite !Z2Nat.inj_add by lia. now rewrite firstn_add, skipn_add.
  - reflexivity.
  - cbn. apply order_by_perm.
Qed.

Lemma get_all_analysis_pages_witness :
  exists p1 p2,
    get_all_analysis store_one 1 0 = Some p1
    /\ get_all_analysis store_one 5 1 = Some p2
    /\ get_all_analysis store_one 6 0 = Some (p1 ++ p2).
Proof.
  destruct (@get_all_analysis_pages store_one 1 5 0)
    as (p1 & p2 & whole & H1 & H2 & H3 & _);
    [lia|lia|lia|reflexivity|reflexivity|].
  exists p1, p2. split; [exact H1|]. split; [exact H2|exact H3].
Defined.

End ListingFacts.

Module LikeFacts.

Import Db Props Queries QueryVocabulary OrderFacts.
Local Open Scope N_scope.

Lemma like_nil s : like [] s = match s with [] => true | _ :: _ => false end.
Proof. reflexivity. Qed.

Lemma like_percent rest s :
  like (PERCENT :: rest) s
  = like rest s
    || match s with
       | [] => false
       | _ :: s' => like (PERCENT :: rest) s'
       end.
Proof. destruct s; reflexivity. Qed.

Lemma like_other p rest s :
  (p =? PERCENT) = false ->
  like (p :: rest) s
  = match s with
    | [] => false
    | c :: s' => ((p =? UNDERSCORE) || like_char p c) && like rest s'
    end.
Proof. intros H. cbn [like]. now rewrite H. Qed.

(** [%] stands for any run of characters. *)
Lemma like_percent_iff rest s :
  like (PERCENT :: rest) s = true
  <-> exists a b, s = a ++ b /\ like rest b = true.
Proof.
  induction s as [|c s IH]; rewrite like_percent.
  - rewrite orb_false_r. split.
    + intros H. now exists [], [].
    + intros (a & b & E & H). symmetry in E.
      apply app_eq_nil in E as [_ ->]. exact H.
  - rewrite orb_true_iff, IH. split.
    + intros [H|(a & b & -> & H)].
      * now exists [], (c :: s).
      * now exists (c :: a), b.
    + intros ([|x a] & b & E & H).
      * left. cbn in E. now subst b.
      * right. injection E as <- ->. now exists a, b.
Qed.

Lemma plain_cons p q :
  plain (p :: q) = true ->
  (p =? 0) = false /\ (p =? PERCENT) = false /\ (p =? UNDERSCORE) = false
  /\ plain q = true.
Proof.
  unfold plain. cbn [forallb]. rewrite !andb_true_iff, !negb_true_iff. tauto.
Qed.


Lemma c_str_plain q : plain q = true -> c_str q = q.
Proof.
  induction q as [|p q IH]; intros H; trivial.
  apply plain_cons in H as (H0 & _ & _ & Hq). cbn. rewrite H0.
  now rewrite IH.
Qed.



(** An underscore in the place of a character finds what the character
    finds. *)
Lemma like_underscore (a : str) (c : char) (b : str) : forall s : str,
  (c =? PERCENT) = false ->
  like (a ++ c :: b) s = true -> like (a ++ UNDERSCORE :: b) s = true.
Proof.
  induction a as [|p a IH]; intros s Hc; cbn [app].
  - rewrite like_other by exact Hc. rewrite like_other by reflexivity.
    destruct s as [|x s]; trivial. rewrite !andb_true_iff. intros [_ H].
    split; trivial.
  - destruct (p =? PERCENT) eqn:Hp.
    + apply N.eqb_eq in Hp. subst p. rewrite !like_percent_iff.
      intros (u & v & -> & H). exists u, v. split; trivial. now apply IH.
    + rewrite !like_other by exact Hp.
      destruct s as [|x s]; trivial. rewrite !andb_true_iff.
      intros [H1 H2]. split; trivial. now apply IH.
Qed.

Lemma c_str_underscore (a : str) (c : char) (b : str) :
  (c =? 0) = false ->
  c_str (a ++ c :: b) = c_str (a ++ UNDERSCORE :: b)
  \/ exists a' b', c_str (a ++ c :: b) = a' ++ c :: b'
                   /\ c_str (a ++ UNDERSCORE :: b) = a' ++ UNDERSCORE :: b'.
Proof.
  intros Hc. induction a as [|p a IH]; cbn [app].
  - right. exists [], (c_str b). cbn. now rewrite Hc.
  - cbn [c_str]. destruct (p =? 0); [now left|].
    destruct IH as [->|(a' & b' & -> & ->)]; [now left|].
    right. now exists (p :: a'), b'.
Qed.

Lemma like_c_str_underscore (a : str) (c : char) (b s : str) :
  (c =? 0) = false -> (c =? PERCENT) = false ->
  like (c_str (a ++ c :: b)) s = true ->
  like (c_str (a ++ UNDERSCORE :: b)) s = true.
Proof.
  intros Hc0 Hcp.
  destruct (@c_str_underscore a c b Hc0) as [E|(a' & b' & E1 & E2)].
  - now rewrite E.
  - rewrite E1, E2. now apply like_underscore.
Qed.

End LikeFacts.

Module SearchFacts.

Import Db Props Queries QueryVocabulary OrderFacts LikeFacts ListingFacts.
Local Open Scope Z_scope.



(** X13. The wildcards of [LIKE] are not escaped.  Whatever the query, the
    records found have a vendor code; the empty query finds every record
    that has one; and a query finds whatever it found before one of its
    characters (other than [%] and NUL) was replaced by an underscore. *)
Theorem search_by_vendor_wildcards st q rows :
  search_by_vendor st q = Some rows ->
  (forall r, In r rows -> In r (analysis st) /\ Db.vendor_code r <> None)
  /\ (q = [] ->
      forall r, In r (analysis st) -> Db.vendor_code r <> None -> In r rows)
  /\ (forall q1 c q2 rows',
        q = q1 ++ UNDERSCORE :: q2 ->
        (c =? 0)%N = false -> (c =? PERCENT)%N = false ->
        search_by_vendor st (q1 ++ c :: q2) = Some rows' ->
        forall r, In r rows' -> In r rows).
Proof.
  unfold search_by_vendor.
  destruct (MAX_LIKE_PATTERN_LENGTH <? utf8_bytes (vendor_pattern q));
    [discriminate|].
  intros [= <-]. split; [|split].
  - intros r. rewrite order_by_In, filter_In. unfold vendor_matches.
    intros [H1 H2]. split; trivial. now destruct (Db.vendor_code r).
  - intros -> r Hr Hv. rewrite order_by_In, filter_In. split; trivial.
    unfold vendor_matches. destruct (Db.vendor_code r) as [v|]; [|congruence].
    change (c_str (vendor_pattern [])) with [PERCENT; PERCENT].
    apply like_percent_iff. exists [], (c_str v). split; trivial.
    apply like_percent_iff. exists (c_str v), [].
    now rewrite List.app_nil_r.
  - intros q1 c q2 rows' -> Hc0 Hcp.
    destruct (MAX_LIKE_PATTERN_LENGTH <? _); [discriminate|].
    intros [= <-] r. rewrite !order_by_In, !filter_In.
    intros [H1 H2]. split; trivial. revert H2. unfold vendor_matches.
    destruct (Db.vendor_code r) as [v|]; trivial.
    assert (E : forall x, vendor_pattern (q1 ++ x :: q2)
                          = (PERCENT :: q1) ++ x :: (q2 ++ [PERCENT])).
    { intros x. unfold vendor_pattern. cbn [app].
      now rewrite <- List.app_assoc. }
    rewrite !E. now apply like_c_str_underscore.
Qed.

Lemma search_by_vendor_wildcards_witness :
  exists rows,
    search_by_vendor store_vendors [] = Some rows
    /\ In {| a_id := 1; filename := lit "a.pdf";
             vendor_code := Some (lit "LM317");
             analysis_result := lit "first"; file_hash := None;
             status := lit "Finish"; created_at := 100;
             updated_at := 100 |} rows.
Proof.
  eexists. split; [reflexivity|].
  destruct (@search_by_vendor_wildcards store_vendors [] _ eq_refl)
    as (_ & H & _).
  apply H; [reflexivity|left; reflexivity|discriminate].
Defined.

End SearchFacts.

Module StatisticsFacts.

Import Db Props Queries QueryVocabulary OrderFacts ListingFacts.
Local Open Scope Z_scope.

Lemma counted_count_row v w g :
  counted v (count_row w g) = counted v g + (if str_eqb w v then 1 else 0).
Proof.
  induction g as [|[x n] g IH]; cbn [count_row counted].
  - lia.
  - destruct (str_eqb x w) eqn:E; cbn [counted].
    + apply str_eqb_eq in E. subst x. destruct (str_eqb w v); lia.
    + rewrite IH. lia.
Qed.

Lemma counted_all_count_row w g :
  counted_all (count_row w g) = counted_all g + 1.
Proof.
  unfold counted_all.
  induction g as [|[x n] g IH]; cbn [count_row fold_right snd]; [lia|].
  destruct (str_eqb x w); cbn [fold_right snd]; lia.
Qed.

Lemma count_row_keys w g :
  map fst (count_row w g) = map fst g
  \/ (~ In w (map fst g) /\ map fst (count_row w g) = map fst g ++ [w]).
Proof.
  induction g as [|[x n] g IH]; cbn [count_row map fst].
  - right. split; [intros []|reflexivity].
  - destruct (str_eqb x w) eqn:E; cbn [map fst]; [now left|].
    apply str_eqb_neq in E.
    destruct IH as [->|[Hn ->]]; [now left|right].
    split; trivial. intros [H|H]; auto.
Qed.

Lemma count_row_positive w g :
  Forall (fun e => 1 <= snd e) g ->
  Forall (fun e => 1 <= snd e) (count_row w g).
Proof.
  induction 1 as [|[x n] g Hx Hg IH]; cbn [count_row].
  - constructor; [cbn; lia|constructor].
  - cbn in Hx. destruct (str_eqb x w); constructor; trivial; cbn; lia.
Qed.

Lemma NoDup_app_one (A : Type) (l : list A) x :
  NoDup l -> ~ In x l -> NoDup (l ++ [x]).
Proof.
  intros H Hx. apply NoDup_app; trivial.
  - constructor; [intros []|constructor].
  - intros y Hy [<-|[]]. contradiction.
Qed.

(** The groups after the rows [pre] are followed by [rows]. *)
Lemma vendor_groups_from rows : forall pre g,
  NoDup (map fst g) -> Forall (fun e => 1 <= snd e) g ->
  (forall v, counted v g = vendor_count v pre) ->
  counted_all g
  = Z.of_nat (List.length
                (filter (fun r => match Db.vendor_code r with
                                  | Some _ => true
                                  | None => false
                                  end) pre)) ->
  let g' := fold_left (fun groups r =>
                         match Db.vendor_code r with
                         | Some v => count_row v groups
                         | None => groups
                         end) rows g in
  NoDup (map fst g') /\ Forall (fun e => 1 <= snd e) g'
  /\ (forall v, counted v g' = vendor_count v (pre ++ rows))
  /\ counted_all g'
     = Z.of_nat (List.length
                   (filter (fun r => match Db.vendor_code r with
                                     | Some _ => true
                                     | None => false
                                     end) (pre ++ rows))).
Proof.
  induction rows as [|r rows IH]; intros pre g Hn Hp Hc Ha; cbv zeta;
    cbn [fold_left].
  - rewrite List.app_nil_r. auto.
  - replace (pre ++ r :: rows) with ((pre ++ [r]) ++ rows)
      by (now rewrite <- List.app_assoc).
    apply IH.
    + destruct (Db.vendor_code r) as [w|]; trivial.
      destruct (count_row_keys w g) as [->|[Hw ->]]; trivial.
      now apply NoDup_app_one.
    + destruct (Db.vendor_code r) as [w|]; trivial.
      now apply count_row_positive.
    + intros v. unfold vendor_count. rewrite filter_app, length_app.
      cbn [filter]. unfold vendor_count in Hc.
      destruct (Db.vendor_code r) as [w|] eqn:Ew; cbn [opt_str_eqb].
      * rewrite counted_count_row, Hc.
        destruct (str_eqb w v); cbn [List.length]; lia.
      * rewrite Hc. cbn [List.length]. lia.
    + rewrite filter_app, length_app. cbn [filter].
      destruct (Db.vendor_code r) as [w|] eqn:Ew.
      * rewrite counted_all_count_row, Ha. cbn [List.length]. lia.
      * rewrite Ha. cbn [List.length]. lia.
Qed.

Lemma vendor_groups_spec rows :
  NoDup (map fst (vendor_groups rows))
  /\ Forall (fun e => 1 <= snd e) (vendor_groups rows)
  /\ (forall v, counted v (vendor_groups rows) = vendor_count v rows)
  /\ counted_all (vendor_groups rows) <= Z.of_nat (List.length rows).
Proof.
  destruct (@vendor_groups_from rows [] []) as (H1 & H2 & H3 & H4);
    try (constructor; fail); try reflexivity.
  cbn [app] in *. repeat split; trivial. unfold vendor_groups. rewrite H4.
  apply inj_le. apply filter_length_le.
Qed.

(** With distinct keys, the rows counted for a key are those of its
    entry. *)
Lemma counted_In v n g :
  NoDup (map fst g) -> In (v, n) g -> counted v g = n.
Proof.
  induction g as [|[x m] g IH]; intros Hn Hin; [destruct Hin|].
  cbn [map fst] in Hn. inversion Hn as [|? ? Hx Hg]; subst.
  cbn [counted]. destruct Hin as [[= -> ->]|Hin].
  - rewrite str_eqb_refl.
    assert (counted v g = 0); [|lia].
    clear IH Hn Hg. induction g as [|[y k] g IHg]; trivial.
    cbn [counted]. cbn [map fst] in Hx.
    destruct (str_eqb y v) eqn:E.
    + apply str_eqb_eq in E. subst y. destruct Hx. now left.
    + rewrite IHg; [lia|]. intros H. apply Hx. now right.
  - destruct (str_eqb x v) eqn:E.
    + apply str_eqb_eq in E. subst x. destruct Hx.
      change v with (fst (v, n)). now apply in_map.
    + rewrite (IH Hg Hin). lia.
Qed.

Lemma counted_positive v g :
  1 <= counted v g -> Forall (fun e => 1 <= snd e) g ->
  exists n, In (v, n) g.
Proof.
  induction g as [|[x m] g IH]; cbn [counted]; intros H Hp; [lia|].
  inversion Hp as [|? ? Hx Hg]; subst.
  destruct (str_eqb x v) eqn:E.
  - apply str_eqb_eq in E. subst x. exists m. now left.
  - destruct (IH ltac:(lia) Hg) as (n & Hn). exists n. now right.
Qed.

Lemma most_first_total a b : most_first a b = false -> most_first b a = true.
Proof. unfold most_first. rewrite Z.leb_gt, Z.leb_le. lia. Qed.

Lemma most_first_trans a b c :
  most_first a b = true -> most_first b c = true -> most_first a c = true.
Proof. unfold most_first. rewrite !Z.leb_le. lia. Qed.

Lemma NoDup_firstn (A : Type) n : forall l : list A,
  NoDup l -> NoDup (firstn n l).
Proof.
  induction n as [|n IH]; intros l H; [constructor|].
  destruct l as [|x l]; [constructor|]. cbn.
  inversion H as [|? ? Hx Hl]; subst. constructor; [|now apply IH].
  intros Hin. apply Hx. rewrite <- (firstn_skipn n l).
  apply in_or_app. now left.
Qed.

Lemma sorted_app (A : Type) (R : A -> A -> Prop) l1 : forall l2 x y,
  StronglySorted R (l1 ++ l2) -> In x l1 -> In y l2 -> R x y.
Proof.
  induction l1 as [|a l1 IH]; intros l2 x y H Hx Hy; [destruct Hx|].
  cbn in H. inversion H as [|? ? Hs Ha]; subst.
  destruct Hx as [<-|Hx].
  - rewrite Forall_forall in Ha. apply Ha. apply in_or_app. now right.
  - now apply (IH l2).
Qed.

Lemma counted_all_firstn n : forall g,
  Forall (fun e => 1 <= snd e) g ->
  counted_all (firstn n g) <= counted_all g.
Proof.
  unfold counted_all.
  induction n as [|n IH]; intros g H; cbn [firstn fold_right].
  - induction H as [|e g He Hg IHg]; cbn [fold_right]; lia.
  - destruct H as [|e g He Hg]; cbn [fold_right]; [lia|].
    specialize (IH g Hg). lia.
Qed.

Lemma counted_all_perm g g' :
  Permutation g g' -> counted_all g = counted_all g'.
Proof.
  unfold counted_all. induction 1; cbn [fold_right]; lia.
Qed.

(** X14. The vendor list of [get_statistics].  It names at most ten
    vendors, none twice, each with the number of its records (a positive
    number), the vendor with the most records first; a vendor it leaves
    out has no more records than any vendor it names, and is left out
    only when ten are named. *)
Theorem get_statistics_vendors st :
  let stats := vendor_stats (get_statistics st) in
  (List.length stats <= 10)%nat
  /\ NoDup (map fst stats)
  /\ (forall v n, In (v, n) stats ->
        n = vendor_count v (analysis st) /\ 1 <= n)
  /\ (forall i j a b, (i < j)%nat ->
        nth_error stats i = Some a -> nth_error stats j = Some b ->
        snd b <= snd a)
  /\ (forall v, 1 <= vendor_count v (analysis st) ->
        ~ In v (map fst stats) ->
        List.length stats = 10%nat
        /\ forall w n, In (w, n) stats -> vendor_count v (analysis st) <= n).
Proof.
  cbv zeta. cbn [get_statistics vendor_stats].
  set (groups := vendor_groups (analysis st)).
  destruct (vendor_groups_spec (analysis st)) as (Hn & Hp & Hc & _).
  fold groups in Hn, Hp, Hc.
  set (sorted := order_by most_first groups).
  assert (Hperm : Permutation sorted groups) by apply order_by_perm.
  assert (Hs : StronglySorted (fun a b => most_first a b = true) sorted).
  { apply order_by_sorted; [exact most_first_total|exact most_first_trans]. }
  assert (Hin : forall e, In e (firstn 10 sorted) -> In e groups).
  { intros e He. apply (Permutation_in _ Hperm).
    rewrite <- (firstn_skipn 10 sorted). apply in_or_app. now left. }
  split; [apply firstn_le_length|]. split; [|split; [|split]].
  - rewrite <- firstn_map. apply NoDup_firstn.
    apply (Permutation_NoDup (Permutation_sym (Permutation_map fst Hperm))).
    exact Hn.
  - intros v n He. apply Hin in He.
    rewrite <- Hc, (counted_In Hn He). split; trivial.
    rewrite Forall_forall in Hp. apply (Hp _ He).
  - intros i j a b Hij Ha Hb. apply Z.leb_le.
    change (most_first a b = true).
    eapply sorted_nth; [|exact Hij|exact Ha|exact Hb].
    now apply sorted_firstn.
  - intros v Hv Hout. rewrite <- Hc in Hv.
    destruct (counted_positive Hv Hp) as (m & Hm).
    assert (Hcm : vendor_count v (analysis st) = m)
      by (rewrite <- Hc; now apply counted_In).
    assert (Hsk : In (v, m) (skipn 10 sorted)).
    { apply (Permutation_in _ (Permutation_sym Hperm)) in Hm.
      rewrite <- (firstn_skipn 10 sorted) in Hm.
      apply in_app_or in Hm as [Hm|Hm]; trivial.
      destruct Hout. change v with (fst (v, m)). now apply in_map. }
    split.
    + rewrite length_firstn.
      assert (List.length (skipn 10 sorted) <> 0)%nat
        by (destruct (skipn 10 sorted); [destruct Hsk|discriminate]).
      rewrite length_skipn in H. lia.
    + intros w n Hw. rewrite Hcm.
      rewrite <- (firstn_skipn 10 sorted) in Hs.
      pose proof (sorted_app Hs Hw Hsk) as L. cbv beta in L.
      unfold most_first in L. apply Z.leb_le in L. exact L.
Qed.

Lemma max_created_at_spec rows :
  (max_created_at rows = None <-> rows = [])
  /\ forall t, max_created_at rows = Some t ->
       (exists r, In r rows /\ created_at r = t)
       /\ forall r, In r rows -> created_at r <= t.
Proof.
  destruct rows as [|r rows]; cbn [max_created_at].
  - split; [tauto|discriminate].
  - split; [split; discriminate|]. intros t [= <-].
    revert r. induction rows as [|x rows IH]; intros r; cbn [map fold_left].
    + split; [exists r; split; [now left|reflexivity]|].
      intros r' [<-|[]]. lia.
    + assert (Hm : exists y, In y [r; x]
                     /\ Z.max (created_at r) (created_at x) = created_at y
                     /\ created_at r <= created_at y
                     /\ created_at x <= created_at y).
      { destruct (Z.max_spec (created_at r) (created_at x)) as [[H ->]|[H ->]].
        - exists x. cbn. split; [auto|]. split; lia.
        - exists r. cbn. split; [auto|]. split; lia. }
      destruct Hm as (y & Hy & -> & L1 & L2).
      destruct (IH y) as ((r0 & Hr0 & Er0) & Hle). split.
      * exists r0. split; trivial.
        destruct Hr0 as [<-|Hr0]; [|now right; right].
        destruct Hy as [<-|[<-|[]]]; [now left|now right; left].
      * intros r' [<-|[<-|Hr']].
        -- specialize (Hle y (or_introl eq_refl)). lia.
        -- specialize (Hle y (or_introl eq_refl)). lia.
        -- apply Hle. now right.
Qed.

(** X15. The totals of [get_statistics].  The total is the number of
    records; the latest analysis is the creation time of a record that no
    creation time exceeds, the one of the first record [get_all_analysis]
    lists, and is missing for the empty table alone; the counts of the
    vendor list add up to no more than the total. *)
Theorem get_statistics_totals st :
  total_analysis (get_statistics st) = Z.of_nat (List.length (analysis st))
  /\ (latest_analysis (get_statistics st) = None <-> analysis st = [])
  /\ (forall t, latest_analysis (get_statistics st) = Some t ->
        (exists r, In r (analysis st) /\ created_at r = t)
        /\ forall r, In r (analysis st) -> created_at r <= t)
  /\ (forall r page, get_all_analysis st 1 0 = Some (r :: page) ->
        latest_analysis (get_statistics st) = Some (created_at r))
  /\ counted_all (vendor_stats (get_statistics st))
     <= total_analysis (get_statistics st).
Proof.
  cbn [get_statistics total_analysis latest_analysis vendor_stats].
  destruct (max_created_at_spec (analysis st)) as [H1 H2].
  split; [reflexivity|]. split; [exact H1|]. split; [exact H2|]. split.
  - intros r page E. unfold get_all_analysis in E. cbn in E.
    injection E as E.
    assert (Hs : StronglySorted (fun a b => newest_first a b = true)
                   (order_by newest_first (analysis st)))
      by (apply order_by_sorted;
          [exact newest_first_total|exact newest_first_trans]).
    destruct (order_by newest_first (analysis st)) as [|x l] eqn:Eo;
      [discriminate|].
    cbn in E. injection E as -> _.
    assert (Hin : forall y, In y (analysis st) <-> In y (r :: l))
      by (intros y; rewrite <- Eo; symmetry; apply order_by_In).
    destruct (max_created_at (analysis st)) as [t|] eqn:Em.
    + destruct (H2 t eq_refl) as ((r0 & Hr0 & <-) & Hle).
      f_equal. inversion Hs as [|? ? _ Hr]; subst.
      rewrite Forall_forall in Hr.
      assert (created_at r <= created_at r0)
        by (apply Hle, Hin; now left).
      apply Hin in Hr0 as [<-|Hr0]; trivial.
      specialize (Hr r0 Hr0). unfold newest_first in Hr.
      apply Z.leb_le in Hr. lia.
    + pose proof (proj1 H1 eq_refl) as En.
      assert (In r (analysis st)) by (apply Hin; now left).
      rewrite En in H. destruct H.
  - destruct (vendor_groups_spec (analysis st)) as (_ & Hp & _ & Ha).
    eapply Z.le_trans; [|exact Ha].
    rewrite <- (counted_all_perm (order_by_perm most_first
                                    (vendor_groups (analysis st)))).
    apply counted_all_firstn.
    apply Forall_forall. intros e He. apply order_by_In in He.
    rewrite Forall_forall in Hp. auto.
Qed.

End StatisticsFacts.

Module MetadataUpdate.

Import Db Props Queries OrderFacts MetadataRoundTrip.
Local Open Scope Z_scope.







End MetadataUpdate.

Module FileNameFacts.

Import Db Pipeline Files.
Local Open Scope N_scope.

(** *** [rfind] *)

Lemma rfind_from_none f s : forall i,
  forallb (fun c => negb (f c)) s = true -> rfind_from f s i = None.
Proof.
  induction s as [|c s IH]; intros i H; trivial.
  cbn in H. apply andb_true_iff in H as [H1 H2]. cbn.
  rewrite (IH _ H2). apply negb_true_iff in H1. now rewrite H1.
Qed.

Lemma rfind_from_last f a c b : forall i,
  f c = true -> forallb (fun x => negb (f x)) b = true ->
  rfind_from f (a ++ c :: b) i = Some (i + List.length a)%nat.
Proof.
  induction a as [|x a IH]; intros i Hc Hb; cbn [app rfind_from].
  - rewrite (rfind_from_none _ Hb), Hc. f_equal. cbn. lia.
  - rewrite (IH (S i) Hc Hb). f_equal. cbn. lia.
Qed.

(** What [rfind] finds is a last occurrence. *)
Lemma rfind_from_some f s : forall i j,
  rfind_from f s i = Some j ->
  exists a c b, s = a ++ c :: b /\ f c = true
                /\ forallb (fun x => negb (f x)) b = true
                /\ j = (i + List.length a)%nat.
Proof.
  induction s as [|x s IH]; intros i j H; [discriminate|].
  cbn in H. destruct (rfind_from f s (S i)) as [k|] eqn:E.
  - injection H as <-. destruct (IH _ _ E) as (a & c & b & -> & Hc & Hb & ->).
    exists (x :: a), c, b. repeat split; trivial. cbn. lia.
  - destruct (f x) eqn:Ex; [|discriminate]. injection H as <-.
    exists [], x, s. split; [reflexivity|]. split; [exact Ex|].
    split; [|cbn; lia].
    clear IH. revert E. generalize (S i).
    induction s as [|y s IHs]; intros n E; trivial. cbn in E.
    destruct (rfind_from f s (S n)) eqn:E'; [discriminate|].
    destruct (f y) eqn:Ey; [discriminate|]. cbn. rewrite Ey. cbn.
    now apply (IHs (S n)).
Qed.

Lemma firstn_app_length (A : Type) (a b : list A) :
  firstn (List.length a) (a ++ b) = a.
Proof.
  induction a as [|x a IH]; cbn; [now destruct b|]. now rewrite IH.
Qed.

Lemma skipn_app_length (A : Type) (a b : list A) :
  skipn (List.length a) (a ++ b) = b.
Proof. induction a as [|x a IH]; cbn; trivial. Qed.

Lemma ascii_lower_dot c : (ascii_lower c =? DOT) = (c =? DOT).
Proof.
  unfold ascii_lower, DOT.
  destruct ((65 <=? c) && (c <=? 90)) eqn:E; trivial.
  apply andb_true_iff in E as [E1 E2].
  apply N.leb_le in E1, E2.
  destruct (c + 32 =? 46) eqn:A; [apply N.eqb_eq in A; lia|].
  destruct (c =? 46) eqn:B; [apply N.eqb_eq in B; lia|]. reflexivity.
Qed.

Lemma no_dot_lower e :
  forallb (fun c => negb (N.eqb DOT c)) (map ascii_lower e)
  = forallb (fun c => negb (N.eqb DOT c)) e.
Proof.
  induction e as [|c e IH]; trivial. cbn [map forallb].
  now rewrite IH, !(N.eqb_sym DOT), ascii_lower_dot.
Qed.

(** The extensions looked for hold one dot, the first character. *)
Lemma extension_shape x :
  In x EXTENSIONS ->
  exists e, x = DOT :: e
            /\ forallb (fun c => negb (N.eqb DOT c)) e = true.
Proof.
  unfold EXTENSIONS.
  intros [<-|[<-|[<-|[<-|[<-|[<-|[<-|[]]]]]]]];
    (eexists; split; [reflexivity|reflexivity]).
Qed.

Section Platform.

Variable is_sep : char -> bool.
Variable unicode_lower : str -> str.

Lemma splitext_ext (stem e : str) :
  forallb (fun c => negb (is_sep c)) (stem ++ DOT :: e) = true ->
  forallb (fun c => negb (N.eqb DOT c)) e = true ->
  splitext is_sep (stem ++ DOT :: e)
  = if existsb (fun c => negb (c =? DOT)) stem
    then (stem, DOT :: e)
    else (stem ++ DOT :: e, []).
Proof.
  intros Hsep He. unfold splitext, rfind.
  rewrite (rfind_from_none _ Hsep).
  rewrite (@rfind_from_last (N.eqb DOT) stem DOT e 0%nat eq_refl He).
  cbn [Nat.add Nat.leb andb]. rewrite Nat.sub_0_r. cbn [skipn].
  now rewrite firstn_app_length, skipn_app_length.
Qed.

Lemma lower_ascii (s : str) :
  forallb (fun c => c <? 128) s = true ->
  lower unicode_lower s = map ascii_lower s.
Proof. unfold lower. now intros ->. Qed.

(** X17. Which names of a folder are datasheets.  For a name of ASCII
    characters without path separator: it is taken exactly when it ends in
    a dot and one of pdf, png, jpg, jpeg, bmp, gif, tiff, in either case of
    the letters, and a character other than a dot comes before that dot.
    So a name without dot, a name that is an extension alone (such as
    .pdf), and a name with a dot at its end are not taken. *)
Theorem is_datasheet_names (filename : str) :
  forallb (fun c => negb (is_sep c)) filename = true ->
  forallb (fun c => c <? 128) filename = true ->
  (is_datasheet is_sep unicode_lower filename = true
   <-> exists stem e,
         filename = stem ++ DOT :: e
         /\ existsb (fun c => negb (c =? DOT)) stem = true
         /\ In (DOT :: map ascii_lower e) EXTENSIONS)
  /\ (forallb (fun c => negb (N.eqb DOT c)) filename = true ->
      is_datasheet is_sep unicode_lower filename = false)
  /\ (forall dots e,
        filename = dots ++ e -> forallb (N.eqb DOT) dots = true ->
        forallb (fun c => negb (N.eqb DOT c)) e = true ->
        is_datasheet is_sep unicode_lower filename = false)
  /\ (forall stem, filename = stem ++ [DOT] ->
        is_datasheet is_sep unicode_lower filename = false).
Proof.
  intros Hsep Hascii.
  assert (Hno : forall s, forallb (fun c => negb (N.eqb DOT c)) s = true ->
                  s = filename ->
                  is_datasheet is_sep unicode_lower filename = false).
  { intros s Hs <-. unfold is_datasheet, splitext, rfind.
    now rewrite (rfind_from_none _ Hs). }
  assert (Hiff : is_datasheet is_sep unicode_lower filename = true
                 <-> exists stem e,
                       filename = stem ++ DOT :: e
                       /\ existsb (fun c => negb (c =? DOT)) stem = true
                       /\ In (DOT :: map ascii_lower e) EXTENSIONS).
  { unfold is_datasheet. rewrite existsb_exists. split.
    - intros (x & Hx & Ex). apply str_eqb_eq in Ex.
      unfold splitext, rfind in Ex.
      rewrite (rfind_from_none _ Hsep) in Ex.
      destruct (rfind_from (N.eqb DOT) filename 0) as [j|] eqn:Ej.
      + apply rfind_from_some in Ej as (a & c & b & E & Hc & Hb & ->).
        apply N.eqb_eq in Hc. subst c. cbn [Nat.add] in Ex.
        rewrite E in Ex. cbn [Nat.leb andb] in Ex.
        rewrite Nat.sub_0_r in Ex. cbn [skipn] in Ex.
        rewrite firstn_app_length, skipn_app_length in Ex.
        destruct (existsb (fun c => negb (c =? DOT)) a) eqn:Ea.
        * cbn [snd] in Ex. exists a, b. split; [exact E|]. split; trivial.
          rewrite lower_ascii in Ex.
          -- cbn [map] in Ex.
             change (ascii_lower DOT) with DOT in Ex. now rewrite Ex.
          -- rewrite E in Hascii. rewrite forallb_app in Hascii.
             now apply andb_true_iff in Hascii as [_ H].
        * cbn [snd] in Ex. unfold lower in Ex. cbn in Ex. subst x.
          apply extension_shape in Hx as (e & He & _). discriminate.
      + cbn [snd] in Ex. unfold lower in Ex. cbn in Ex. subst x.
        apply extension_shape in Hx as (e & He & _). discriminate.
    - intros (stem & e & -> & Hstem & Hin).
      exists (DOT :: map ascii_lower e). split; trivial.
      destruct (extension_shape Hin) as (e' & [= <-] & He').
      rewrite no_dot_lower in He'.
      rewrite (splitext_ext Hsep He'), Hstem. cbn [snd].
      rewrite lower_ascii.
      + cbn [map]. change (ascii_lower DOT) with DOT. apply str_eqb_refl.
      + rewrite forallb_app in Hascii.
        now apply andb_true_iff in Hascii as [_ H]. }
  split; [exact Hiff|]. split; [intros H; now apply (Hno filename)|].
  split.
  - intros dots e -> Hd He.
    apply not_true_is_false. intros Ed.
    apply Hiff in Ed as (stem & x & E & Hstem & Hin).
    destruct (extension_shape Hin) as (e' & [= <-] & He').
    rewrite no_dot_lower in He'.
    (* the last dot of the name lies in [dots] *)
    assert (Hlast : rfind_from (N.eqb DOT) (dots ++ e) 0
                    = Some (List.length stem)).
    { rewrite E. now apply (@rfind_from_last (N.eqb DOT) stem DOT x 0%nat). }
    destruct dots as [|d dots] using rev_ind.
    + cbn [app] in Hlast. rewrite (rfind_from_none _ He) in Hlast.
      discriminate.
    + clear IHdots. rewrite forallb_app in Hd.
      apply andb_true_iff in Hd as [Hd1 Hd2]. cbn in Hd2.
      rewrite andb_true_r in Hd2.
      rewrite <- List.app_assoc in Hlast. cbn [app] in Hlast.
      rewrite (@rfind_from_last (N.eqb DOT) dots d e 0%nat Hd2 He) in Hlast.
      injection Hlast as Hl. cbn [Nat.add] in Hl.
      assert (Hs : stem = dots).
      { rewrite <- List.app_assoc in E. cbn [app] in E.
        apply (f_equal (firstn (List.length dots))) in E.
        rewrite firstn_app_length, Hl, firstn_app_length in E.
        now symmetry. }
      subst stem. apply existsb_exists in Hstem as (c & Hc & Hn).
      rewrite forallb_forall in Hd1. specialize (Hd1 c Hc).
      apply N.eqb_eq in Hd1. subst c. discriminate.
  - intros stem ->.
    apply not_true_is_false. intros Ed.
    apply Hiff in Ed as (stem' & x & E & Hstem & Hin).
    destruct (extension_shape Hin) as (e' & [= <-] & He').
    rewrite no_dot_lower in He'.
    destruct x as [|c x] using rev_ind.
    + unfold EXTENSIONS in Hin. cbn in Hin.
      destruct Hin as [H|[H|[H|[H|[H|[H|[H|[]]]]]]]]; discriminate.
    + clear IHx. change (stem' ++ DOT :: x ++ [c])
        with (stem' ++ (DOT :: x) ++ [c]) in E.
      rewrite List.app_assoc in E. apply app_inj_tail in E as [_ <-].
      rewrite forallb_app in He'. apply andb_true_iff in He' as [_ H].
      discriminate.
Qed.

End Platform.

Lemma is_datasheet_names_witness :
  is_datasheet (N.eqb 47) (fun s => s) (lit "LM317.PDF") = true
  /\ is_datasheet (N.eqb 47) (fun s => s) (lit ".pdf") = false.
Proof.
  destruct (@is_datasheet_names (N.eqb 47) (fun s => s) (lit "LM317.PDF"))
    as (H1 & _); [reflexivity|reflexivity|].
  destruct (@is_datasheet_names (N.eqb 47) (fun s => s) (lit ".pdf"))
    as (_ & _ & H3 & _); [reflexivity|reflexivity|].
  split.
  - apply H1. exists (lit "LM317"), (lit "PDF").
    split; [reflexivity|]. split; [reflexivity|]. left. reflexivity.
  - apply (H3 [DOT] (lit "pdf")); reflexivity.
Defined.

End FileNameFacts.

Module FileListFacts.

Import Db Pipeline Props Files OrderFacts.
Local Open Scope nat_scope.



Section Platform.

Variable is_sep : char -> bool.
Variable basename : str -> str.
Variable unicode_lower : str -> str.


(** *** [needle in s] *)

Lemma startswith_app p s : startswith p (p ++ s) = true.
Proof.
  unfold startswith.
  assert (H : strip_prefix p (p ++ s) = Some s).
  { induction p as [|c p IH]; cbn; trivial.
    unfold char_eqb. now rewrite N.eqb_refl. }
  now rewrite H.
Qed.

Lemma contains_app a needle b : contains needle (a ++ needle ++ b) = true.
Proof.
  induction a as [|c a IH]; cbn [app].
  - destruct (needle ++ b) eqn:E; cbn [contains]; rewrite <- E;
      now rewrite startswith_app.
  - cbn [contains]. rewrite IH. apply orb_true_r.
Qed.

(** X19. An event on a path that holds the word [results], be it in a
    folder name or in the name of the file itself, leaves the file list as
    it is; so does an event of a kind other than created, deleted and
    renamed, and a rename without destination. *)
Theorem on_file_changed_ignored datasheets folder event_type src_path
  dest_path :
  (exists a b, src_path = a ++ lit "results" ++ b)
  \/ (event_type <> lit "created" /\ event_type <> lit "deleted"
      /\ event_type <> lit "renamed")
  \/ (event_type = lit "renamed"
      /\ (dest_path = None \/ dest_path = Some [])) ->
  Files.on_file_changed is_sep basename unicode_lower datasheets folder
    event_type src_path dest_path
  = datasheets.
Proof.
  unfold Files.on_file_changed.
  intros [(a & b & ->)|[(H1 & H2 & H3)|(-> & H)]].
  - rewrite contains_app. cbn [negb].
    destruct (str_eqb event_type (lit "created")); trivial.
    destruct (str_eqb event_type (lit "deleted")); trivial.
    destruct (str_eqb event_type (lit "renamed")); trivial.
    now destruct dest_path as [[|c d]|].
  - apply str_eqb_neq in H1, H2, H3. now rewrite H1, H2, H3.
  - change (str_eqb (lit "renamed") (lit "created")) with false.
    change (str_eqb (lit "renamed") (lit "deleted")) with false.
    change (str_eqb (lit "renamed") (lit "renamed")) with true.
    cbv iota. now destruct H as [->| ->].
Qed.

(** X20. A file that appears and goes.  A created datasheet is put at the
    end of the list, Ready, whether or not a descriptor of its name is
    there; a deleted file takes every descriptor of its name with it and
    no other; so creation followed by deletion gives back the list when no
    descriptor had the name. *)
Theorem on_file_changed_created_deleted datasheets folder src_path :
  contains (lit "results") src_path = false ->
  let created :=
    Files.on_file_changed is_sep basename unicode_lower datasheets folder
      (lit "created") src_path None in
  let deleted :=
    Files.on_file_changed is_sep basename unicode_lower datasheets folder
      (lit "deleted") src_path None in
  created = (if Files.is_datasheet is_sep unicode_lower (basename src_path)
             then datasheets ++ [new_datasheet (basename src_path) folder]
             else datasheets)
  /\ (forall d, In d deleted
        <-> In d datasheets /\ datasheet_filename d <> basename src_path)
  /\ (exists kept, deleted = kept
        /\ forall i j a b, i < j -> nth_error kept i = Some a ->
             nth_error kept j = Some b ->
             exists i' j', i' < j' /\ nth_error datasheets i' = Some a
                           /\ nth_error datasheets j' = Some b)
  /\ ((forall d, In d datasheets ->
         datasheet_filename d <> basename src_path) ->
      Files.on_file_changed is_sep basename unicode_lower created folder
        (lit "deleted") src_path None
      = datasheets).
Proof.
  intros Hr. cbv zeta. unfold Files.on_file_changed. rewrite Hr.
  cbn [negb]. rewrite str_eqb_refl.
  change (str_eqb (lit "deleted") (lit "created")) with false.
  cbv iota. rewrite str_eqb_refl.
  split; [reflexivity|]. split; [|split].
  - intros d. rewrite filter_In, negb_true_iff, str_eqb_neq. tauto.
  - eexists. split; [reflexivity|].
    induction datasheets as [|x l IH]; intros i j a b Hij Ha Hb.
    + destruct i; discriminate.
    + cbn [filter] in Ha, Hb.
      destruct (negb (str_eqb (datasheet_filename x) (basename src_path))).
      * destruct j as [|j]; [lia|]. destruct i as [|i].
        -- cbn in Ha, Hb. injection Ha as <-.
           apply nth_error_In in Hb. apply filter_In in Hb as [Hb _].
           apply In_nth_error in Hb as (k & Hk).
           exists 0, (S k). repeat split; trivial. lia.
        -- cbn in Ha, Hb.
           destruct (IH i j a b ltac:(lia) Ha Hb) as (i' & j' & H1 & H2 & H3).
           exists (S i'), (S j'). repeat split; trivial. lia.
      * destruct (IH i j a b Hij Ha Hb) as (i' & j' & H1 & H2 & H3).
        exists (S i'), (S j'). repeat split; trivial. lia.
  - intros Hfresh.
    assert (Hall : filter (fun d => negb (str_eqb (datasheet_filename d)
                                            (basename src_path)))
                     datasheets = datasheets).
    { apply filter_all. intros d Hd. apply negb_true_iff, str_eqb_neq.
      now apply Hfresh. }
    destruct (Files.is_datasheet is_sep unicode_lower (basename src_path));
      trivial.
    rewrite filter_app, Hall. cbn [filter new_datasheet datasheet_filename].
    rewrite str_eqb_refl. cbn. apply List.app_nil_r.
Qed.

Lemma rename_first_spec old new datasheets :
  List.length (rename_first old new datasheets) = List.length datasheets
  /\ map Pipeline.status (rename_first old new datasheets)
     = map Pipeline.status datasheets
  /\ map folder_path (rename_first old new datasheets)
     = map folder_path datasheets
  /\ ((forall d, In d datasheets -> datasheet_filename d <> old) ->
      rename_first old new datasheets = datasheets)
  /\ forall i d,
       nth_error datasheets i = Some d -> datasheet_filename d = old ->
       (forall j d', j < i -> nth_error datasheets j = Some d' ->
          datasheet_filename d' <> old) ->
       forall j,
         nth_error (rename_first old new datasheets) j
         = if j =? i
           then Some {| datasheet_filename := new;
                        folder_path := folder_path d;
                        Pipeline.status := Pipeline.status d |}
           else nth_error datasheets j.
Proof.
  induction datasheets as [|x l (IH1 & IH2 & IH3 & IH4 & IH5)];
    cbn [rename_first].
  - repeat split; trivial. intros [|i] d H; discriminate.
  - destruct (str_eqb (datasheet_filename x) old) eqn:E.
    + apply str_eqb_eq in E. repeat split; trivial.
      * intros H. destruct (H x (or_introl eq_refl) E).
      * intros [|i] d Hi Hd Hfirst j.
        -- cbn in Hi. injection Hi as <-. now destruct j.
        -- destruct (Hfirst 0 x ltac:(lia) eq_refl E).
    + apply str_eqb_neq in E. cbn [List.length map].
      rewrite IH1, IH2, IH3. repeat split; trivial.
      * intros H. f_equal. apply IH4. intros d Hd. apply H. now right.
      * intros [|i] d Hi Hd Hfirst j.
        -- cbn in Hi. injection Hi as <-. contradiction.
        -- cbn in Hi. destruct j as [|j]; trivial. cbn [nth_error].
           rewrite (IH5 i d Hi Hd).
           ++ reflexivity.
           ++ intros k d' Hk Hd'. apply (Hfirst (S k) d'); [lia|exact Hd'].
Qed.

(** X21. A renamed file.  The first descriptor of the old name takes the
    new name and keeps its status and folder; every other descriptor,
    later ones of the old name too, is as it was; without a descriptor of
    the old name the list is as it was.  The new name is taken whatever
    its extension. *)
Theorem on_file_changed_renamed datasheets folder src_path dest :
  contains (lit "results") src_path = false -> dest <> [] ->
  let renamed :=
    Files.on_file_changed is_sep basename unicode_lower datasheets folder
      (lit "renamed") src_path (Some dest) in
  List.length renamed = List.length datasheets
  /\ map Pipeline.status renamed = map Pipeline.status datasheets
  /\ ((forall d, In d datasheets ->
         datasheet_filename d <> basename src_path) ->
      renamed = datasheets)
  /\ forall i d,
       nth_error datasheets i = Some d ->
       datasheet_filename d = basename src_path ->
       (forall j d', j < i -> nth_error datasheets j = Some d' ->
          datasheet_filename d' <> basename src_path) ->
       forall j,
         nth_error renamed j
         = if j =? i
           then Some {| datasheet_filename := basename dest;
                        folder_path := folder_path d;
                        Pipeline.status := Pipeline.status d |}
           else nth_error datasheets j.
Proof.
  intros Hr Hd. cbv zeta. unfold Files.on_file_changed. rewrite Hr.
  cbn [negb].
  change (str_eqb (lit "renamed") (lit "created")) with false.
  change (str_eqb (lit "renamed") (lit "deleted")) with false.
  rewrite str_eqb_refl. cbv iota.
  destruct dest as [|c dest]; [contradiction|].
  destruct (rename_first_spec (basename src_path) (basename (c :: dest))
              datasheets) as (H1 & H2 & _ & H4 & H5).
  split; [exact H1|]. split; [exact H2|]. split; [exact H4|exact H5].
Qed.

End Platform.

Lemma on_file_changed_ignored_witness :
  Files.on_file_changed (N.eqb 47) (fun s => s) (fun s => s)
    [finished_pdf] (lit "C:/datasheets") (lit "created")
    (lit "results_2024.pdf") None
  = [finished_pdf].
Proof.
  apply (@on_file_changed_ignored (N.eqb 47) (fun s => s) (fun s => s)).
  left. exists [], (lit "_2024.pdf"). reflexivity.
Defined.

Lemma on_file_changed_created_deleted_witness :
  Files.on_file_changed (N.eqb 47) (fun s => s) (fun s => s)
    (Files.on_file_changed (N.eqb 47) (fun s => s) (fun s => s)
       [finished_pdf] (lit "C:/datasheets") (lit "created") (lit "b.pdf")
       None)
    (lit "C:/datasheets") (lit "deleted") (lit "b.pdf") None
  = [finished_pdf].
Proof.
  destruct (@on_file_changed_created_deleted (N.eqb 47) (fun s => s)
              (fun s => s) [finished_pdf] (lit "C:/datasheets")
              (lit "b.pdf"))
    as (_ & _ & _ & H); [reflexivity|].
  apply H. intros d [<-|[]]. discriminate.
Defined.

Lemma on_file_changed_renamed_witness :
  nth_error
    (Files.on_file_changed (N.eqb 47) (fun s => s) (fun s => s)
       [finished_pdf] (lit "C:/datasheets") (lit "renamed") (lit "a.pdf")
       (Some (lit "notes.txt"))) 0
  = Some {| datasheet_filename := lit "notes.txt";
            folder_path := lit "C:/datasheets";
            Pipeline.status := FINISH |}.
Proof.
  destruct (@on_file_changed_renamed (N.eqb 47) (fun s => s) (fun s => s)
              [finished_pdf] (lit "C:/datasheets") (lit "a.pdf")
              (lit "notes.txt"))
    as (_ & _ & _ & H); [reflexivity|discriminate|].
  apply (H 0 finished_pdf); [reflexivity|reflexivity|].
  intros j d' Hj. lia.
Defined.

End FileListFacts.

Module TableFacts.

Import Db Pipeline Props Files Table OrderFacts FileListFacts.
Local Open Scope nat_scope.

Lemma checked_count_positive table :
  (0 <? List.length (filter is_checked table)) = existsb is_checked table.
Proof.
  induction table as [|r table IH]; trivial. cbn [filter existsb].
  destruct (is_checked r); trivial.
Qed.

Lemma checked_rows_from_spec table : forall i j,
  In j (checked_rows_from i table)
  <-> i <= j /\ exists r, nth_error table (j - i) = Some r
                          /\ is_checked r = true.
Proof.
  induction table as [|x table IH]; intros i j; cbn [checked_rows_from].
  - split; [intros []|]. intros (_ & r & H & _). now destruct (j - i).
  - assert (Hstep : In j (checked_rows_from (S i) table)
                    <-> i < j /\ exists r, nth_error (x :: table) (j - i)
                                           = Some r /\ is_checked r = true).
    { rewrite IH. split.
      - intros (Hle & r & Hn & Hr). split; [lia|]. exists r.
        replace (j - i) with (S (j - S i)) by lia. auto.
      - intros (Hlt & r & Hn & Hr). split; [lia|]. exists r.
        replace (j - i) with (S (j - S i)) in Hn by lia. auto. }
    destruct (is_checked x) eqn:E; cbn [In]; rewrite Hstep.
    + split.
      * intros [<-|(Hlt & H)]; [|split; [lia|exact H]].
        split; [lia|]. exists x. now rewrite Nat.sub_diag.
      * intros (Hle & r & Hn & Hr).
        destruct (Nat.eq_dec i j) as [->|Hne]; [now left|right].
        split; [lia|]. now exists r.
    + split.
      * intros (Hlt & H). split; [lia|exact H].
      * intros (Hle & r & Hn & Hr).
        destruct (Nat.eq_dec i j) as [->|Hne].
        -- rewrite Nat.sub_diag in Hn. injection Hn as <-. congruence.
        -- split; [lia|]. now exists r.
Qed.




(** X22. A click on the header of the checkbox column.  Every checkbox takes
    one state: checked when none was checked, unchecked when one was; the
    header shows that state; the other cells and the number of rows are as
    before.  A second click turns every checkbox the other way, and a
    click on another column does nothing. *)
Theorem on_header_clicked_toggles table :
  let new_state := negb (existsb is_checked table) in
  let after := fst (on_header_clicked table 0) in
  List.length after = List.length table
  /\ (forall i r, nth_error table i = Some r ->
        exists r', nth_error after i = Some r'
          /\ name r' = name r /\ status_text r' = status_text r
          /\ has_result r' = has_result r
          /\ checkbox r' = option_map (fun _ => new_state) (checkbox r))
  /\ snd (on_header_clicked table 0)
     = Some (if new_state then BALLOT_BOX_CHECKED else BALLOT_BOX)
  /\ ((exists r, In r table /\ checkbox r <> None) ->
      forall i r, nth_error table i = Some r ->
        exists r'', nth_error (fst (on_header_clicked after 0)) i = Some r''
          /\ checkbox r''
             = option_map (fun _ => negb new_state) (checkbox r))
  /\ (forall logical_index, logical_index <> 0%Z ->
        on_header_clicked table logical_index = (table, None)).
Proof.
  cbv zeta. unfold on_header_clicked. cbn [Z.eqb fst snd].
  rewrite checked_count_positive.
  set (b := negb (existsb is_checked table)).
  split; [apply length_map|]. split; [|split; [reflexivity|split]].
  - intros i r Hi. rewrite nth_error_map, Hi. cbn [option_map].
    eexists. split; [reflexivity|]. cbn.
    repeat split; try now destruct (checkbox r).
  - intros (r0 & Hin & Hbox) i r Hi.
    rewrite checked_count_positive.
    rewrite !nth_error_map, Hi. cbn [option_map].
    eexists. split; [reflexivity|]. cbn [set_check_state checkbox].
    assert (Hb : existsb is_checked (map (set_check_state b) table) = b).
    { destruct b eqn:Eb.
      - apply existsb_exists. exists (set_check_state true r0).
        split; [now apply in_map|]. unfold is_checked. cbn.
        destruct (checkbox r0); [reflexivity|contradiction].
      - apply not_true_is_false. intros H.
        apply existsb_exists in H as (x & Hx & Hc).
        apply in_map_iff in Hx as (y & <- & _).
        unfold is_checked in Hc. cbn in Hc. now destruct (checkbox y). }
    rewrite Hb. now destruct (checkbox r).
  - intros logical_index H. apply Z.eqb_neq in H. now rewrite H.
Qed.







End TableFacts.

Module RunFacts.

Import Db Pipeline Props DbFacts PipelineFacts RunVocabulary.
Local Open Scope Z_scope.

(** What saving the record of a run leaves in the analysis table. *)
Lemma save_record_analysis env st fn vendor_code analysis_result tags
  checklist st1 :
  save_record env st fn vendor_code analysis_result tags checklist
  = StoreIs st1 ->
  st1 = st
  \/ exists id h,
       file_hash_of env = Some h
       /\ analysis st1
          = analysis st
            ++ [{| a_id := id; filename := fn;
                   Db.vendor_code := Some vendor_code;
                   Db.analysis_result := analysis_result;
                   file_hash := Some h; Db.status := lit "Finish";
                   created_at := insert_time env;
                   updated_at := insert_time env |}].
Proof.
  unfold save_record.
  destruct (file_hash_of env) as [h|]; [|intros [= <-]; now left].
  destruct tags as [metadata| | |];
    [|intros [= <-]; now left|intros [= <-]; now left|discriminate].
  destruct (sqlite_keys metadata) as [items|]; [|intros [= <-]; now left].
  destruct (insert_analysis st (insert_time env) fn analysis_result
              (Some vendor_code) (Some h) (Some items))
    as [st' [id|e]] eqn:E.
  - destruct checklist as [texts|e|];
      [|intros [= <-]; now left|discriminate].
    intros [= <-]. right. exists id, h. split; trivial.
    destruct (store_checkpoints_frame env id texts st' 0) as (Ha & _).
    rewrite Ha. now apply insert_analysis_ok in E as (_ & E & _).
  - intros [= <-]. left. now apply insert_analysis_raise in E.
Qed.

Lemma save_record_present env st fn vendor_code analysis_result tags
  checklist h st1 :
  file_hash_of env = Some h ->
  (exists r, In r (analysis st) /\ filename r = fn /\ file_hash r = Some h) ->
  save_record env st fn vendor_code analysis_result tags checklist
  = StoreIs st1 ->
  st1 = st.
Proof.
  intros Hh Hp. unfold save_record. rewrite Hh.
  destruct tags as [metadata| | |];
    [|now intros [= <-]|now intros [= <-]|discriminate].
  destruct (sqlite_keys metadata) as [items|]; [|now intros [= <-]].
  rewrite (insert_analysis_present (insert_time env) analysis_result
             (Some vendor_code) (Some items) Hp).
  now intros [= <-].
Qed.

Lemma analyze_datasheet_after repr env st d st1 :
  after (analyze_datasheet repr env st d) = StoreIs st1 ->
  st1 = st
  \/ exists v a t c,
       vendor_response env = Some v /\ analysis_response env = Some a
       /\ save_record env st (datasheet_filename d) (strip v) a t c
          = StoreIs st1.
Proof.
  unfold analyze_datasheet.
  destruct (images env); [|intros [= <-]; now left].
  destruct (vendor_response env) as [v|]; [|intros [= <-]; now left].
  destruct (analysis_response env) as [a|]; [|intros [= <-]; now left].
  destruct (tag_response env) as [t|]; [|intros [= <-]; now left].
  destruct (tag_step (interp env) t) eqn:Et;
    try (intros [= <-]; now left);
    (destruct (checkpoint_response env) as [c|];
     [|intros [= <-]; now left]);
    (destruct (checklist_step repr (interp env) c) eqn:Ec;
     try (intros [= <-]; now left));
    cbn [after]; intros H; right; eauto 10.
Qed.

(** X25. A run stores its record once.  The store a run leaves is the store
    it found or that store with one more record: the name of the file, the
    vendor code without the white space around it, the analysis as it was
    answered, the hash of the file, status Finish.  A later run for the
    same file with the same hash, whatever the services answer, adds no
    record and changes nothing in the store. *)
Theorem run_stores_record_once repr env st d st1 :
  after (analyze_datasheet repr env st d) = StoreIs st1 ->
  (st1 = st
   \/ exists id h v a,
        file_hash_of env = Some h /\ vendor_response env = Some v
        /\ analysis_response env = Some a
        /\ analysis st1
           = analysis st
             ++ [{| a_id := id; filename := datasheet_filename d;
                    Db.vendor_code := Some (strip v);
                    Db.analysis_result := a;
                    file_hash := Some h; Db.status := lit "Finish";
                    created_at := insert_time env;
                    updated_at := insert_time env |}])
  /\ (forall h, file_hash_of env = Some h ->
        (exists r, In r (analysis st1)
                   /\ filename r = datasheet_filename d
                   /\ file_hash r = Some h) ->
        forall repr2 env2 st2,
          file_hash_of env2 = Some h ->
          after (analyze_datasheet repr2 env2 st1 d) = StoreIs st2 ->
          st2 = st1).
Proof.
  intros H. split.
  - apply analyze_datasheet_after in H as [->|(v & a & t & c & Hv & Ha & Hs)];
      [now left|].
    apply save_record_analysis in Hs as [->|(id & h & Hh & E)];
      [now left|].
    right. exists id, h, v, a. auto.
  - intros h Hh Hp repr2 env2 st2 Hh2 H2.
    apply analyze_datasheet_after in H2
      as [->|(v & a & t & c & _ & _ & Hs)]; trivial.
    now apply (save_record_present Hh2 Hp) in Hs.
Qed.

Lemma run_stores_record_once_witness :
  after (analyze_datasheet (fun _ => []) env_ok empty_store finished_pdf)
  = StoreIs store_after_run
  /\ after (analyze_datasheet (fun _ => []) env_ok store_after_run
              finished_pdf)
     = StoreIs store_after_run.
Proof.
  assert (H : after (analyze_datasheet (fun _ => []) env_ok empty_store
                       finished_pdf) = StoreIs store_after_run)
    by reflexivity.
  split; [exact H|].
  destruct (@run_stores_record_once (fun _ => []) env_ok empty_store
              finished_pdf store_after_run H) as (_ & H2).
  transitivity
    (StoreIs
       (match after (analyze_datasheet (fun _ => []) env_ok store_after_run
                       finished_pdf) with
        | StoreIs st => st
        | StoreOpen => empty_store
        end)); [reflexivity|].
  apply (f_equal StoreIs).
  refine (H2 (lit "abc") eq_refl _ (fun _ => []) env_ok _ eq_refl eq_refl).
  eexists. split; [left; reflexivity|]. split; reflexivity.
Defined.

End RunFacts.

Module ImageFacts.

Import Raster Props Files Images RasterFacts.
Local Open Scope Z_scope.

Section Reader.

Variable page : Type.
Variable render : page -> Z -> option (list Byte.byte).
Variable is_sep : char -> bool.
Variable unicode_lower : str -> str.

Lemma render_pages_some dpi pages : forall images,
  render_pages render pages dpi = Some images ->
  List.length images = List.length pages
  /\ forall img, In img images ->
       exists png, img = PNG_PREFIX ++ b64encode png.
Proof.
  induction pages as [|p pages IH]; intros images H; cbn in H.
  - injection H as <-. split; trivial. intros img [].
  - destruct (render p dpi) as [png|]; [|discriminate].
    destruct (render_pages render pages dpi) as [rest|]; [|discriminate].
    injection H as <-. destruct (IH rest eq_refl) as [H1 H2]. split.
    + cbn. now rewrite H1.
    + intros img [<-|Hin]; [now exists png|now apply H2].
Qed.

(** X26. The images of a run.  A PDF gives one image for each of its first
    five pages and no more; any other file gives one image, labelled with
    its extension in lower case; every image is a data URI whose payload
    is base64 text.  A file that cannot be opened or read gives none: the
    run fails. *)
Theorem datasheet_images_count filename doc content images :
  datasheet_images render is_sep unicode_lower filename doc content
  = Some images ->
  let ext := lower unicode_lower (snd (splitext is_sep filename)) in
  (List.length images <= 5)%nat
  /\ (forall img, In img images ->
        exists kind payload,
          img = lit "data:image/" ++ kind ++ lit ";base64," ++ payload
          /\ forallb is_b64char payload = true)
  /\ (ext = lit ".pdf" ->
      exists pages, doc = Some pages
        /\ List.length images = Nat.min (List.length pages) 5)
  /\ (ext <> lit ".pdf" ->
      exists img_bytes, content = Some img_bytes
        /\ images = [lit "data:image/" ++ skipn 1 ext ++ lit ";base64,"
                     ++ b64encode img_bytes]).
Proof.
  unfold datasheet_images. cbv zeta.
  set (ext := lower unicode_lower (snd (splitext is_sep filename))).
  destruct (str_eqb ext (lit ".pdf")) eqn:E.
  - apply str_eqb_eq in E. unfold pdf_to_base64_images.
    destruct doc as [pages|]; [|discriminate]. intros H.
    apply render_pages_some in H as [H1 H2].
    rewrite length_firstn in H1.
    assert (Hn : Z.to_nat (Z.min (Z.of_nat (List.length pages)) 5)
                 = Nat.min (List.length pages) 5) by lia.
    rewrite Hn in H1.
    split; [lia|]. split; [|split].
    + intros img Hin. destruct (H2 img Hin) as (png & ->).
      exists (lit "png"), (b64encode png). split; [reflexivity|].
      apply (b64encode_shape (k := List.length png)). lia.
    + intros _. exists pages. split; trivial. lia.
    + intros Hne. contradiction.
  - apply str_eqb_neq in E.
    destruct content as [img_bytes|]; [|discriminate]. intros [= <-].
    split; [cbn; lia|]. split; [|split].
    + intros img [<-|[]]. exists (skipn 1 ext), (b64encode img_bytes).
      split; [reflexivity|].
      apply (b64encode_shape (k := List.length img_bytes)). lia.
    + intros Hpdf. contradiction.
    + intros _. now exists img_bytes.
Qed.

End Reader.

Lemma datasheet_images_count_witness :
  exists images,
    datasheet_images render_bytes (N.eqb 47) (fun s => s) (lit "LM317.PDF")
      (Some three_pages) None = Some images
    /\ (List.length images <= 5)%nat.
Proof.
  eexists. split; [reflexivity|].
  apply (@datasheet_images_count _ render_bytes (N.eqb 47) (fun s => s)
           (lit "LM317.PDF") (Some three_pages) None).
  reflexivity.
Defined.

End ImageFacts.

Module AnswerFacts.

Import Fence Pipeline Props FenceFacts.
Local Open Scope N_scope.

Lemma strip_prefix_same p : forall x, strip_prefix p (p ++ x) = Some x.
Proof.
  induction p as [|a p IH]; intros x; cbn [app strip_prefix]; trivial.
  unfold char_eqb. now rewrite N.eqb_refl.
Qed.

Lemma strip_prefix_fence_plain c t :
  c <> BACKTICK -> strip_prefix FENCE (c :: t) = None.
Proof.
  intros Hc. unfold FENCE. cbn [strip_prefix]. unfold char_eqb.
  destruct (N.eqb_spec BACKTICK c); [congruence|trivial].
Qed.

(** A text without a backtick has no fence. *)
Lemma split_fence_plain s :
  Forall (fun c => c <> BACKTICK) s -> split_fence s = None.
Proof.
  induction 1 as [|c t Hc _ IH]; trivial.
  now rewrite (split_fence_step (strip_prefix_fence_plain t Hc)), IH.
Qed.

(** The first fence after a text without a backtick. *)
Lemma split_fence_app pre r :
  Forall (fun c => c <> BACKTICK) pre ->
  split_fence (pre ++ FENCE ++ r) = Some (pre, r).
Proof.
  induction 1 as [|c t Hc _ IH]; cbn [app].
  - apply split_fence_head. apply strip_prefix_same.
  - change (c :: t ++ BACKTICK :: BACKTICK :: BACKTICK :: r)
      with (c :: (t ++ FENCE ++ r)).
    now rewrite (split_fence_step (strip_prefix_fence_plain _ Hc)), IH.
Qed.

Lemma after_tag_plain body :
  Forall (fun c => c <> BACKTICK) body ->
  Forall (fun c => c <> BACKTICK) (after_tag body).
Proof.
  intros H. unfold after_tag.
  destruct (strip_prefix JSON_TAG body) as [a|] eqn:E; trivial.
  apply strip_prefix_app in E. rewrite E in H.
  now apply Forall_app in H as [_ H].
Qed.

(** The tag is looked for in the body alone when a backtick follows the
    body. *)
Lemma after_tag_app body t :
  after_tag (body ++ BACKTICK :: t) = after_tag body ++ BACKTICK :: t.
Proof.
  unfold after_tag, JSON_TAG. cbn [lit N_of_ascii].
  destruct body as [|a [|b [|c [|d body]]]]; cbn [app strip_prefix];
    unfold char_eqb;
    repeat match goal with
           | |- context [N.eqb ?x ?y] =>
               destruct (N.eqb_spec x y); try subst; try discriminate
           end; trivial.
Qed.

(** X27. The payload the tag step and the checklist step take from an
    answer.  When neither the text before the first fence nor the body
    after it holds a backtick: from a fenced block opened with the tag
    json the payload is the body without the white space around it, the
    text before the block and the text after it being dropped; a block
    opened without the tag gives its body too, less the letters json when
    it starts with them.  A fence that is never closed is no block: the
    whole answer is taken, the fence included, as it is for an answer
    without a fence. *)
Theorem candidate_fenced_answer (pre body post : str) :
  Forall (fun c => c <> BACKTICK) pre ->
  Forall (fun c => c <> BACKTICK) body ->
  candidate (pre ++ FENCE ++ JSON_TAG ++ body ++ FENCE ++ post) = strip body
  /\ candidate (pre ++ FENCE ++ body ++ FENCE ++ post)
     = strip (after_tag body)
  /\ candidate (pre ++ FENCE ++ body) = strip (pre ++ FENCE ++ body)
  /\ candidate pre = strip pre.
Proof.
  intros Hpre Hbody.
  rewrite !candidate_first_block. unfold candidate_spec, fenced_block.
  rewrite !(split_fence_app _ Hpre). split; [|split; [|split]].
  - unfold after_tag at 1. rewrite strip_prefix_same.
    now rewrite (split_fence_app _ Hbody).
  - change (body ++ FENCE ++ post)
      with (body ++ BACKTICK :: BACKTICK :: BACKTICK :: post).
    rewrite after_tag_app.
    change (after_tag body ++ BACKTICK :: BACKTICK :: BACKTICK :: post)
      with (after_tag body ++ FENCE ++ post).
    now rewrite (split_fence_app _ (after_tag_plain Hbody)).
  - now rewrite (split_fence_plain (after_tag_plain Hbody)).
  - now rewrite (split_fence_plain Hpre).
Qed.

Lemma candidate_fenced_answer_witness :
  candidate (lit "Tags: " ++ FENCE ++ JSON_TAG ++ lit " [1] " ++ FENCE
             ++ lit " done")
  = lit "[1]".
Proof.
  refine (proj1 (@candidate_fenced_answer (lit "Tags: ") (lit " [1] ")
                   (lit " done") _ _));
    repeat constructor; discriminate.
Defined.

(** An entry with a name that is no string is not named [s]. *)
Lemma find_named_none entries s :
  (forall name description,
     In (name, description) entries -> exists t, name = PStr t) ->
  (forall d, ~ In (PStr s, d) entries) ->
  find (fun e : pyval * pyval => key_eqb (fst e) (PStr s)) entries = None.
Proof.
  intros Hs Hn.
  destruct (find _ entries) as [[name d]|] eqn:E; trivial.
  apply find_some in E as [Hin Hk]. cbn [fst] in Hk.
  destruct (Hs name d Hin) as (t & ->). cbn [key_eqb] in Hk.
  apply str_eqb_eq in Hk. subst t. destruct (Hn d Hin).
Qed.

(** X28. The mapping the tag step stores.  From an answer that is an array
    whose entries (the objects with Name and Description) are named by
    strings, the step stores a mapping in which a string is a key exactly
    when it names an entry, and reads the description of the last entry
    of that name: of two entries with one name the later wins. *)
Theorem tag_step_last_name_wins interp raw tags_array :
  payload interp raw = Loaded (PList tags_array) ->
  (forall name description,
     In (name, description) (tag_entries tags_array) ->
     exists s, name = PStr s) ->
  exists metadata,
    tag_step interp raw = TagMetadata metadata
    /\ (forall s d, getitem metadata (PStr s) = Some d ->
          In (PStr s, d) (tag_entries tags_array))
    /\ (forall earlier s d later,
          tag_entries tags_array = earlier ++ (PStr s, d) :: later ->
          (forall d', ~ In (PStr s, d') later) ->
          getitem metadata (PStr s) = Some d)
    /\ (forall s, (forall d, ~ In (PStr s, d) (tag_entries tags_array)) ->
          getitem metadata (PStr s) = None).
Proof.
  intros Hp Hs.
  destruct (@Extraction.tag_step_mapping interp raw tags_array Hp)
    as (metadata & Ht & Hg).
  { intros name description Hin. now destruct (Hs _ _ Hin) as (s & ->). }
  exists metadata. split; [exact Ht|]. split; [|split].
  - intros s d H. rewrite Hg in H.
    destruct (find _ (rev (tag_entries tags_array))) as [[name d0]|] eqn:E;
      [|discriminate].
    cbn in H. injection H as ->.
    apply find_some in E as [Hin Hk]. apply in_rev in Hin.
    destruct (Hs name d Hin) as (t & ->). cbn [fst key_eqb] in Hk.
    apply str_eqb_eq in Hk. now subst t.
  - intros earlier s d later E Hlast. rewrite Hg, E.
    rewrite rev_app_distr. cbn [rev]. rewrite <- app_assoc.
    rewrite StoreUpdate.find_app, find_named_none.
    + cbn [app find fst key_eqb]. now rewrite str_eqb_refl.
    + intros name description Hin. apply in_rev in Hin.
      apply (Hs name description). rewrite E. apply in_or_app. right.
      now right.
    + intros d' Hin. apply in_rev in Hin. exact (Hlast d' Hin).
  - intros s Hn. rewrite Hg, find_named_none; trivial.
    + intros name description Hin. apply in_rev in Hin. eauto.
    + intros d Hin. apply in_rev in Hin. exact (Hn d Hin).
Qed.

Lemma tag_step_last_name_wins_witness :
  exists metadata,
    tag_step cpython (lit "[{'Name': 'VIN', 'Description': 'a'},
 {'Name': 'VIN', 'Description': 'b'}]") = TagMetadata metadata
    /\ getitem metadata (PStr (lit "VIN")) = Some (PStr (lit "b")).
Proof.
  destruct (@tag_step_last_name_wins cpython
              (lit "[{'Name': 'VIN', 'Description': 'a'},
 {'Name': 'VIN', 'Description': 'b'}]")
              [PDict [(lit "Name", PStr (lit "VIN"));
                      (lit "Description", PStr (lit "a"))];
               PDict [(lit "Name", PStr (lit "VIN"));
                      (lit "Description", PStr (lit "b"))]])
    as (metadata & Ht & _ & Hlast & _).
  - vm_compute. reflexivity.
  - intros name description [[= <- _]|[[= <- _]|[]]]; now eexists.
  - exists metadata. split; [exact Ht|].
    apply (Hlast [(PStr (lit "VIN"), PStr (lit "a"))] (lit "VIN")
             (PStr (lit "b")) []); [reflexivity|].
    intros d' [].
Defined.

End AnswerFacts.

Module ResultNames.

Import Pipeline Files FileNameFacts.
Local Open Scope N_scope.

Lemma replace_dot_plain s :
  forallb (fun c => negb (DOT =? c)) (replace_char DOT LOW_LINE s) = true.
Proof.
  induction s as [|c s IH]; trivial.
  cbn [replace_char map forallb]. fold (replace_char DOT LOW_LINE s).
  rewrite IH, andb_true_r. unfold char_eqb.
  destruct (N.eqb_spec c DOT) as [->|Hne]; [reflexivity|].
  apply negb_true_iff. apply N.eqb_neq. congruence.
Qed.

Lemma replace_dot_eq (a b : str) :
  replace_char DOT LOW_LINE a = replace_char DOT LOW_LINE b
  <-> Forall2 (fun x y : char =>
                 x = y \/ ((x = DOT \/ x = LOW_LINE)
                           /\ (y = DOT \/ y = LOW_LINE))) a b.
Proof.
  assert (Hc : forall x y : char,
            (if char_eqb x DOT then LOW_LINE else x)
            = (if char_eqb y DOT then LOW_LINE else y)
            <-> x = y \/ ((x = DOT \/ x = LOW_LINE)
                          /\ (y = DOT \/ y = LOW_LINE))).
  { intros x y. unfold char_eqb.
    destruct (N.eqb_spec x DOT) as [->|Hx], (N.eqb_spec y DOT) as [->|Hy].
    - split; auto.
    - split; [intros <-; right; auto|].
      intros [E|[_ [E|E]]]; congruence.
    - split; [intros ->; right; auto|].
      intros [E|[[E|E] _]]; congruence.
    - split; [auto|]. intros [E|[[E|E] [E'|E']]]; congruence. }
  split.
  - revert b. induction a as [|x a IH]; intros [|y b] H; try discriminate;
      constructor.
    + injection H as H _. now apply Hc.
    + injection H as _ H. now apply IH.
  - induction 1 as [|x y a b Hxy _ IH]; trivial.
    cbn [replace_char map]. fold (replace_char DOT LOW_LINE a).
    fold (replace_char DOT LOW_LINE b). f_equal; trivial. now apply Hc.
Qed.

(** X29. The name of the result file of a datasheet.  It is a stem as long
    as the name of the datasheet and without a dot, followed by the
    extension mounterlib: its only dot is that of the extension.  Two
    datasheets have the same result file exactly when their names are of
    one length and differ only where each has a dot or a low line:
    [a.b.pdf] and [a_b.pdf] share theirs. *)
Theorem result_filename_collisions (d d' : DataSheetInfo) :
  (exists stem,
     result_filename d = stem ++ lit ".mounterlib"
     /\ List.length stem = List.length (datasheet_filename d)
     /\ forallb (fun c => negb (DOT =? c)) stem = true)
  /\ (result_filename d = result_filename d'
      <-> Forall2 (fun x y : char =>
                     x = y \/ ((x = DOT \/ x = LOW_LINE)
                               /\ (y = DOT \/ y = LOW_LINE)))
            (datasheet_filename d) (datasheet_filename d')).
Proof.
  unfold result_filename. split.
  - exists (replace_char DOT LOW_LINE (datasheet_filename d)).
    split; [reflexivity|]. split; [apply length_map|].
    apply replace_dot_plain.
  - rewrite <- replace_dot_eq. split.
    + apply app_inv_tail.
    + now intros ->.
Qed.

End ResultNames.
